(** * Repository-content selection and retrieval of the README generator

    A shallow embedding of the GitHub tool of the repository
    (the file that defines [fetchRepoInfoTool]): the file classifier
    [getFilePriority], the content fetcher [fetchFileContent] and the
    tool's handler with its budgeted selection loop.

    JavaScript strings are sequences of UTF-16 code units; numbers that
    the handler touches are integers ([Z]).  The network is an oracle
    whose answers may depend on the requests made so far; every [fetch]
    is appended to a trace, so that "no request was made" and "this
    request came before that one" are statements about the trace. *)

From Stdlib Require Import List ZArith NArith Lia Bool String Ascii.
From Stdlib Require Import Permutation Sorted DecimalString.
Import ListNotations.

Set Implicit Arguments.

(* ================================================================== *)
(** ** JavaScript strings and the string builtins the tool calls *)

Module JS.

Definition codeunit := N.
Definition jsstring := list codeunit.

(** A string literal of the source (all of them are ASCII). *)
Definition lit (s : string) : jsstring :=
  map N_of_ascii (list_ascii_of_string s).

Definition ch (a : ascii) : codeunit := N_of_ascii a.

Fixpoint eqb (s t : jsstring) : bool :=
  match s, t with
  | [], [] => true
  | c :: s', d :: t' => N.eqb c d && eqb s' t'
  | _, _ => false
  end.

(** Truthiness of a string value and of an optional one
    ([undefined], [null] and the empty string are falsy). *)
Definition nonempty (s : jsstring) : bool :=
  match s with [] => false | _ :: _ => true end.

Definition truthy (v : option jsstring) : bool :=
  match v with Some s => nonempty s | None => false end.

(** [a || b] on optional strings. *)
Definition or_else (a : option jsstring) (b : jsstring) : jsstring :=
  match a with
  | Some (c :: s) => c :: s
  | _ => b
  end.

Fixpoint startsWith (s p : jsstring) : bool :=
  match p, s with
  | [], _ => true
  | _ :: _, [] => false
  | c :: p', d :: s' => N.eqb c d && startsWith s' p'
  end.

Definition endsWith (s suffix : jsstring) : bool :=
  startsWith (rev s) (rev suffix).

Fixpoint includes (s sub : jsstring) : bool :=
  startsWith s sub ||
  match s with
  | [] => false
  | _ :: s' => includes s' sub
  end.

(** [s.substring(0, n)]. *)
Definition substring0 (n : nat) (s : jsstring) : jsstring := firstn n s.

(** [s.split(sep)] for a one-character separator. *)
Fixpoint split (sep : codeunit) (s : jsstring) : list jsstring :=
  match s with
  | [] => [[]]
  | c :: s' =>
      if N.eqb c sep then [] :: split sep s'
      else match split sep s' with
           | seg :: segs => (c :: seg) :: segs
           | [] => [[c]]
           end
  end.

(** [parts.pop()] on the result of a split: its last element. *)
Definition pop (parts : list jsstring) : option jsstring :=
  match rev parts with
  | [] => None
  | p :: _ => Some p
  end.

(** [s.replace(/\.git$/, '')]: one trailing [.git] is removed. *)
Definition replace_dot_git (s : jsstring) : jsstring :=
  if endsWith s (lit ".git") then firstn (List.length s - 4) s else s.

(** White space and line terminators, the characters [trim] strips. *)
Definition isWhiteSpace (c : codeunit) : bool :=
  existsb (N.eqb c)
    [9; 10; 11; 12; 13; 32; 160; 5760; 8192; 8193; 8194; 8195; 8196; 8197;
     8198; 8199; 8200; 8201; 8202; 8232; 8233; 8239; 8287; 12288; 65279]%N.

Fixpoint trimStart (s : jsstring) : jsstring :=
  match s with
  | c :: s' => if isWhiteSpace c then trimStart s' else s
  | [] => []
  end.

Definition trim (s : jsstring) : jsstring :=
  rev (trimStart (rev (trimStart s))).

(** [`${n}`] for an integer [n]: its decimal numeral (what JavaScript
    prints for integers below 10^21 in magnitude; byte sizes and HTTP
    status codes are of that kind). *)
Definition ofNumber (n : Z) : jsstring :=
  lit (NilEmpty.string_of_int (Z.to_int n)).

(** The builtins whose result depends on Unicode tables or on the URL
    standard are taken from the runtime.  [URL_pathname] is
    [new URL(u).pathname]; it answers [inl message] when the constructor
    throws.  [encodeURIComponent] is taken on well-formed UTF-16 input,
    where it does not throw. *)
Class Runtime := {
  toLowerCase : jsstring -> jsstring;
  encodeURIComponent : jsstring -> jsstring;
  URL_pathname : jsstring -> jsstring + jsstring
}.

End JS.

Import JS.

Declare Scope js_scope.
Delimit Scope js_scope with js.
Notation "a +++ b" := (@app codeunit a b)
  (at level 60, right associativity) : js_scope.
Open Scope js_scope.

(* ================================================================== *)
(** ** Regular expressions

    The patterns of the source use literals, sequence, alternation and
    [?] only.  Matching follows the continuation-passing matchers of
    the language definition: [m r s k] tries [r] at the front of [s]
    and hands each possible remainder to [k].  Every pattern of the
    source starts with [^]; [anchoredEnd] says whether it ends with
    [$].  With the [i] flag two code units match when their canonical
    forms agree; the patterns hold ASCII characters only, for which the
    canonical form of a code unit is its ASCII upper case (a non-ASCII
    code unit never canonicalises to an ASCII one). *)

Module RegExp.

Inductive pattern :=
| Empty
| Char (c : codeunit)
| Seq (a b : pattern)
| Alt (a b : pattern).

Definition Opt (r : pattern) : pattern := Alt r Empty.

Fixpoint str (w : jsstring) : pattern :=
  match w with
  | [] => Empty
  | c :: w' => Seq (Char c) (str w')
  end.

Fixpoint alts (r : pattern) (rs : list pattern) : pattern :=
  match rs with
  | [] => r
  | r' :: rs' => Alt r (alts r' rs')
  end.

Definition canonicalize (ignoreCase : bool) (c : codeunit) : codeunit :=
  if ignoreCase && (N.leb 97 c && N.leb c 122) then (c - 32)%N else c.

Fixpoint m (ic : bool) (r : pattern) (s : jsstring)
           (k : jsstring -> bool) : bool :=
  match r with
  | Empty => k s
  | Char c =>
      match s with
      | [] => false
      | d :: s' => N.eqb (canonicalize ic c) (canonicalize ic d) && k s'
      end
  | Seq a b => m ic a s (fun rest => m ic b rest k)
  | Alt a b => m ic a s k || m ic b s k
  end.

Record t := {
  source : pattern;
  anchoredEnd : bool;
  ignoreCase : bool
}.

Definition test (re : t) (s : jsstring) : bool :=
  m (ignoreCase re) (source re) s
    (fun rest => if anchoredEnd re then negb (nonempty rest) else true).

End RegExp.

(* ================================================================== *)
(** ** Constants and filename patterns of the tool *)

Definition MAX_FILES_FOR_CONTENT_FETCH : nat := 12.
Definition MAX_FILE_CONTENT_LENGTH : Z := 20000.
Definition GITHUB_API_BASE_URL : jsstring := lit "https://api.github.com".
Definition MAX_CONTRIBUTORS_TO_FETCH : Z := 15.

Definition W (s : string) : RegExp.pattern := RegExp.str (lit s).

Definition MANIFEST_FILES_REGEX : RegExp.t :=
  {| RegExp.source :=
       RegExp.alts (W "package.json")
         [W "pnpm-lock.yaml"; W "yarn.lock"; W "package-lock.json";
          W "pyproject.toml"; W "poetry.lock"; W "requirements.txt";
          W "composer.json"; W "composer.lock"; W "Gemfile";
          W "Gemfile.lock"; W "pom.xml"; W "build.gradle"; W "Cargo.toml";
          W "Cargo.lock"; W "go.mod"; W "go.sum"; W "Makefile";
          W "Dockerfile";
          RegExp.Seq (W "docker-compose.y")
            (RegExp.Seq (RegExp.Opt (RegExp.Char (ch "a"))) (W "ml"))];
     RegExp.anchoredEnd := true;
     RegExp.ignoreCase := true |}.

Definition README_FILES_REGEX : RegExp.t :=
  {| RegExp.source :=
       RegExp.Seq (W "README")
         (RegExp.Opt
            (RegExp.Seq (W ".")
               (RegExp.alts (W "md") [W "rst"; W "txt"; W "markdown"])));
     RegExp.anchoredEnd := true;
     RegExp.ignoreCase := true |}.

Definition LICENSE_FILES_REGEX : RegExp.t :=
  {| RegExp.source :=
       RegExp.Seq (RegExp.alts (W "LICENSE") [W "COPYING"])
         (RegExp.Opt
            (RegExp.Seq (W ".")
               (RegExp.alts (W "md") [W "txt"; W "rst"])));
     RegExp.anchoredEnd := true;
     RegExp.ignoreCase := true |}.

Definition SOURCE_FILE_EXTENSIONS : list jsstring :=
  map lit
    [".js"; ".ts"; ".tsx"; ".jsx"; ".py"; ".java"; ".go"; ".rs"; ".rb";
     ".php"; ".cs"; ".c"; ".cpp"; ".swift"; ".kt"; ".m"; ".scala"; ".pl";
     ".sh"; ".lua"; ".sql"; ".html"; ".css"; ".vue"]%string.

Definition COMMON_SOURCE_DIRS_REGEX : RegExp.t :=
  {| RegExp.source :=
       RegExp.Seq
         (RegExp.alts (W "src")
            [W "lib"; W "app"; W "source"; W "sources"; W "include";
             W "pkg"; W "cmd"; W "internal"; W "core"; W "main";
             W "server"; W "client"])
         (W "/");
     RegExp.anchoredEnd := false;
     RegExp.ignoreCase := true |}.

Definition TEST_DIRS_REGEX : RegExp.t :=
  {| RegExp.source :=
       RegExp.Seq (RegExp.alts (W "test") [W "tests"; W "spec"; W "e2e"])
         (W "/");
     RegExp.anchoredEnd := false;
     RegExp.ignoreCase := true |}.

Definition DOCS_DIRS_REGEX : RegExp.t :=
  {| RegExp.source :=
       RegExp.Seq
         (RegExp.alts (W "doc") [W "docs"; W "documentation"; W "examples"])
         (W "/");
     RegExp.anchoredEnd := false;
     RegExp.ignoreCase := true |}.

(* ================================================================== *)
(** ** Data model *)

(** [GithubRepoToolFile].  A field that is [undefined], [null] or
    absent is [None]. *)
Module File.
Record t := mk {
  name : jsstring;
  path : jsstring;
  type : jsstring;
  size : option Z;
  content : option jsstring;
  url : option jsstring;
  download_url : option jsstring;
  sha : option jsstring;
  error : option jsstring
}.

Definition set_content (c : option jsstring) (f : t) : t :=
  mk (name f) (path f) (type f) (size f) c (url f) (download_url f)
     (sha f) (error f).

Definition set_error (e : option jsstring) (f : t) : t :=
  mk (name f) (path f) (type f) (size f) (content f) (url f)
     (download_url f) (sha f) e.
End File.

Module Contributor.
Record t := mk {
  login : jsstring;
  avatar_url : jsstring;
  html_url : jsstring;
  contributions : option Z
}.
End Contributor.

Module Input.
Record t := mk {
  repoUrl : jsstring;
  githubToken : option jsstring
}.
End Input.

(** [GithubRepoToolOutput]. *)
Module Output.
Record t := mk {
  repoName : option jsstring;
  description : option jsstring;
  mainLanguage : option jsstring;
  repoContents : option (list File.t);
  contributors : option (list Contributor.t);
  error : option jsstring;
  toolInput : option Input.t
}.

(** [{error: message, toolInput: ...}]. *)
Definition failure (message : jsstring) (i : Input.t) : t :=
  mk None None None None None (Some message) (Some i).
End Output.

(** What [fetchFileContent] resolves to. *)
Module Fetched.
Record t := mk {
  content : option jsstring;
  error : option jsstring
}.
End Fetched.

(* ================================================================== *)
(** ** The network

    A request is a URL with its headers.  Each of the five [fetch] call
    sites of the source reads the response in its own way ([text()] or
    [json()] and then the fields it uses), so the oracle answers each
    call site with the body as that call site decodes it.  A response is
    either a rejection of [fetch] itself, or a status line together
    with the body; the body is [inl message] when reading or decoding
    it throws. *)

Definition Headers := list (jsstring * jsstring).

Record Request := {
  req_url : jsstring;
  req_headers : Headers
}.

Definition Trace := list Request.

Inductive Outcome (A : Type) :=
| Rejects (message : jsstring)
| Responds (status : Z) (statusText : jsstring) (body : jsstring + A).
Arguments Rejects {A} message.
Arguments Responds {A} status statusText body.

(** [response.ok]. *)
Definition ok (status : Z) : bool :=
  (200 <=? status)%Z && (status <=? 299)%Z.

Record RepoDetails := {
  rd_name : option jsstring;
  rd_description : option jsstring;
  rd_language : option jsstring;
  rd_default_branch : option jsstring
}.

Record TreeItem := {
  ti_path : jsstring;
  ti_type : jsstring;
  ti_size : option Z;
  ti_sha : option jsstring;
  ti_url : option jsstring
}.

Record TreeData := {
  truncated : bool;
  tree : list TreeItem
}.

Record ContentsItem := {
  ci_name : jsstring;
  ci_path : jsstring;
  ci_type : jsstring;
  ci_size : option Z;
  ci_sha : option jsstring;
  ci_url : option jsstring;
  ci_download_url : option jsstring
}.

Record ContributorItem := {
  co_type : option jsstring;
  co_login : option jsstring;
  co_avatar_url : option jsstring;
  co_html_url : option jsstring;
  co_contributions : option Z
}.

Class Network := {
  repoDetailsResponse : Trace -> Request -> Outcome RepoDetails;
  treeResponse : Trace -> Request -> Outcome TreeData;
  contentsResponse : Trace -> Request -> Outcome (list ContentsItem);
  contentResponse : Trace -> Request -> Outcome jsstring;
  (** [None]: the decoded body is not an array. *)
  contributorsResponse :
    Trace -> Request -> Outcome (option (list ContributorItem))
}.

(** Computations that talk to the network thread the trace. *)
Definition M (A : Type) : Type := Trace -> A * Trace.

Definition ret {A} (a : A) : M A := fun tr => (a, tr).

Definition bind {A B} (c : M A) (f : A -> M B) : M B :=
  fun tr => let (a, tr') := c tr in f a tr'.

Notation "x <- c ;; k" := (bind c (fun x => k))
  (at level 61, c at next level, right associativity).

Definition fetch {A} (oracle : Trace -> Request -> Outcome A)
    (url : jsstring) (headers : Headers) : M (Outcome A) :=
  fun tr =>
    let rq := {| req_url := url; req_headers := headers |} in
    (oracle tr rq, tr ++ [rq]).

(** [Array.prototype.sort] with the comparator
    [(a, b) => key(a) - key(b)].  The language requires the sort to be
    stable, and the comparator is a consistent one, so the result is
    determined: the elements in ascending key order, equal keys in
    their original order.  Insertion from the right computes it. *)
Fixpoint insert_by {A} (key : A -> Z) (x : A) (l : list A) : list A :=
  match l with
  | [] => [x]
  | y :: l' =>
      if (key x <=? key y)%Z then x :: y :: l'
      else y :: insert_by key x l'
  end.

Fixpoint sort_by {A} (key : A -> Z) (l : list A) : list A :=
  match l with
  | [] => []
  | x :: l' => insert_by key x (sort_by key l')
  end.

(* ================================================================== *)
(** ** The tool *)

Section Tool.

Context {rt : Runtime} {net : Network}.

Definition hasSourceExtension (p : jsstring) : bool :=
  existsb (fun ext => endsWith p ext) SOURCE_FILE_EXTENSIONS.

Definition getFilePriority (file : File.t) : Z :=
  let lowerPath := toLowerCase (File.path file) in
  if RegExp.test README_FILES_REGEX (File.name file) then 1%Z
  else if RegExp.test LICENSE_FILES_REGEX (File.name file) then 2%Z
  else if RegExp.test MANIFEST_FILES_REGEX (File.name file) then 3%Z
  else
    (* the block guarded by the source-extension test returns or falls
       through *)
    match
      if hasSourceExtension lowerPath then
        if RegExp.test COMMON_SOURCE_DIRS_REGEX lowerPath then Some 4%Z
        else if includes lowerPath (lit "main")
                || includes lowerPath (lit "app")
                || includes lowerPath (lit "index")
                || includes lowerPath (lit "config") then Some 5%Z
        else if negb (RegExp.test TEST_DIRS_REGEX lowerPath)
                && negb (RegExp.test DOCS_DIRS_REGEX lowerPath) then Some 6%Z
        else None
      else None
    with
    | Some tier => tier
    | None =>
        if RegExp.test DOCS_DIRS_REGEX lowerPath
           && hasSourceExtension lowerPath then 7%Z
        else 10%Z
    end.

(** The URL built from owner, repository, branch and path. *)
Definition rawUrl (owner repo defaultBranch path : jsstring) : jsstring :=
  lit "https://raw.githubusercontent.com/" +++ owner +++ lit "/" +++ repo
  +++ lit "/" +++ defaultBranch +++ lit "/" +++ encodeURIComponent path.

(** The value of [downloadUrl] after the first [if] of
    [fetchFileContent]. *)
Definition resolveDownloadUrl (file : File.t)
    (owner repo defaultBranch : jsstring) : option jsstring :=
  let downloadUrl := File.download_url file in
  if negb (truthy downloadUrl) && truthy (File.sha file)
     && nonempty (File.path file)
  then Some (rawUrl owner repo defaultBranch (File.path file))
  else downloadUrl.

Definition truncationMarker : jsstring :=
  10%N :: lit "... (file content truncated)".

Definition noUrlError (path : jsstring) : jsstring :=
  lit "No download URL could be constructed for file: " +++ path.

Definition fetchFileContent (file : File.t)
    (owner repo defaultBranch : jsstring) (headers : Headers)
  : M Fetched.t :=
  let downloadUrl := resolveDownloadUrl file owner repo defaultBranch in
  match downloadUrl with
  | Some (c :: u) =>
      let downloadUrl := c :: u in
      contentResponse <- fetch contentResponse downloadUrl headers ;;
      match contentResponse with
      | Responds status statusText body =>
          if ok status then
            match body with
            | inr textContent =>
                if (Z.of_nat (List.length textContent)
                      >? MAX_FILE_CONTENT_LENGTH)%Z
                then ret (Fetched.mk
                       (Some (substring0 (Z.to_nat MAX_FILE_CONTENT_LENGTH)
                                textContent +++ truncationMarker))
                       None)
                else ret (Fetched.mk (Some textContent) None)
            | inl message =>
                ret (Fetched.mk None
                       (Some (lit "Exception fetching file content: "
                              +++ message)))
            end
          else if (status =? 404)%Z then
            ret (Fetched.mk None
                   (Some (lit "File content not found at " +++ downloadUrl
                          +++ lit " (404).")))
          else
            ret (Fetched.mk None
                   (Some (lit "Failed to fetch file content from "
                          +++ downloadUrl +++ lit ". Status: "
                          +++ ofNumber status +++ lit " " +++ statusText)))
      | Rejects message =>
          ret (Fetched.mk None
                 (Some (lit "Exception fetching file content: "
                        +++ message)))
      end
  | _ => ret (Fetched.mk None (Some (noUrlError (File.path file))))
  end.

(** *** The selection loop *)

Record LoopState := {
  repoContents : list File.t;
  fetchedContentCount : nat
}.

Definition push (f : File.t) (st : LoopState) : LoopState :=
  {| repoContents := repoContents st ++ [f];
     fetchedContentCount := fetchedContentCount st |}.

Definition increment (st : LoopState) : LoopState :=
  {| repoContents := repoContents st;
     fetchedContentCount := S (fetchedContentCount st) |}.

Definition isPriorityFile (name : jsstring) : bool :=
  RegExp.test README_FILES_REGEX name
  || RegExp.test MANIFEST_FILES_REGEX name
  || RegExp.test LICENSE_FILES_REGEX name.

(** [file.size && file.size > MAX_FILE_CONTENT_LENGTH * 3]. *)
Definition isLarge (size : option Z) : bool :=
  match size with
  | Some n => negb (n =? 0)%Z && (n >? MAX_FILE_CONTENT_LENGTH * 3)%Z
  | None => false
  end.

Definition tooLargeError (size : option Z) : jsstring :=
  lit "File too large to fetch content ("
  +++ match size with Some n => ofNumber n | None => lit "undefined" end
  +++ lit " bytes). Not a priority file.".

Definition limitError : jsstring :=
  lit "Content not fetched due to limit (MAX_FILES_FOR_CONTENT_FETCH reached).".

(** The test of the branch taken once the budget is used up. *)
Definition keptAfterLimit (file : File.t) : bool :=
  RegExp.test README_FILES_REGEX (File.name file)
  || RegExp.test MANIFEST_FILES_REGEX (File.name file)
  || RegExp.test LICENSE_FILES_REGEX (File.name file)
  || existsb (fun ext => endsWith (File.path file) ext)
       SOURCE_FILE_EXTENSIONS.

Definition minimalFile (file : File.t) : File.t :=
  let minimalFile := File.set_content None file in
  File.set_error (Some (or_else (File.error minimalFile) limitError))
    minimalFile.

(** One iteration of [for (const file of filesOnly)]. *)
Definition iteration (owner repo defaultBranch : jsstring)
    (headers : Headers) (file : File.t) (st : LoopState) : M LoopState :=
  if (fetchedContentCount st <? MAX_FILES_FOR_CONTENT_FETCH)%nat then
    let isPriorityFile := isPriorityFile (File.name file) in
    if isLarge (File.size file) && negb isPriorityFile then
      ret (push (File.set_error (Some (tooLargeError (File.size file)))
                   (File.set_content None file)) st)
    else
      r <- fetchFileContent file owner repo defaultBranch headers ;;
      let content := Fetched.content r in
      let error := Fetched.error r in
      let fileWithContent := File.set_content content file in
      let fileWithContent :=
        if truthy error then File.set_error error fileWithContent
        else fileWithContent in
      let st := push fileWithContent st in
      if truthy content && negb (truthy error) then ret (increment st)
      else ret st
  else
    if keptAfterLimit file then ret (push (minimalFile file) st)
    else ret st.

Fixpoint loop (owner repo defaultBranch : jsstring) (headers : Headers)
    (files : list File.t) (st : LoopState) : M LoopState :=
  match files with
  | [] => ret st
  | file :: rest =>
      st' <- iteration owner repo defaultBranch headers file st ;;
      loop owner repo defaultBranch headers rest st'
  end.

Definition initialState : LoopState :=
  {| repoContents := []; fetchedContentCount := 0 |}.

(** [allFilesFromTree.filter(f => f.type === 'file' && f.path)], sorted. *)
Definition filesOnly (allFilesFromTree : list File.t) : list File.t :=
  sort_by getFilePriority
    (filter (fun f => JS.eqb (File.type f) (lit "file")
                      && nonempty (File.path f))
       allFilesFromTree).

(** From the filter to the final sort of [repoContents]. *)
Definition selectContents (owner repo defaultBranch : jsstring)
    (headers : Headers) (allFilesFromTree : list File.t)
  : M (list File.t) :=
  st <- loop owner repo defaultBranch headers
          (filesOnly allFilesFromTree) initialState ;;
  ret (sort_by getFilePriority (repoContents st)).

(** *** The handler *)

(** The first [try] block: owner and repository from the URL. *)
Definition parseRepoUrl (repoUrl : jsstring)
  : jsstring + (jsstring * jsstring) :=
  match URL_pathname repoUrl with
  | inr pathname =>
      let pathParts := filter nonempty (split (ch "/") pathname) in
      if (List.length pathParts <? 2)%nat then
        inl (lit "Invalid GitHub repository URL format. Could not extract owner/repo.")
      else
        let owner := nth 0 pathParts [] in
        let repo := replace_dot_git (nth 1 pathParts []) in
        inr (owner, repo)
  | inl message => inl (lit "Invalid repository URL: " +++ message)
  end.

Definition requestHeaders (githubToken : option jsstring) : Headers :=
  [(lit "Accept", lit "application/vnd.github.v3+json");
   (lit "X-GitHub-Api-Version", lit "2022-11-28")]
  ++ match githubToken with
     | Some (c :: tok) => [(lit "Authorization", lit "token " +++ c :: tok)]
     | _ => []
     end.

Definition repoUrlOf (owner repo : jsstring) : jsstring :=
  GITHUB_API_BASE_URL +++ lit "/repos/" +++ owner +++ lit "/" +++ repo.

Definition treeUrl (owner repo defaultBranch : jsstring) : jsstring :=
  repoUrlOf owner repo +++ lit "/git/trees/" +++ defaultBranch
  +++ lit "?recursive=true".

Definition contentsUrl (owner repo defaultBranch : jsstring) : jsstring :=
  repoUrlOf owner repo +++ lit "/contents?ref=" +++ defaultBranch.

Definition contributorsUrl (owner repo : jsstring) : jsstring :=
  repoUrlOf owner repo +++ lit "/contributors?anon=0&per_page="
  +++ ofNumber MAX_CONTRIBUTORS_TO_FETCH.

(** The second [try] block: the repository's details or the message of
    the error the handler returns. *)
Definition fetchRepoDetails (owner repo : jsstring) (headers : Headers)
  : M (jsstring + RepoDetails) :=
  repoDetailsResponse <- fetch repoDetailsResponse (repoUrlOf owner repo)
                           headers ;;
  match repoDetailsResponse with
  | Responds status statusText body =>
      if negb (ok status) then
        let errorMsg :=
          lit "Failed to fetch repository details. Status: "
          +++ ofNumber status +++ lit " " +++ statusText +++ lit ". " in
        let errorMsg :=
          if (status =? 404)%Z then
            errorMsg +++ lit "This could be an invalid URL or a private repository for which the provided token (if any) is invalid or lacks permissions."
          else if (status =? 401)%Z || (status =? 403)%Z then
            errorMsg +++ lit "Authentication failed. Ensure your GitHub Personal Access Token is correct and has the 'repo' scope if accessing a private repository."
          else
            errorMsg +++ lit "This could also be due to API rate limits." in
        ret (inl errorMsg)
      else
        match body with
        | inr repoDetails => ret (inr repoDetails)
        | inl message =>
            ret (inl (lit "Exception fetching repository details: "
                      +++ message))
        end
  | Rejects message =>
      ret (inl (lit "Exception fetching repository details: " +++ message))
  end.

Definition fileOfTreeItem (owner repo defaultBranch : jsstring)
    (item : TreeItem) : File.t :=
  let blob := JS.eqb (ti_type item) (lit "blob") in
  {| File.name :=
       or_else (pop (split (ch "/") (ti_path item))) (ti_path item);
     File.path := ti_path item;
     File.type :=
       if blob then lit "file"
       else if JS.eqb (ti_type item) (lit "tree") then lit "dir"
       else lit "symlink";
     File.size := ti_size item;
     File.content := None;
     File.url := ti_url item;
     File.download_url :=
       if blob then Some (rawUrl owner repo defaultBranch (ti_path item))
       else None;
     File.sha := ti_sha item;
     File.error := None |}.

Definition fileOfContentsItem (item : ContentsItem) : File.t :=
  {| File.name := ci_name item;
     File.path := ci_path item;
     File.type := ci_type item;
     File.size := ci_size item;
     File.content := None;
     File.url := ci_url item;
     File.download_url :=
       match ci_download_url item with
       | Some (c :: u) =>
           if negb (JS.eqb (trim (c :: u)) []) then Some (trim (c :: u))
           else None
       | _ => None
       end;
     File.sha := ci_sha item;
     File.error := None |}.

Definition treeException (message : jsstring) : jsstring :=
  lit "Exception fetching repository tree structure: " +++ message.

(** The third [try] block: the inventory [allFilesFromTree], or the
    message of the error the handler returns. *)
Definition fetchTree (owner repo defaultBranch : jsstring)
    (headers : Headers) : M (jsstring + list File.t) :=
  treeResponse <- fetch treeResponse (treeUrl owner repo defaultBranch)
                    headers ;;
  match treeResponse with
  | Responds status statusText body =>
      if ok status then
        match body with
        | inr treeData =>
            ret (inr (map (fileOfTreeItem owner repo defaultBranch)
                        (tree treeData)))
        | inl message => ret (inl (treeException message))
        end
      else
        contentsResponse <- fetch contentsResponse
                              (contentsUrl owner repo defaultBranch)
                              headers ;;
        match contentsResponse with
        | Responds status2 statusText2 body2 =>
            if ok status2 then
              match body2 with
              | inr topLevelContents =>
                  ret (inr (map fileOfContentsItem topLevelContents))
              | inl message => ret (inl (treeException message))
              end
            else
              ret (inl (lit "Failed to fetch repository contents. Tree Error: "
                        +++ statusText +++ lit ", Contents Error: "
                        +++ statusText2))
        | Rejects message => ret (inl (treeException message))
        end
  | Rejects message => ret (inl (treeException message))
  end.

Definition contributorOfItem (contrib : ContributorItem)
  : option Contributor.t :=
  match co_login contrib, co_avatar_url contrib, co_html_url contrib with
  | Some (a :: login), Some (b :: avatar), Some (c :: html) =>
      if match co_type contrib with
         | Some ty => JS.eqb ty (lit "Bot")
         | None => false
         end
      then None
      else Some (Contributor.mk (a :: login) (b :: avatar) (c :: html)
                   (co_contributions contrib))
  | _, _, _ => None
  end.

Fixpoint filter_map {A B} (f : A -> option B) (l : list A) : list B :=
  match l with
  | [] => []
  | x :: l' =>
      match f x with
      | Some y => y :: filter_map f l'
      | None => filter_map f l'
      end
  end.

(** The last [try] block; a failure leaves [contributorsList] undefined. *)
Definition fetchContributors (owner repo : jsstring) (headers : Headers)
  : M (option (list Contributor.t)) :=
  contributorsResponse <- fetch contributorsResponse
                            (contributorsUrl owner repo) headers ;;
  match contributorsResponse with
  | Responds status _ (inr (Some contributorsData)) =>
      if ok status then
        ret (Some (firstn (Z.to_nat MAX_CONTRIBUTORS_TO_FETCH)
                     (filter_map contributorOfItem contributorsData)))
      else ret None
  | _ => ret None
  end.

Definition fetchRepoInfoTool (input : Input.t) : M Output.t :=
  let repoUrl := Input.repoUrl input in
  let githubToken := Input.githubToken input in
  match parseRepoUrl repoUrl with
  | inl message => ret (Output.failure message input)
  | inr (owner, repo) =>
      let headers := requestHeaders githubToken in
      details <- fetchRepoDetails owner repo headers ;;
      match details with
      | inl message => ret (Output.failure message input)
      | inr repoDetails =>
          let defaultBranch :=
            or_else (rd_default_branch repoDetails) (lit "master") in
          inventory <- fetchTree owner repo defaultBranch headers ;;
          match inventory with
          | inl message => ret (Output.failure message input)
          | inr allFilesFromTree =>
              repoContents <- selectContents owner repo defaultBranch
                                headers allFilesFromTree ;;
              contributorsList <- fetchContributors owner repo headers ;;
              ret {| Output.repoName := rd_name repoDetails;
                     Output.description := rd_description repoDetails;
                     Output.mainLanguage := rd_language repoDetails;
                     Output.repoContents :=
                       match repoContents with
                       | [] => None
                       | _ :: _ => Some repoContents
                       end;
                     Output.contributors := contributorsList;
                     Output.error := None;
                     Output.toolInput := Some input |}
          end
      end
  end.

End Tool.

(* ================================================================== *)
(** ** Spec-level notions the theorems compare the code with *)

(** The language of a pattern: the strings it matches from end to end. *)
Fixpoint Lang (ic : bool) (r : RegExp.pattern) (s : jsstring) : Prop :=
  match r with
  | RegExp.Empty => s = []
  | RegExp.Char c =>
      exists d, s = [d] /\ RegExp.canonicalize ic c = RegExp.canonicalize ic d
  | RegExp.Seq a b =>
      exists s1 s2, s = s1 ++ s2 /\ Lang ic a s1 /\ Lang ic b s2
  | RegExp.Alt a b => Lang ic a s \/ Lang ic b s
  end.

(** Equality of two strings up to the case of ASCII letters. *)
Definition eq_ignoring_case (s t : jsstring) : Prop :=
  map (RegExp.canonicalize true) s = map (RegExp.canonicalize true) t.

(** The README filename pattern in the words of the specification:
    [README] with an optional [.md], [.rst], [.txt] or [.markdown]
    suffix, case-insensitive. *)
Definition readme_name (name : jsstring) : Prop :=
  exists suffix,
    In suffix (map lit [""; ".md"; ".rst"; ".txt"; ".markdown"]%string)
    /\ eq_ignoring_case name (lit "README" +++ suffix).

(** Ascending priority order of a list of entries. *)
Definition tier_sorted {A} (key : A -> Z) (l : list A) : Prop :=
  StronglySorted (fun a b => (key a <= key b)%Z) l.

(** The entries of tier [k], in their order in [l]. *)
Definition of_tier {A} (key : A -> Z) (k : Z) (l : list A) : list A :=
  filter (fun x => (key x =? k)%Z) l.

(** An entry carries fetched content: the [content] field is set
    (possibly to the empty string). *)
Definition carriesContent (f : File.t) : bool :=
  match File.content f with Some _ => true | None => false end.

(** An entry carries non-empty fetched content. *)
Definition carriesText (f : File.t) : bool := truthy (File.content f).

Definition count_if {A} (p : A -> bool) (l : list A) : nat :=
  List.length (filter p l).

(** The budget invariant of the selection loop: the counter is the
    number of recorded entries with non-empty content, and it stays
    within the budget. *)
Definition budget_invariant (st : LoopState) : Prop :=
  count_if carriesText (repoContents st) = fetchedContentCount st
  /\ fetchedContentCount st <= MAX_FILES_FOR_CONTENT_FETCH.

(** An inventory entry as the tree fetcher builds it: neither
    [content] nor [error] is set. *)
Definition fresh (f : File.t) : Prop :=
  File.content f = None /\ File.error f = None.

(** The [type === 'file' && path] test of the inventory filter. *)
Definition isFile (f : File.t) : bool :=
  JS.eqb (File.type f) (lit "file") && nonempty (File.path f).

(** A listing attempt fails: [fetch] rejects, the status is not a
    success, or the body cannot be read. *)
Definition failed {A} (o : Outcome A) : Prop :=
  match o with
  | Rejects _ => True
  | Responds status _ body =>
      ok status = false \/ exists message, body = inl message
  end.

(** The two listing requests of the handler. *)
Definition treeRequest (owner repo defaultBranch : jsstring)
    (headers : Headers) : Request :=
  {| req_url := treeUrl owner repo defaultBranch; req_headers := headers |}.

Definition contentsRequest (owner repo defaultBranch : jsstring)
    (headers : Headers) : Request :=
  {| req_url := contentsUrl owner repo defaultBranch;
     req_headers := headers |}.

(** [repoDetails.default_branch || 'master']. *)
Definition defaultBranchOf (repoDetails : RepoDetails) : jsstring :=
  or_else (rd_default_branch repoDetails) (lit "master").

(* ================================================================== *)
(** ** A concrete runtime and concrete networks, for running the tool *)

Module Example.

(** Lower case of ASCII letters; what [toLowerCase] does on ASCII. *)
Definition asciiLower (s : jsstring) : jsstring :=
  map (fun c => if N.leb 65 c && N.leb c 90 then (c + 32)%N else c) s.

Definition unreserved (c : codeunit) : bool :=
  (N.leb 65 c && N.leb c 90) || (N.leb 97 c && N.leb c 122)
  || (N.leb 48 c && N.leb c 57)
  || existsb (N.eqb c) (lit "-_.!~*'()").

Definition hexDigit (n : N) : codeunit :=
  if N.ltb n 10 then (48 + n)%N else (55 + n)%N.

(** Percent-encoding of ASCII text; what [encodeURIComponent] does on
    ASCII. *)
Definition percentEncode (s : jsstring) : jsstring :=
  flat_map (fun c =>
    if unreserved c then [c]
    else [ch "%"; hexDigit (N.div c 16 mod 16); hexDigit (c mod 16)]) s.

Fixpoint afterScheme (s : jsstring) : option jsstring :=
  match s with
  | 58%N :: 47%N :: 47%N :: rest => Some rest
  | _ :: s' => afterScheme s'
  | [] => None
  end.

Fixpoint fromSlash (s : jsstring) : jsstring :=
  match s with
  | [] => []
  | c :: s' => if N.eqb c 47 then s else fromSlash s'
  end.

Fixpoint untilQuery (s : jsstring) : jsstring :=
  match s with
  | [] => []
  | c :: s' => if N.eqb c 63 || N.eqb c 35 then [] else c :: untilQuery s'
  end.

(** The path of a plain [scheme://host/path?query#fragment] URL. *)
Definition pathnameOf (u : jsstring) : jsstring + jsstring :=
  match afterScheme u with
  | Some rest =>
      match untilQuery (fromSlash rest) with
      | [] => inr (lit "/")
      | p => inr p
      end
  | None => inl (lit "Invalid URL")
  end.

Definition runtime : Runtime :=
  {| toLowerCase := asciiLower;
     encodeURIComponent := percentEncode;
     URL_pathname := pathnameOf |}.

(** A network that answers each call site the same way whatever the
    history; raw content is looked up by URL. *)
Definition network (details : Outcome RepoDetails)
    (treeData : Outcome TreeData)
    (contents : Outcome (list ContentsItem))
    (raw : jsstring -> Outcome jsstring) : Network :=
  {| repoDetailsResponse := fun _ _ => details;
     treeResponse := fun _ _ => treeData;
     contentsResponse := fun _ _ => contents;
     contentResponse := fun _ rq => raw (req_url rq);
     contributorsResponse := fun _ _ => Rejects (lit "offline") |}.

Definition details : RepoDetails :=
  {| rd_name := Some (lit "widget");
     rd_description := None;
     rd_language := Some (lit "TypeScript");
     rd_default_branch := Some (lit "main") |}.

Definition blob (path : string) (size : Z) : TreeItem :=
  {| ti_path := lit path;
     ti_type := lit "blob";
     ti_size := Some size;
     ti_sha := Some (lit "0a1b2c");
     ti_url := None |}.

Definition file (name path : string) (size : option Z)
    (download_url sha : option jsstring) : File.t :=
  {| File.name := lit name;
     File.path := lit path;
     File.type := lit "file";
     File.size := size;
     File.content := None;
     File.url := None;
     File.download_url := download_url;
     File.sha := sha;
     File.error := None |}.

Definition input (url : string) : Input.t :=
  {| Input.repoUrl := lit url; Input.githubToken := None |}.

Definition okText (text : jsstring) : Outcome jsstring :=
  Responds 200 (lit "OK") (inr text).

Definition okTree (items : list TreeItem) : Outcome TreeData :=
  Responds 200 (lit "OK") (inr {| truncated := false; tree := items |}).

Definition status {A} (code : Z) (text : string) : Outcome A :=
  Responds code (lit text) (inl (lit "body not read")).

Definition okDetails : Outcome RepoDetails :=
  Responds 200 (lit "OK") (inr details).

(** A repository of thirteen empty files. *)
Definition emptyFiles : list TreeItem :=
  map (fun p => blob p 0)
    ["a.txt"; "b.txt"; "c.txt"; "d.txt"; "e.txt"; "f.txt"; "g.txt";
     "h.txt"; "i.txt"; "j.txt"; "k.txt"; "l.txt"; "m.txt"]%string.

Definition emptyRepository : Network :=
  network okDetails (okTree emptyFiles) (status 500 "unused")
    (fun _ => okText []).

(** A repository whose files all hold the same text. *)
Definition uniformRepository (items : list TreeItem) (text : jsstring)
  : Network :=
  network okDetails (okTree items) (status 500 "unused")
    (fun _ => okText text).

Definition sourceFile (p : string) : File.t :=
  file p p (Some 10%Z)
    (Some (lit "https://raw.example/" ++ lit p)) (Some (lit "0a1b2c")).

(** Twelve source files, as many as the budget allows. *)
Definition twelveFiles : list File.t :=
  map sourceFile
    ["a.ts"; "b.ts"; "c.ts"; "d.ts"; "e.ts"; "f.ts"; "g.ts"; "h.ts";
     "i.ts"; "j.ts"; "k.ts"; "l.ts"]%string.

(** A network on which the recursive listing cannot be requested
    although the shallow listing would answer. *)
Definition treeUnreachable : Network :=
  network okDetails (Rejects (lit "socket hang up"))
    (Responds 200 (lit "OK") (inr []))
    (fun _ => okText (lit "text")).

(** A network on which both listings answer with an error status. *)
Definition listingsRefused : Network :=
  network okDetails (status 500 "Internal Server Error")
    (status 403 "Forbidden") (fun _ => okText (lit "text")).

End Example.

(* ================================================================== *)
(** ** Further notions about the tool *)

(** An output entry that stands for the inventory entry [f]: every
    field but [content] and [error] is that of [f]. *)
Definition same_file (f e : File.t) : Prop :=
  File.name e = File.name f /\ File.path e = File.path f
  /\ File.type e = File.type f /\ File.size e = File.size f
  /\ File.url e = File.url f /\ File.download_url e = File.download_url f
  /\ File.sha e = File.sha f.

(** An entry is either populated with content and free of error, or
    has no content and says why. *)
Definition populated_or_annotated (e : File.t) : Prop :=
  ((exists text, File.content e = Some text) /\ File.error e = None)
  \/ (File.content e = None /\ truthy (File.error e) = true).

Definition content_length (e : File.t) : nat :=
  match File.content e with
  | Some text => List.length text
  | None => 0
  end.

Definition total_content_length (l : list File.t) : nat :=
  list_sum (map content_length l).

(** The longest content an entry can carry: the cap and the marker. *)
Definition MAX_ENTRY_CONTENT : nat :=
  Z.to_nat MAX_FILE_CONTENT_LENGTH + List.length truncationMarker.

(** The first request of the handler and its last one. *)
Definition repoRequest (owner repo : jsstring) (headers : Headers)
  : Request :=
  {| req_url := repoUrlOf owner repo; req_headers := headers |}.

Definition contributorsRequest (owner repo : jsstring) (headers : Headers)
  : Request :=
  {| req_url := contributorsUrl owner repo; req_headers := headers |}.

(** The tiers the classifier hands out. *)
Definition tiers : list Z := [1; 2; 3; 4; 5; 6; 7; 10]%Z.

(** The license filename pattern in words: [LICENSE] or [COPYING] with
    an optional [.md], [.txt] or [.rst] suffix, case-insensitive. *)
Definition license_name (name : jsstring) : Prop :=
  exists base suffix,
    In base (map lit ["LICENSE"; "COPYING"]%string)
    /\ In suffix (map lit [""; ".md"; ".txt"; ".rst"]%string)
    /\ eq_ignoring_case name (base +++ suffix).

Definition commonSourceDirs : list jsstring :=
  map lit ["src"; "lib"; "app"; "source"; "sources"; "include"; "pkg";
           "cmd"; "internal"; "core"; "main"; "server"; "client"]%string.

Definition testDirs : list jsstring :=
  map lit ["test"; "tests"; "spec"; "e2e"]%string.

Definition docsDirs : list jsstring :=
  map lit ["doc"; "docs"; "documentation"; "examples"]%string.

(** [p] lies under one of the directories [dirs] of the root: it
    starts, up to letter case, with the name of one of them and a
    slash. *)
Definition under_directory (dirs : list jsstring) (p : jsstring) : Prop :=
  exists dir prefix rest,
    In dir dirs /\ p = prefix +++ rest
    /\ eq_ignoring_case prefix (dir +++ lit "/").

(** The entry-point hint of the classifier, on the lower-cased path. *)
Definition hasEntryPointHint (lowerPath : jsstring) : bool :=
  includes lowerPath (lit "main") || includes lowerPath (lit "app")
  || includes lowerPath (lit "index") || includes lowerPath (lit "config").

(** A string without the character [c]. *)
Definition free_of (c : codeunit) (s : jsstring) : Prop := ~ In c s.

(** Further concrete data for running the handler. *)
Module Sample.

Definition contributor (type login : string) : ContributorItem :=
  {| co_type := Some (lit type);
     co_login := Some (lit login);
     co_avatar_url := Some (lit "https://avatars.example/" ++ lit login);
     co_html_url := Some (lit "https://github.com/" ++ lit login);
     co_contributions := Some 3%Z |}.

(** A repository with two files and three contributor records, one of
    them a bot. *)
Definition withContributors : Network :=
  {| repoDetailsResponse := fun _ _ => Example.okDetails;
     treeResponse := fun _ _ =>
       Example.okTree [Example.blob "README.md" 5; Example.blob "src/a.ts" 5];
     contentsResponse := fun _ _ => Example.status 500 "unused";
     contentResponse := fun _ _ => Example.okText (lit "text");
     contributorsResponse := fun _ _ =>
       Responds 200 (lit "OK")
         (inr (Some [contributor "User" "ada";
                     contributor "Bot" "dependabot[bot]";
                     contributor "User" "grace"])) |}.

Definition withToken (url token : string) : Input.t :=
  {| Input.repoUrl := lit url; Input.githubToken := Some (lit token) |}.

(** The recursive listing of twelve source files followed by one more
    file, of path [last]. *)
Definition thirteenBlobs (last : string) : list TreeItem :=
  map (fun p => Example.blob p 10)
    (List.app
       ["a.ts"; "b.ts"; "c.ts"; "d.ts"; "e.ts"; "f.ts"; "g.ts"; "h.ts";
        "i.ts"; "j.ts"; "k.ts"; "l.ts"]%string
       [last]).

(** A repository of these thirteen files, each holding the same short
    text. *)
Definition thirteenSources (last : string) : Network :=
  Example.uniformRepository (thirteenBlobs last) (lit "text").

End Sample.

(* ================================================================== *)
(** ** The generation flow

    The flow that calls the tool, then the model, then the translator.
    The three services are outside the repository's own logic: the
    tool is called through the framework, the model and the translator
    are prompts.  Each is an oracle whose answer may depend on the
    calls made so far; every call is appended to a log.  [inl message]
    stands for a call that throws. *)

Inductive ReadmeLength := short | medium | long.

Module ReadmeObject.
Record t := mk {
  language : jsstring;
  fileName : jsstring;
  content : jsstring
}.
End ReadmeObject.

Module GenerateReadmeInput.
Record t := mk {
  repoUrl : jsstring;
  githubToken : option jsstring;
  readmeLength : option ReadmeLength;
  includeEmojis : option bool;
  targetLanguages : option (list jsstring)
}.
End GenerateReadmeInput.

Module GenerateReadmeOutput.
Record t := mk {
  readmes : list ReadmeObject.t;
  debugInfo : Output.t
}.
End GenerateReadmeOutput.

(** The input of the generation prompt. *)
Record PromptInput := {
  pi_repoUrl : jsstring;
  pi_githubTokenProvided : bool;
  pi_repoInfo : Output.t;
  pi_readmeLength : option ReadmeLength;
  pi_includeEmojis : option bool
}.

Inductive Call :=
| ToolCall (input : Input.t)
| PromptCall (input : PromptInput)
| TranslateCall (readmeContent targetLanguage : jsstring).

(** [promptResult] answers with [output.readmeContent], [None] when
    the output or that field is missing; [translateResult] answers
    with [translatedContent], [None] when it is missing.
    [inheritedProperty key] is the text of [({})[key]] for a key that
    every object inherits ([constructor], [toString], ...), and [None]
    for any other key. *)
Class Services := {
  toolResult : list Call -> Input.t -> jsstring + Output.t;
  promptResult : list Call -> PromptInput -> jsstring + option jsstring;
  translateResult :
    list Call -> jsstring -> jsstring -> jsstring + option jsstring;
  inheritedProperty : jsstring -> option jsstring
}.

Definition Flow (A : Type) : Type := list Call -> A * list Call.

Definition retF {A} (a : A) : Flow A := fun log => (a, log).

Definition bindF {A B} (c : Flow A) (f : A -> Flow B) : Flow B :=
  fun log => let (a, log') := c log in f a log'.

Notation "x <~ c ;; k" := (bindF c (fun x => k))
  (at level 61, c at next level, right associativity).

Definition call {A} (oracle : list Call -> A) (event : Call) : Flow A :=
  fun log => (oracle log, log ++ [event]).

(** How a flow ends: it returns, or it throws. *)
Inductive FlowResult :=
| Resolved (output : GenerateReadmeOutput.t)
| Rejected (message : jsstring).

Definition footer : jsstring :=
  10%N :: 10%N :: lit "---" +++ 10%N
  :: lit "Generated by [ReadMeMagic](https://github.com/slammers001/readme-ai-generator)".

Definition languageMap : list (jsstring * jsstring) :=
  [(lit "Spanish", lit "es"); (lit "French", lit "fr");
   (lit "German", lit "de"); (lit "Japanese", lit "ja");
   (lit "Chinese (Simplified)", lit "zh"); (lit "Portuguese", lit "pt");
   (lit "Russian", lit "ru"); (lit "Italian", lit "it");
   (lit "Korean", lit "ko")].

Fixpoint ownProperty (map : list (jsstring * jsstring)) (key : jsstring)
  : option jsstring :=
  match map with
  | [] => None
  | (k, v) :: rest => if JS.eqb k key then Some v else ownProperty rest key
  end.

Definition errorContent (error : jsstring) : jsstring :=
  lit "## Unable to Analyze Repository" +++ 10%N :: 10%N
  :: lit "I was unable to fetch repository details. Error: " +++ error
  +++ lit "." +++ 10%N :: 10%N
  :: lit "Please check the URL and that the repository is public (or that a valid token is provided for a private repo).".

Definition noFilesNotice : jsstring :=
  lit "No files or content could be retrieved from the repository, or no relevant files were selected for content fetching. ".

Definition generationFailure (repoInfo : Output.t) : jsstring :=
  let errorMessage := lit "README generation failed to produce content. " in
  let errorMessage :=
    match Output.repoContents repoInfo with
    | None | Some [] => errorMessage +++ noFilesNotice
    | Some (_ :: _) =>
        errorMessage
        +++ lit "The AI model might have encountered an issue, the repository data could not be processed effectively, or the response was empty. "
    end in
  errorMessage
  +++ lit "Ensure the repository URL is correct and the repository is publicly accessible (or a valid token is provided for private repos). If it is, try a different repository or check back later.".

Section Flow.

Context {rt : Runtime} {sv : Services}.

(** [languageMap[lang] || lang.substring(0, 2).toLowerCase()], as it
    appears in the file name. *)
Definition langCode (lang : jsstring) : jsstring :=
  match ownProperty languageMap lang with
  | Some code => code
  | None =>
      match inheritedProperty lang with
      | Some text => text
      | None => toLowerCase (substring0 2 lang)
      end
  end.

(** The body of the callback mapped over the target languages: the
    translated README, or [None] for [null]. *)
Definition translateOne (originalReadmeContent lang : jsstring)
  : Flow (option ReadmeObject.t) :=
  translationResult <~ call
      (fun log => translateResult log originalReadmeContent lang)
      (TranslateCall originalReadmeContent lang) ;;
  match translationResult with
  | inr (Some (c :: translated)) =>
      retF (Some {| ReadmeObject.language := lang;
                    ReadmeObject.fileName :=
                      lit "README." +++ langCode lang +++ lit ".md";
                    ReadmeObject.content := (c :: translated) +++ footer |})
  | _ => retF None
  end.

(** The mapped callbacks start in the order of the languages, and
    [Promise.all] keeps that order; the [null]s are filtered out. *)
Fixpoint translateAll (originalReadmeContent : jsstring)
    (langs : list jsstring) : Flow (list ReadmeObject.t) :=
  match langs with
  | [] => retF []
  | lang :: rest =>
      r <~ translateOne originalReadmeContent lang ;;
      rs <~ translateAll originalReadmeContent rest ;;
      retF (match r with Some readme => readme :: rs | None => rs end)
  end.

Definition generateReadmeFlow (input : GenerateReadmeInput.t)
  : Flow FlowResult :=
  let toolInput :=
    {| Input.repoUrl := GenerateReadmeInput.repoUrl input;
       Input.githubToken := GenerateReadmeInput.githubToken input |} in
  called <~ call (fun log => toolResult log toolInput) (ToolCall toolInput) ;;
  match called with
  | inl message => retF (Rejected message)
  | inr repoInfo =>
      if truthy (Output.error repoInfo) then
        let errorContent :=
          errorContent (or_else (Output.error repoInfo) []) in
        retF (Resolved
                {| GenerateReadmeOutput.readmes :=
                     [{| ReadmeObject.language := lit "Error";
                         ReadmeObject.fileName := lit "ERROR.md";
                         ReadmeObject.content := errorContent |}];
                   GenerateReadmeOutput.debugInfo := repoInfo |})
      else
        let promptInput :=
          {| pi_repoUrl := GenerateReadmeInput.repoUrl input;
             pi_githubTokenProvided :=
               truthy (GenerateReadmeInput.githubToken input);
             pi_repoInfo := repoInfo;
             pi_readmeLength := GenerateReadmeInput.readmeLength input;
             pi_includeEmojis := GenerateReadmeInput.includeEmojis input |} in
        llmResponse <~ call (fun log => promptResult log promptInput)
                         (PromptCall promptInput) ;;
        match llmResponse with
        | inl message => retF (Rejected message)
        | inr (Some (c :: text)) =>
            let originalReadmeContent := c :: text in
            let finalReadmes :=
              [{| ReadmeObject.language := lit "English";
                  ReadmeObject.fileName := lit "README.md";
                  ReadmeObject.content := originalReadmeContent +++ footer |}] in
            translatedResults <~
              match GenerateReadmeInput.targetLanguages input with
              | Some (lang :: langs) =>
                  translateAll originalReadmeContent (lang :: langs)
              | _ => retF []
              end ;;
            retF (Resolved
                    {| GenerateReadmeOutput.readmes :=
                         finalReadmes ++ translatedResults;
                       GenerateReadmeOutput.debugInfo := repoInfo |})
        | inr _ => retF (Rejected (generationFailure repoInfo))
        end
  end.

End Flow.

(** The arguments with which the flow calls the tool and the prompt. *)
Definition toolInputOf (input : GenerateReadmeInput.t) : Input.t :=
  {| Input.repoUrl := GenerateReadmeInput.repoUrl input;
     Input.githubToken := GenerateReadmeInput.githubToken input |}.

Definition promptInputOf (input : GenerateReadmeInput.t)
    (repoInfo : Output.t) : PromptInput :=
  {| pi_repoUrl := GenerateReadmeInput.repoUrl input;
     pi_githubTokenProvided := truthy (GenerateReadmeInput.githubToken input);
     pi_repoInfo := repoInfo;
     pi_readmeLength := GenerateReadmeInput.readmeLength input;
     pi_includeEmojis := GenerateReadmeInput.includeEmojis input |}.

(** The test by which the page tells an error result from generated
    READMEs. *)
Definition isErrorResult (result : GenerateReadmeOutput.t) : bool :=
  match GenerateReadmeOutput.readmes result with
  | [readme] => JS.eqb (ReadmeObject.language readme) (lit "Error")
  | _ => false
  end.

(** [small] is [large] with some elements left out. *)
Inductive subsequence {A} : list A -> list A -> Prop :=
| sub_nil : subsequence [] []
| sub_keep x small large :
    subsequence small large -> subsequence (x :: small) (x :: large)
| sub_skip x small large :
    subsequence small large -> subsequence small (x :: large).

(** The target languages of an input. *)
Definition languagesOf (input : GenerateReadmeInput.t) : list jsstring :=
  match GenerateReadmeInput.targetLanguages input with
  | Some langs => langs
  | None => []
  end.

(** Concrete services, for running the flow. *)
Module Studio.

Definition inherited (key : jsstring) : option jsstring :=
  if JS.eqb key (lit "constructor")
  then Some (lit "function Object() { [native code] }")
  else None.

(** A translator that fails for [Klingon] and otherwise answers with
    the language in brackets before the text. *)
Definition translator (content lang : jsstring) : jsstring + option jsstring :=
  if JS.eqb lang (lit "Klingon") then inl (lit "unsupported language")
  else inr (Some (lit "[" ++ lang ++ lit "] " ++ content)).

Definition services (tool : jsstring + Output.t)
    (model : jsstring + option jsstring) : Services :=
  {| toolResult := fun _ _ => tool;
     promptResult := fun _ _ => model;
     translateResult := fun _ => translator;
     inheritedProperty := inherited |}.

Definition repoInfo : Output.t :=
  {| Output.repoName := Some (lit "widget");
     Output.description := None;
     Output.mainLanguage := None;
     Output.repoContents := None;
     Output.contributors := None;
     Output.error := None;
     Output.toolInput := None |}.

Definition request (langs : list string) : GenerateReadmeInput.t :=
  {| GenerateReadmeInput.repoUrl := lit "https://github.com/acme/widget";
     GenerateReadmeInput.githubToken := None;
     GenerateReadmeInput.readmeLength := Some medium;
     GenerateReadmeInput.includeEmojis := Some false;
     GenerateReadmeInput.targetLanguages := Some (map lit langs) |}.

End Studio.

(* ================================================================== *)
(** * Properties *)

(** ** Running a computation *)

Lemma bind_run {A B} (c : M A) (f : A -> M B) (tr : Trace) :
  bind c f tr = f (fst (c tr)) (snd (c tr)).
Proof. unfold bind. destruct (c tr); reflexivity. Qed.

Lemma ret_run {A} (a : A) (tr : Trace) : ret a tr = (a, tr).
Proof. reflexivity. Qed.

Lemma fetch_run {A} (oracle : Trace -> Request -> Outcome A) url headers tr :
  fetch oracle url headers tr
  = (oracle tr {| req_url := url; req_headers := headers |},
     tr ++ [{| req_url := url; req_headers := headers |}]).
Proof. reflexivity. Qed.

(** ** The matcher computes the language of the pattern *)

Lemma m_spec ic r :
  forall s k,
    RegExp.m ic r s k = true
    <-> exists s1 s2, s = s1 ++ s2 /\ Lang ic r s1 /\ k s2 = true.
Proof.
  induction r as [ | c | a IHa b IHb | a IHa b IHb ]; intros s k; simpl.
  - split.
    + intros H. exists [], s. auto.
    + intros (s1 & s2 & -> & -> & H). exact H.
  - destruct s as [ | d s'].
    + split; [discriminate | ].
      intros (s1 & s2 & E & (d & -> & _) & _). discriminate E.
    + rewrite andb_true_iff, N.eqb_eq. split.
      * intros [E H]. exists [d], s'. split; [reflexivity | ].
        split; [exists d; auto | exact H].
      * intros (s1 & s2 & E & (d' & -> & C) & H).
        injection E as -> ->. auto.
  - rewrite IHa. split.
    + intros (s1 & s2 & -> & La & H). apply IHb in H.
      destruct H as (t1 & t2 & -> & Lb & H).
      exists (s1 ++ t1), t2. rewrite app_assoc. split; [reflexivity | ].
      split; [exists s1, t1; auto | exact H].
    + intros (s1 & s2 & -> & (u1 & u2 & -> & La & Lb) & H).
      exists u1, (u2 ++ s2). rewrite app_assoc. split; [reflexivity | ].
      split; [exact La | ]. apply IHb. exists u2, s2. auto.
  - rewrite orb_true_iff, IHa, IHb. split.
    + intros [(s1 & s2 & E & L & H) | (s1 & s2 & E & L & H)];
        exists s1, s2; auto.
    + intros (s1 & s2 & E & [L | L] & H); [left | right];
        exists s1, s2; auto.
Qed.

Lemma test_anchored re s :
  RegExp.anchoredEnd re = true ->
  (RegExp.test re s = true
   <-> Lang (RegExp.ignoreCase re) (RegExp.source re) s).
Proof.
  intros A. unfold RegExp.test. rewrite m_spec, A. split.
  - intros (s1 & s2 & -> & L & H). destruct s2; [ | discriminate H].
    rewrite app_nil_r. exact L.
  - intros L. exists s, []. rewrite app_nil_r. auto.
Qed.

Lemma Lang_str ic w :
  forall s,
    Lang ic (RegExp.str w) s
    <-> map (RegExp.canonicalize ic) s = map (RegExp.canonicalize ic) w.
Proof.
  induction w as [ | c w IH]; intros s; simpl.
  - split; [intros -> | intros H; apply map_eq_nil in H]; auto.
  - split.
    + intros (s1 & s2 & -> & (d & -> & C) & L). apply IH in L.
      simpl. rewrite L, C. reflexivity.
    + intros H. destruct s as [ | d s']; [discriminate H | ].
      simpl in H. injection H as C H.
      exists [d], s'. split; [reflexivity | ].
      split; [exists d; auto | apply IH; exact H].
Qed.

Lemma Lang_alts ic r rs :
  forall s,
    Lang ic (RegExp.alts r rs) s
    <-> Lang ic r s \/ Exists (fun r' => Lang ic r' s) rs.
Proof.
  revert r. induction rs as [ | r' rs IH]; intros r s; simpl.
  - split; [auto | intros [H | H]; [exact H | inversion H]].
  - rewrite IH. split.
    + intros [H | [H | H]]; auto.
    + intros [H | H]; [auto | ]. inversion H; subst; auto.
Qed.

(** The README pattern of the source is the pattern of the
    specification. *)
Lemma README_FILES_REGEX_spec name :
  RegExp.test README_FILES_REGEX name = true <-> readme_name name.
Proof.
  rewrite test_anchored by reflexivity.
  unfold readme_name, eq_ignoring_case. simpl RegExp.ignoreCase.
  change (RegExp.source README_FILES_REGEX)
    with (RegExp.Seq (W "README")
            (RegExp.Opt
               (RegExp.Seq (W ".")
                  (RegExp.alts (W "md") [W "rst"; W "txt"; W "markdown"])))).
  cbn [Lang RegExp.Opt]. unfold W. split.
  - intros (s1 & s2 & -> & L1 & L2). apply Lang_str in L1.
    destruct L2 as [(s3 & s4 & -> & Ldot & Lext) | ->].
    + apply Lang_str in Ldot. apply Lang_alts in Lext.
      assert (Hext : exists e, In e (map lit ["md"; "rst"; "txt"; "markdown"]%string)
                /\ map (RegExp.canonicalize true) s4
                   = map (RegExp.canonicalize true) e).
      { destruct Lext as [L | L].
        - apply Lang_str in L. eexists; split; [left; reflexivity | exact L].
        - rewrite !Exists_cons, Exists_nil in L.
          destruct L as [L | [L | [L | []]]]; apply Lang_str in L;
            eexists; (split; [ | exact L]); simpl; auto 6. }
      destruct Hext as (e & He & Ee).
      exists (lit "." +++ e). split.
      * simpl in He. simpl.
        destruct He as [<- | [<- | [<- | [<- | []]]]]; auto 6.
      * rewrite !map_app, L1, Ldot, Ee. reflexivity.
    + exists []. split; [left; reflexivity | ].
      rewrite !map_app, L1. reflexivity.
  - intros (suffix & Hin & E).
    rewrite map_app in E. apply map_eq_app in E.
    destruct E as (s1 & s2 & -> & E1 & E2).
    exists s1, s2. split; [reflexivity | ].
    split; [apply Lang_str; exact E1 | ].
    simpl in Hin.
    destruct Hin as [<- | Hin].
    { right. apply map_eq_nil in E2. exact E2. }
    left.
    assert (Hsplit : exists e,
               In e (map lit ["md"; "rst"; "txt"; "markdown"]%string)
               /\ map (RegExp.canonicalize true) s2
                  = map (RegExp.canonicalize true) (lit "." +++ e)).
    { destruct Hin as [<- | [<- | [<- | [<- | []]]]];
        eexists; (split; [ | exact E2]); simpl; auto. }
    destruct Hsplit as (e & He & E).
    rewrite map_app in E. apply map_eq_app in E.
    destruct E as (s3 & s4 & -> & E3 & E4).
    exists s3, s4. split; [reflexivity | ].
    split; [apply Lang_str; exact E3 | ].
    apply Lang_alts. simpl in He.
    destruct He as [<- | [<- | [<- | [<- | []]]]].
    + left. apply Lang_str. exact E4.
    + right. apply Exists_cons_hd. apply Lang_str. exact E4.
    + right. apply Exists_cons_tl, Exists_cons_hd. apply Lang_str. exact E4.
    + right. apply Exists_cons_tl, Exists_cons_tl, Exists_cons_hd.
      apply Lang_str. exact E4.
Qed.

(** ** The sort: a stable, ascending permutation *)

Section Sorting.

Variables (A : Type) (key : A -> Z).

Lemma insert_by_perm x l : Permutation (insert_by key x l) (x :: l).
Proof.
  induction l as [ | y l IH]; simpl; [reflexivity | ].
  destruct (key x <=? key y)%Z; [reflexivity | ].
  rewrite IH. apply perm_swap.
Qed.

Lemma sort_by_perm l : Permutation (sort_by key l) l.
Proof.
  induction l as [ | x l IH]; simpl; [reflexivity | ].
  rewrite insert_by_perm. apply perm_skip, IH.
Qed.

Lemma insert_by_sorted x l :
  tier_sorted key l -> tier_sorted key (insert_by key x l).
Proof.
  unfold tier_sorted. induction 1 as [ | y l Hs IH Hy]; simpl.
  - repeat constructor.
  - destruct (key x <=? key y)%Z eqn:E.
    + apply Z.leb_le in E. constructor.
      * constructor; assumption.
      * constructor; [exact E | ].
        eapply Forall_impl; [ | exact Hy]. simpl. intros; lia.
    + apply Z.leb_gt in E. constructor; [exact IH | ].
      eapply Permutation_Forall.
      * symmetry. apply insert_by_perm.
      * constructor; [lia | exact Hy].
Qed.

Lemma sort_by_sorted l : tier_sorted key (sort_by key l).
Proof.
  induction l as [ | x l IH]; simpl.
  - constructor.
  - apply insert_by_sorted, IH.
Qed.

Lemma of_tier_insert_by k x l :
  of_tier key k (insert_by key x l) = of_tier key k (x :: l).
Proof.
  unfold of_tier. induction l as [ | y l IH]; [reflexivity | ].
  simpl insert_by. destruct (key x <=? key y)%Z eqn:E; [reflexivity | ].
  apply Z.leb_gt in E. simpl in *. rewrite IH.
  destruct (key x =? k)%Z eqn:Ex; [ | reflexivity].
  apply Z.eqb_eq in Ex.
  destruct (key y =? k)%Z eqn:Ey; [ | reflexivity].
  apply Z.eqb_eq in Ey. lia.
Qed.

(** Stability: the entries of any one tier come out in the order in
    which they went in. *)
Lemma sort_by_stable k l : of_tier key k (sort_by key l) = of_tier key k l.
Proof.
  induction l as [ | x l IH]; [reflexivity | ].
  simpl sort_by. rewrite of_tier_insert_by.
  unfold of_tier in *. simpl. rewrite IH. reflexivity.
Qed.

Lemma filter_split (p : A -> bool) a :
  forall l u v,
    filter p l = u ++ a :: v ->
    exists l1 l2, l = l1 ++ a :: l2 /\ filter p l1 = u /\ filter p l2 = v.
Proof.
  induction l as [ | x l IH]; intros u v H; simpl in H.
  - destruct u; discriminate H.
  - destruct (p x) eqn:Px.
    + destruct u as [ | y u]; simpl in H.
      * injection H as -> H. exists [], l. auto.
      * injection H as <- H.
        destruct (IH _ _ H) as (l1 & l2 & -> & <- & <-).
        exists (x :: l1), l2. simpl. rewrite Px. auto.
    + destruct (IH _ _ H) as (l1 & l2 & -> & <- & <-).
      exists (x :: l1), l2. simpl. rewrite Px. auto.
Qed.

(** The same, for two occurrences: the earlier of two entries of a
    tier stays the earlier one, occurrence by occurrence. *)
Lemma sort_by_keeps_order l1 a l2 b l3 :
  key a = key b ->
  exists m1 m2 m3,
    sort_by key (l1 ++ a :: l2 ++ b :: l3) = m1 ++ a :: m2 ++ b :: m3
    /\ of_tier key (key a) m1 = of_tier key (key a) l1
    /\ of_tier key (key a) m2 = of_tier key (key a) l2
    /\ of_tier key (key a) m3 = of_tier key (key a) l3.
Proof.
  intros E.
  pose proof (sort_by_stable (key a) (l1 ++ a :: l2 ++ b :: l3)) as S.
  unfold of_tier in *.
  rewrite (filter_app _ l1) in S. cbn [filter] in S.
  rewrite Z.eqb_refl, (filter_app _ l2) in S. cbn [filter] in S.
  rewrite <- E, Z.eqb_refl in S.
  apply filter_split in S. destruct S as (m1 & r & S & F1 & F2).
  apply filter_split in F2. destruct F2 as (m2 & m3 & -> & F2 & F3).
  exists m1, m2, m3. auto.
Qed.

End Sorting.

(** ** The content fetcher *)

Section ContentFetcher.

Context {rt : Runtime} {net : Network}.

Variables (file : File.t) (owner repo defaultBranch : jsstring)
  (headers : Headers).

Let resolved := resolveDownloadUrl file owner repo defaultBranch.
Let run := fetchFileContent file owner repo defaultBranch headers.

Lemma fetchFileContent_no_url tr :
  truthy resolved = false ->
  run tr
  = (Fetched.mk None (Some (noUrlError (File.path file))), tr).
Proof.
  unfold run, resolved, fetchFileContent.
  destruct (resolveDownloadUrl file owner repo defaultBranch)
    as [[ | c u] | ]; cbn [truthy nonempty]; intros H;
    (discriminate H || reflexivity).
Qed.

Lemma fetchFileContent_requests tr :
  truthy resolved = true ->
  exists url,
    resolved = Some url
    /\ snd (run tr) = tr ++ [{| req_url := url; req_headers := headers |}].
Proof.
  unfold run, resolved, fetchFileContent.
  destruct (resolveDownloadUrl file owner repo defaultBranch)
    as [[ | c u] | ]; cbn [truthy nonempty]; intros H; try discriminate H.
  exists (c :: u). split; [reflexivity | ].
  rewrite bind_run, fetch_run. cbn [fst snd].
  destruct (contentResponse _ _) as [message | status statusText body].
  - reflexivity.
  - destruct (ok status); [destruct body | destruct (status =? 404)%Z];
      try reflexivity.
    destruct (_ >? _)%Z; reflexivity.
Qed.

(** The fetcher answers with content or with an error, never both,
    and its errors are non-empty strings. *)
Lemma fetchFileContent_shape tr :
  let r := fst (run tr) in
  (Fetched.content r = None /\ truthy (Fetched.error r) = true)
  \/ (Fetched.error r = None /\ exists text, Fetched.content r = Some text).
Proof.
  unfold run, fetchFileContent.
  destruct (resolveDownloadUrl file owner repo defaultBranch)
    as [[ | c u] | ]; try (left; split; reflexivity).
  rewrite bind_run, fetch_run. cbn [fst snd].
  destruct (contentResponse _ _) as [message | status statusText body].
  - left; split; reflexivity.
  - destruct (ok status);
      [destruct body as [message | text] | destruct (status =? 404)%Z];
      try (left; split; reflexivity).
    destruct (_ >? _)%Z; right; (split; [reflexivity | eexists; reflexivity]).
Qed.

(** What the fetcher does with a successful response. *)
Lemma fetchFileContent_ok tr url status statusText text :
  resolved = Some url -> nonempty url = true ->
  contentResponse tr {| req_url := url; req_headers := headers |}
  = Responds status statusText (inr text) ->
  ok status = true ->
  run tr
  = (Fetched.mk
       (Some (if (Z.of_nat (List.length text) >? MAX_FILE_CONTENT_LENGTH)%Z
              then substring0 (Z.to_nat MAX_FILE_CONTENT_LENGTH) text
                   +++ truncationMarker
              else text))
       None,
     tr ++ [{| req_url := url; req_headers := headers |}]).
Proof.
  unfold run, resolved, fetchFileContent. intros -> Hne Hresp Hok.
  destruct url as [ | c u]; [discriminate Hne | ].
  rewrite bind_run, fetch_run. cbn [fst snd]. rewrite Hresp, Hok.
  destruct (_ >? _)%Z; reflexivity.
Qed.

End ContentFetcher.

(** ** The selection loop *)

Section Selection.

Context {rt : Runtime} {net : Network}.

Variables (owner repo defaultBranch : jsstring) (headers : Headers).

Let step := iteration owner repo defaultBranch headers.
Let run := loop owner repo defaultBranch headers.
Let get (file : File.t) := fetchFileContent file owner repo defaultBranch headers.

Lemma count_if_push {A} (p : A -> bool) l x :
  count_if p (l ++ [x]) = count_if p l + (if p x then 1 else 0).
Proof.
  unfold count_if. rewrite filter_app, length_app. simpl.
  destruct (p x); reflexivity.
Qed.

Lemma iteration_over_budget file st tr :
  (fetchedContentCount st <? MAX_FILES_FOR_CONTENT_FETCH) = false ->
  step file st tr
  = (if keptAfterLimit file then push (minimalFile file) st else st, tr).
Proof.
  intros H. unfold step, iteration. rewrite H.
  destruct (keptAfterLimit file); reflexivity.
Qed.

Lemma iteration_too_large file st tr :
  (fetchedContentCount st <? MAX_FILES_FOR_CONTENT_FETCH) = true ->
  isLarge (File.size file) = true ->
  isPriorityFile (File.name file) = false ->
  step file st tr
  = (push (File.set_error (Some (tooLargeError (File.size file)))
             (File.set_content None file)) st, tr).
Proof.
  intros H L P. unfold step, iteration. rewrite H, L, P. reflexivity.
Qed.

(** The entry recorded for a fetch attempt. *)
Lemma iteration_fetch file st tr :
  (fetchedContentCount st <? MAX_FILES_FOR_CONTENT_FETCH) = true ->
  isLarge (File.size file) && negb (isPriorityFile (File.name file)) = false ->
  exists entry,
    File.content entry = Fetched.content (fst (get file tr))
    /\ File.error entry
       = (if truthy (Fetched.error (fst (get file tr)))
          then Fetched.error (fst (get file tr)) else File.error file)
    /\ step file st tr
       = (if truthy (Fetched.content (fst (get file tr)))
             && negb (truthy (Fetched.error (fst (get file tr))))
          then increment (push entry st) else push entry st,
          snd (get file tr)).
Proof.
  intros H L. unfold step, iteration. rewrite H, L, bind_run.
  fold (get file). destruct (get file tr) as [r tr']. cbn [fst snd].
  eexists. split; [ | split].
  3: { destruct (truthy (Fetched.content r) && negb (truthy (Fetched.error r)));
       reflexivity. }
  - destruct (truthy (Fetched.error r)); reflexivity.
  - destruct (truthy (Fetched.error r)); reflexivity.
Qed.

Lemma iteration_invariant file st tr :
  budget_invariant st -> budget_invariant (fst (step file st tr)).
Proof.
  intros [Hc Hb]. unfold budget_invariant.
  destruct (fetchedContentCount st <? MAX_FILES_FOR_CONTENT_FETCH) eqn:B.
  - apply Nat.ltb_lt in B.
    destruct (isLarge (File.size file)
              && negb (isPriorityFile (File.name file))) eqn:L.
    + apply andb_true_iff in L. destruct L as [L P].
      apply negb_true_iff in P.
      rewrite iteration_too_large by (auto; apply Nat.ltb_lt; exact B).
      cbn [fst push repoContents fetchedContentCount].
      rewrite count_if_push. cbn. lia.
    + destruct (@iteration_fetch file st tr) as (entry & Ec & Ee & ->);
        [apply Nat.ltb_lt; exact B | exact L | ].
      pose proof (fetchFileContent_shape file owner repo defaultBranch
                    headers tr) as S.
      fold (get file) in S. cbn zeta in S.
      assert (T : carriesText entry = truthy (Fetched.content (fst (get file tr)))).
      { unfold carriesText. rewrite Ec. reflexivity. }
      destruct S as [[S1 S2] | [S1 (text & S2)]].
      * rewrite S1, S2 in *. cbn [truthy andb negb fst].
        cbn [push repoContents fetchedContentCount].
        rewrite count_if_push, T. cbn [truthy]. lia.
      * rewrite S1, S2 in *. cbn [truthy negb]. rewrite andb_true_r.
        destruct (nonempty text) eqn:N;
          cbn [fst increment push repoContents fetchedContentCount];
          rewrite count_if_push, T; cbn [truthy]; rewrite N; lia.
  - rewrite iteration_over_budget by exact B.
    apply Nat.ltb_ge in B.
    destruct (keptAfterLimit file);
      cbn [fst push repoContents fetchedContentCount]; [ | lia].
    rewrite count_if_push. cbn. lia.
Qed.

Lemma loop_cons file files st tr :
  run (file :: files) st tr
  = run files (fst (step file st tr)) (snd (step file st tr)).
Proof. unfold run, step. simpl. apply bind_run. Qed.

Lemma loop_app pre post :
  forall st tr,
    run (pre ++ post) st tr
    = run post (fst (run pre st tr)) (snd (run pre st tr)).
Proof.
  induction pre as [ | file pre IH]; intros st tr.
  - reflexivity.
  - simpl app. rewrite !loop_cons. apply IH.
Qed.

Lemma loop_invariant files :
  forall st tr, budget_invariant st -> budget_invariant (fst (run files st tr)).
Proof.
  induction files as [ | file files IH]; intros st tr H.
  - exact H.
  - rewrite loop_cons. apply IH, iteration_invariant, H.
Qed.

(** Once the budget is used up the loop only appends the minimal
    entries of the files it keeps, and makes no request. *)
Lemma loop_over_budget files :
  forall st tr,
    (fetchedContentCount st <? MAX_FILES_FOR_CONTENT_FETCH) = false ->
    run files st tr
    = ({| repoContents :=
            repoContents st ++ map minimalFile (filter keptAfterLimit files);
          fetchedContentCount := fetchedContentCount st |}, tr).
Proof.
  induction files as [ | file files IH]; intros st tr H.
  - simpl. rewrite app_nil_r. destruct st; reflexivity.
  - rewrite loop_cons, iteration_over_budget by exact H. cbn [fst snd filter].
    destruct (keptAfterLimit file).
    + rewrite IH by exact H. cbn [push repoContents fetchedContentCount map].
      rewrite <- app_assoc. reflexivity.
    + apply IH, H.
Qed.

Lemma iteration_extends file st tr :
  exists added, repoContents (fst (step file st tr)) = repoContents st ++ added.
Proof.
  destruct (fetchedContentCount st <? MAX_FILES_FOR_CONTENT_FETCH) eqn:B.
  - destruct (isLarge (File.size file)
              && negb (isPriorityFile (File.name file))) eqn:L.
    + apply andb_true_iff in L. destruct L as [L P].
      apply negb_true_iff in P.
      rewrite iteration_too_large by assumption. eexists; reflexivity.
    + destruct (@iteration_fetch file st tr B L) as (entry & _ & _ & ->).
      exists [entry].
      destruct (truthy (Fetched.content (fst (get file tr)))
                && negb (truthy (Fetched.error (fst (get file tr)))));
        reflexivity.
  - rewrite iteration_over_budget by exact B.
    destruct (keptAfterLimit file).
    + eexists; reflexivity.
    + exists []. symmetry. apply app_nil_r.
Qed.

Lemma loop_extends files :
  forall st tr,
    exists added, repoContents (fst (run files st tr)) = repoContents st ++ added.
Proof.
  induction files as [ | file files IH]; intros st tr.
  - exists []. symmetry. apply app_nil_r.
  - rewrite loop_cons.
    destruct (iteration_extends file st tr) as (a1 & E1).
    destruct (IH (fst (step file st tr)) (snd (step file st tr))) as (a2 & E2).
    exists (a1 ++ a2). rewrite E2, E1, app_assoc. reflexivity.
Qed.

End Selection.

(** ** Claims about the classifier and the sort *)

(** C5.  A file whose name is [README] with an optional [.md], [.rst],
    [.txt] or [.markdown] suffix, in any letter case, is classified in
    tier 1 whatever its path (and whatever its other fields) may be. *)
Theorem readme_name_is_tier_1 {rt : Runtime} (file : File.t) :
  readme_name (File.name file) -> getFilePriority file = 1%Z.
Proof.
  intros H. apply README_FILES_REGEX_spec in H.
  unfold getFilePriority. rewrite H. reflexivity.
Qed.

Lemma readme_name_is_tier_1_witness :
  readme_name (lit "ReadMe.MarkDown")
  /\ getFilePriority (rt := Example.runtime)
       (Example.file "ReadMe.MarkDown" "docs/tests/ReadMe.MarkDown"
          None None None) = 1%Z.
Proof.
  assert (H : readme_name (lit "ReadMe.MarkDown")).
  { exists (lit ".markdown"). split; [simpl; auto 6 | reflexivity]. }
  split; [exact H | ].
  apply (@readme_name_is_tier_1 Example.runtime
           (Example.file "ReadMe.MarkDown" "docs/tests/ReadMe.MarkDown"
              None None None)).
  exact H.
Defined.

(** C8.  The tier sort of the selection engine is stable: when two
    file entries [a] and [b] of the same tier occur in this order in
    the tree listing, [a] still comes before [b] in the sorted list,
    and they are the corresponding occurrences, the entries of that
    tier before, between and after them being the same as in the
    listing. *)
Theorem filesOnly_keeps_listing_order {rt : Runtime}
    (l1 l2 l3 : list File.t) (a b : File.t) :
  isFile a = true -> isFile b = true ->
  getFilePriority a = getFilePriority b ->
  exists m1 m2 m3,
    filesOnly (l1 ++ a :: l2 ++ b :: l3) = m1 ++ a :: m2 ++ b :: m3
    /\ of_tier getFilePriority (getFilePriority a) m1
       = of_tier getFilePriority (getFilePriority a) (filter isFile l1)
    /\ of_tier getFilePriority (getFilePriority a) m2
       = of_tier getFilePriority (getFilePriority a) (filter isFile l2)
    /\ of_tier getFilePriority (getFilePriority a) m3
       = of_tier getFilePriority (getFilePriority a) (filter isFile l3).
Proof.
  intros Fa Fb E. unfold filesOnly. fold isFile.
  rewrite (filter_app isFile l1). cbn [filter]. rewrite Fa.
  rewrite (filter_app isFile l2). cbn [filter]. rewrite Fb.
  apply sort_by_keeps_order, E.
Qed.

Lemma filesOnly_keeps_listing_order_witness :
  exists m1 m2 m3,
    filesOnly (rt := Example.runtime)
      ([Example.file "z.ts" "z.ts" None None None]
       ++ Example.file "b.ts" "lib/b.ts" None None None
       :: [Example.file "README.md" "README.md" None None None]
       ++ Example.file "a.ts" "src/a.ts" None None None
       :: [])
    = m1 ++ Example.file "b.ts" "lib/b.ts" None None None
      :: m2 ++ Example.file "a.ts" "src/a.ts" None None None :: m3.
Proof.
  destruct (@filesOnly_keeps_listing_order Example.runtime
              [Example.file "z.ts" "z.ts" None None None]
              [Example.file "README.md" "README.md" None None None]
              []
              (Example.file "b.ts" "lib/b.ts" None None None)
              (Example.file "a.ts" "src/a.ts" None None None)
              eq_refl eq_refl eq_refl)
    as (m1 & m2 & m3 & E & _).
  exists m1, m2, m3. exact E.
Defined.

(** ** Claims about the content fetcher *)

(** C2.  When the download succeeds, the fetcher never sets [error].
    A text longer than the cap of 20000 characters comes back as its
    first 20000 characters followed by the truncation marker, so that
    the length of the content is the cap plus the length of the marker;
    a text within the cap comes back unchanged. *)
Theorem fetchFileContent_truncates {rt : Runtime} {net : Network}
    (file : File.t) (owner repo defaultBranch : jsstring)
    (headers : Headers) (tr : Trace) (url : jsstring)
    (status : Z) (statusText text : jsstring) :
  resolveDownloadUrl file owner repo defaultBranch = Some url ->
  nonempty url = true ->
  contentResponse tr {| req_url := url; req_headers := headers |}
  = Responds status statusText (inr text) ->
  ok status = true ->
  let result :=
    fst (fetchFileContent file owner repo defaultBranch headers tr) in
  Fetched.error result = None
  /\ ((Z.of_nat (List.length text) > MAX_FILE_CONTENT_LENGTH)%Z ->
      exists content,
        Fetched.content result = Some content
        /\ content
           = substring0 (Z.to_nat MAX_FILE_CONTENT_LENGTH) text
             +++ truncationMarker
        /\ Z.of_nat (List.length content)
           = (MAX_FILE_CONTENT_LENGTH
              + Z.of_nat (List.length truncationMarker))%Z)
  /\ ((Z.of_nat (List.length text) <= MAX_FILE_CONTENT_LENGTH)%Z ->
      Fetched.content result = Some text).
Proof.
  intros Hurl Hne Hresp Hok result. subst result.
  rewrite (fetchFileContent_ok file owner repo defaultBranch headers tr
             Hurl Hne Hresp Hok).
  cbn [fst Fetched.error Fetched.content].
  split; [reflexivity | split].
  - intros Hlong.
    destruct (Z.gtb_spec (Z.of_nat (List.length text))
                MAX_FILE_CONTENT_LENGTH); [ | lia].
    eexists. split; [reflexivity | split; [reflexivity | ]].
    unfold substring0. rewrite length_app, firstn_length_le.
    + rewrite Nat2Z.inj_add, Z2Nat.id; [reflexivity | ].
      unfold MAX_FILE_CONTENT_LENGTH. lia.
    + apply Nat2Z.inj_le. rewrite Z2Nat.id; [lia | ].
      unfold MAX_FILE_CONTENT_LENGTH. lia.
  - intros Hshort.
    destruct (Z.gtb_spec (Z.of_nat (List.length text))
                MAX_FILE_CONTENT_LENGTH); [lia | reflexivity].
Qed.

Lemma fetchFileContent_truncates_witness :
  let net :=
    Example.network (Example.status 500 "unused") (Example.status 500 "unused")
      (Example.status 500 "unused")
      (fun _ => Example.okText (repeat 120%N (Z.to_nat 20001))) in
  let result :=
    fst (@fetchFileContent Example.runtime net
           (Example.file "big.ts" "src/big.ts" (Some 20001%Z)
              (Some (lit "https://raw.example/src/big.ts")) None)
           (lit "acme") (lit "widget") (lit "main") [] []) in
  Fetched.error result = None
  /\ exists content,
       Fetched.content result = Some content
       /\ Z.of_nat (List.length content)
          = (MAX_FILE_CONTENT_LENGTH
             + Z.of_nat (List.length truncationMarker))%Z.
Proof.
  intros net result.
  destruct (@fetchFileContent_truncates Example.runtime net
              (Example.file "big.ts" "src/big.ts" (Some 20001%Z)
                 (Some (lit "https://raw.example/src/big.ts")) None)
              (lit "acme") (lit "widget") (lit "main") [] []
              (lit "https://raw.example/src/big.ts")
              200%Z (lit "OK") (repeat 120%N (Z.to_nat 20001))
              eq_refl eq_refl eq_refl eq_refl)
    as (Herr & Hlong & _).
  split; [exact Herr | ].
  destruct Hlong as (content & Hc & _ & Hlen).
  - rewrite repeat_length. vm_compute. reflexivity.
  - exists content. split; [exact Hc | exact Hlen].
Defined.

Lemma fetchFileContent_error_is_not_no_url {rt : Runtime} {net : Network}
    (file : File.t) (owner repo defaultBranch : jsstring)
    (headers : Headers) (tr : Trace) :
  truthy (resolveDownloadUrl file owner repo defaultBranch) = true ->
  Fetched.error (fst (fetchFileContent file owner repo defaultBranch
                        headers tr))
  <> Some (noUrlError (File.path file)).
Proof.
  unfold fetchFileContent.
  destruct (resolveDownloadUrl file owner repo defaultBranch)
    as [[ | c u] | ]; cbn [truthy nonempty]; intros H; try discriminate H.
  rewrite bind_run, fetch_run. cbn [fst snd].
  assert (D : forall rest : jsstring,
             Some (69%N :: rest) <> Some (noUrlError (File.path file))).
  { intros rest E. discriminate E. }
  assert (D' : forall rest : jsstring,
             Some (70%N :: rest) <> Some (noUrlError (File.path file))).
  { intros rest E. discriminate E. }
  destruct (contentResponse _ _) as [message | status statusText body].
  - apply D.
  - destruct (ok status);
      [destruct body as [message | text] | destruct (status =? 404)%Z].
    + apply D.
    + destruct (_ >? _)%Z; discriminate.
    + apply D'.
    + apply D'.
Qed.

(** C3, as stated, fails: an entry with a path but with neither a
    download URL nor a [sha] gets no URL built for it; the fetcher
    answers with the no-URL error and makes no request. *)
Lemma no_url_is_built_without_sha :
  let net :=
    Example.network (Example.status 500 "unused") (Example.status 500 "unused")
      (Example.status 500 "unused") (fun _ => Example.okText (lit "text")) in
  let file := Example.file "a.ts" "src/a.ts" (Some 10%Z) None None in
  nonempty (File.path file) = true
  /\ truthy (File.download_url file) = false
  /\ resolveDownloadUrl (rt := Example.runtime) file
       (lit "acme") (lit "widget") (lit "main")
     <> Some (rawUrl (rt := Example.runtime)
                (lit "acme") (lit "widget") (lit "main") (File.path file))
  /\ @fetchFileContent Example.runtime net file
       (lit "acme") (lit "widget") (lit "main") [] []
     = (Fetched.mk None (Some (noUrlError (lit "src/a.ts"))), []).
Proof.
  intros net file. repeat split; try reflexivity. discriminate.
Qed.

(** C3, amended.  An entry's own download URL is used when it has one.
    When it has none, a URL is built from owner, repository, branch and
    path provided the entry has a [sha] and a path.  No URL is resolved
    exactly when the entry has no download URL and lacks a [sha] or a
    path; then the fetcher answers with the no-URL error and makes no
    request.  Whenever a URL is resolved the fetcher makes exactly one
    request, to that URL, and its answer is not the no-URL error. *)
Theorem fetchFileContent_url_resolution {rt : Runtime} {net : Network}
    (file : File.t) (owner repo defaultBranch : jsstring)
    (headers : Headers) (tr : Trace) :
  let resolved := resolveDownloadUrl file owner repo defaultBranch in
  let result := fetchFileContent file owner repo defaultBranch headers tr in
  (truthy (File.download_url file) = true ->
   resolved = File.download_url file)
  /\ (truthy (File.download_url file) = false ->
      truthy (File.sha file) = true -> nonempty (File.path file) = true ->
      resolved = Some (rawUrl owner repo defaultBranch (File.path file)))
  /\ (truthy resolved = false
      <-> truthy (File.download_url file) = false
          /\ (truthy (File.sha file) = false
              \/ nonempty (File.path file) = false))
  /\ (truthy resolved = false ->
      result = (Fetched.mk None (Some (noUrlError (File.path file))), tr))
  /\ (truthy resolved = true ->
      Fetched.error (fst result) <> Some (noUrlError (File.path file))
      /\ exists url,
           resolved = Some url
           /\ snd result
              = tr ++ [{| req_url := url; req_headers := headers |}]).
Proof.
  intros resolved result. subst resolved result.
  split; [ | split; [ | split; [ | split]]].
  - intros H. unfold resolveDownloadUrl. rewrite H. reflexivity.
  - intros H S P. unfold resolveDownloadUrl. rewrite H, S, P. reflexivity.
  - unfold resolveDownloadUrl.
    destruct (truthy (File.download_url file)) eqn:D;
      destruct (truthy (File.sha file)) eqn:S;
      destruct (nonempty (File.path file)) eqn:P;
      cbn [negb andb]; rewrite ?D;
      (split; [intros H; try discriminate H; auto
              | intros [H1 [H2 | H2]]; try discriminate; auto]).
  - apply fetchFileContent_no_url.
  - intros H. split.
    + apply fetchFileContent_error_is_not_no_url, H.
    + apply fetchFileContent_requests, H.
Qed.

Lemma fetchFileContent_url_resolution_witness :
  let net :=
    Example.network (Example.status 500 "unused") (Example.status 500 "unused")
      (Example.status 500 "unused") (fun _ => Example.okText (lit "text")) in
  let file :=
    Example.file "a b.ts" "src/a b.ts" (Some 10%Z) None (Some (lit "0a1b2c")) in
  resolveDownloadUrl (rt := Example.runtime) file
    (lit "acme") (lit "widget") (lit "main")
  = Some (lit "https://raw.githubusercontent.com/acme/widget/main/src%2Fa%20b.ts")
  /\ snd (@fetchFileContent Example.runtime net file
            (lit "acme") (lit "widget") (lit "main") [] [])
     = [{| req_url :=
             lit "https://raw.githubusercontent.com/acme/widget/main/src%2Fa%20b.ts";
           req_headers := [] |}].
Proof.
  intros net file.
  destruct (@fetchFileContent_url_resolution Example.runtime net file
              (lit "acme") (lit "widget") (lit "main") [] [])
    as (_ & Hbuild & _ & _ & Hreq).
  split.
  - exact (Hbuild eq_refl eq_refl eq_refl).
  - destruct (Hreq eq_refl) as (_ & url & Hurl & Htrace).
    rewrite Htrace. vm_compute in Hurl. injection Hurl as <-. reflexivity.
Defined.

(** ** Parsing the repository URL *)

Lemma split_filter_nonempty sep s :
  Forall (fun p => nonempty p = true) (filter nonempty (split sep s)).
Proof.
  apply Forall_forall. intros p H. apply filter_In in H. apply H.
Qed.

(** What a successful parse returns: the first two non-empty segments
    of the path, the second without one trailing [.git]. *)
Lemma parseRepoUrl_ok {rt : Runtime} (repoUrl owner repo : jsstring) :
  parseRepoUrl repoUrl = inr (owner, repo) ->
  exists pathname segment rest,
    URL_pathname repoUrl = inr pathname
    /\ filter nonempty (split (ch "/") pathname) = owner :: segment :: rest
    /\ nonempty owner = true /\ nonempty segment = true
    /\ repo = replace_dot_git segment.
Proof.
  unfold parseRepoUrl.
  destruct (URL_pathname repoUrl) as [message | pathname]; [discriminate | ].
  pose proof (split_filter_nonempty (ch "/") pathname) as F.
  destruct (filter nonempty (split (ch "/") pathname))
    as [ | o [ | seg rest]] eqn:E; cbn; try discriminate.
  intros H. injection H as <- <-.
  inversion F as [ | ? ? Ho F']; subst. inversion F' as [ | ? ? Hs _]; subst.
  exists pathname, seg, rest.
  split; [reflexivity | split; [exact E | auto]].
Qed.

(** A path with fewer than two non-empty segments is refused. *)
Lemma parseRepoUrl_too_short {rt : Runtime} (repoUrl pathname : jsstring) :
  URL_pathname repoUrl = inr pathname ->
  List.length (filter nonempty (split (ch "/") pathname)) < 2 ->
  parseRepoUrl repoUrl
  = inl (lit "Invalid GitHub repository URL format. Could not extract owner/repo.").
Proof.
  intros E H. unfold parseRepoUrl. rewrite E.
  apply Nat.ltb_lt in H. rewrite H. reflexivity.
Qed.

(** C4: the code at the failing input.  When the second segment of the
    path is exactly [.git], parsing succeeds and the repository name it
    returns is the empty string. *)
Theorem parseRepoUrl_dot_git_gives_empty_repo {rt : Runtime}
    (repoUrl : jsstring) :
  URL_pathname repoUrl = inr (lit "/acme/.git") ->
  parseRepoUrl repoUrl = inr (lit "acme", []).
Proof.
  intros E. unfold parseRepoUrl. rewrite E. reflexivity.
Qed.

Lemma parseRepoUrl_dot_git_gives_empty_repo_witness :
  parseRepoUrl (rt := Example.runtime) (lit "https://github.com/acme/.git")
  = inr (lit "acme", []).
Proof.
  apply (@parseRepoUrl_dot_git_gives_empty_repo Example.runtime
           (lit "https://github.com/acme/.git")).
  reflexivity.
Defined.

(** ** Claims about the selection engine *)

Lemma count_if_perm {A} (p : A -> bool) l l' :
  Permutation l l' -> count_if p l = count_if p l'.
Proof.
  unfold count_if. induction 1 as [ | x l l' _ IH | x y l | l l' l'' _ IH1 _ IH2];
    simpl.
  - reflexivity.
  - destruct (p x); simpl; congruence.
  - destruct (p x), (p y); reflexivity.
  - congruence.
Qed.

Lemma In_sort_by {A} (key : A -> Z) x l : In x (sort_by key l) <-> In x l.
Proof.
  split; apply Permutation_in; [ | symmetry]; apply sort_by_perm.
Qed.

Lemma In_filesOnly {rt : Runtime} f all :
  In f (filesOnly all) -> In f all /\ isFile f = true.
Proof.
  unfold filesOnly. rewrite In_sort_by, filter_In. auto.
Qed.

Section SelectionClaims.

Context {rt : Runtime} {net : Network}.

Variables (owner repo defaultBranch : jsstring) (headers : Headers).

Local Abbreviation step := (iteration owner repo defaultBranch headers).
Local Abbreviation run := (loop owner repo defaultBranch headers).
Local Abbreviation get file :=
  (fetchFileContent file owner repo defaultBranch headers).
Local Abbreviation select := (selectContents owner repo defaultBranch headers).

Lemma selectContents_run all tr :
  select all tr
  = (sort_by getFilePriority
       (repoContents (fst (run (filesOnly all) initialState tr))),
     snd (run (filesOnly all) initialState tr)).
Proof.
  unfold selectContents. rewrite bind_run. reflexivity.
Qed.

Lemma initialState_invariant : budget_invariant initialState.
Proof. split; [reflexivity | ]. cbn. unfold MAX_FILES_FOR_CONTENT_FETCH. lia. Qed.

(** An entry recorded by an iteration is in the final list. *)
Lemma recorded_entry_is_listed all pre file post tr entry :
  filesOnly all = pre ++ file :: post ->
  In entry
    (repoContents
       (fst (step file (fst (run pre initialState tr))
               (snd (run pre initialState tr))))) ->
  In entry (fst (select all tr)).
Proof.
  intros Hsplit Hin. rewrite selectContents_run. cbn [fst].
  apply In_sort_by. rewrite Hsplit, loop_app, loop_cons.
  destruct (loop_extends owner repo defaultBranch headers post
              (fst (step file (fst (run pre initialState tr))
                      (snd (run pre initialState tr))))
              (snd (step file (fst (run pre initialState tr))
                      (snd (run pre initialState tr)))))
    as (added & E).
  rewrite E. apply in_or_app. left. exact Hin.
Qed.

(** The selected contents hold at most [MAX_FILES_FOR_CONTENT_FETCH]
    entries with non-empty content. *)
Lemma selectContents_within_budget all tr :
  count_if carriesText (fst (select all tr)) <= MAX_FILES_FOR_CONTENT_FETCH.
Proof.
  rewrite selectContents_run. cbn [fst].
  rewrite (count_if_perm carriesText (sort_by_perm getFilePriority _)).
  destruct (loop_invariant owner repo defaultBranch headers
              (filesOnly all) tr initialState_invariant)
    as [Hc Hb].
  rewrite Hc. exact Hb.
Qed.

(** The counter moves only by one, only within the budget, and only
    for a fetch that returned non-empty content and no error. *)
Lemma iteration_counts_successes file st tr :
  let st' := fst (step file st tr) in
  fetchedContentCount st' = fetchedContentCount st
  \/ (fetchedContentCount st' = S (fetchedContentCount st)
      /\ fetchedContentCount st < MAX_FILES_FOR_CONTENT_FETCH
      /\ isLarge (File.size file)
         && negb (isPriorityFile (File.name file)) = false
      /\ truthy (Fetched.content (fst (get file tr))) = true
      /\ Fetched.error (fst (get file tr)) = None).
Proof.
  cbn zeta.
  destruct (fetchedContentCount st <? MAX_FILES_FOR_CONTENT_FETCH) eqn:B.
  - destruct (isLarge (File.size file)
              && negb (isPriorityFile (File.name file))) eqn:L.
    + apply andb_true_iff in L. destruct L as [L P].
      apply negb_true_iff in P.
      rewrite iteration_too_large by assumption. left; reflexivity.
    + destruct (@iteration_fetch rt net owner repo defaultBranch headers
                  file st tr B L) as (entry & _ & _ & E).
      rewrite E.
      destruct (truthy (Fetched.content (fst (get file tr)))) eqn:C;
        [ | left; reflexivity].
      pose proof (fetchFileContent_shape file owner repo defaultBranch
                    headers tr) as S.
      cbn zeta in S.
      destruct S as [[S1 _] | [S1 _]].
      * rewrite S1 in C. discriminate C.
      * rewrite S1. cbn [truthy negb andb fst]. right.
        apply Nat.ltb_lt in B. auto.
  - rewrite iteration_over_budget by exact B.
    destruct (keptAfterLimit file); left; reflexivity.
Qed.

(** C7.  A file reached while budget remains, whose size exceeds three
    times the per-file cap and whose name is not a README, manifest or
    license name, is recorded without any request being made: the
    entry keeps the file's name and path, has no content, and carries
    an error that says the file is too large; it is in the final
    list, and the budget counter is left as it was. *)
Theorem large_file_is_recorded_without_fetch
    (all pre post : list File.t) (file : File.t) (tr : Trace) (n : Z) :
  filesOnly all = pre ++ file :: post ->
  fetchedContentCount (fst (run pre initialState tr))
  < MAX_FILES_FOR_CONTENT_FETCH ->
  File.size file = Some n ->
  (n > MAX_FILE_CONTENT_LENGTH * 3)%Z ->
  isPriorityFile (File.name file) = false ->
  exists entry message,
    step file (fst (run pre initialState tr)) (snd (run pre initialState tr))
    = (push entry (fst (run pre initialState tr)),
       snd (run pre initialState tr))
    /\ In entry (fst (select all tr))
    /\ File.name entry = File.name file
    /\ File.path entry = File.path file
    /\ File.content entry = None
    /\ File.error entry = Some message
    /\ message = tooLargeError (Some n)
    /\ includes message (lit "too large") = true.
Proof.
  intros Hsplit Hbudget Hsize Hlarge Hprio.
  assert (L : isLarge (File.size file) = true).
  { rewrite Hsize. unfold isLarge.
    destruct (Z.eqb_spec n 0) as [-> | _];
      [unfold MAX_FILE_CONTENT_LENGTH in Hlarge; lia | ].
    destruct (Z.gtb_spec n (MAX_FILE_CONTENT_LENGTH * 3)); [reflexivity | lia]. }
  apply Nat.ltb_lt in Hbudget.
  pose proof (@iteration_too_large rt net owner repo defaultBranch headers
                file _ (snd (run pre initialState tr)) Hbudget L Hprio) as E.
  eexists. eexists. split; [exact E | ].
  split.
  { eapply recorded_entry_is_listed; [exact Hsplit | ]. rewrite E.
    cbn [fst push repoContents]. apply in_or_app. right. left. reflexivity. }
  rewrite Hsize. repeat (split; [reflexivity | ]). reflexivity.
Qed.

(** C10.  A file reached while budget remains and fetched, whose
    download succeeds with the empty string, is recorded with its
    content set to the empty string and (the inventory entry having no
    error) with no error; the budget counter is left as it was. *)
Theorem empty_content_does_not_consume_budget
    (all pre post : list File.t) (file : File.t) (tr : Trace)
    (url : jsstring) (status : Z) (statusText : jsstring) :
  filesOnly all = pre ++ file :: post ->
  fetchedContentCount (fst (run pre initialState tr))
  < MAX_FILES_FOR_CONTENT_FETCH ->
  isLarge (File.size file) && negb (isPriorityFile (File.name file)) = false ->
  resolveDownloadUrl file owner repo defaultBranch = Some url ->
  nonempty url = true ->
  contentResponse (snd (run pre initialState tr))
    {| req_url := url; req_headers := headers |}
  = Responds status statusText (inr []) ->
  ok status = true ->
  File.error file = None ->
  exists entry,
    step file (fst (run pre initialState tr)) (snd (run pre initialState tr))
    = (push entry (fst (run pre initialState tr)),
       snd (run pre initialState tr)
       ++ [{| req_url := url; req_headers := headers |}])
    /\ fetchedContentCount
         (fst (step file (fst (run pre initialState tr))
                 (snd (run pre initialState tr))))
       = fetchedContentCount (fst (run pre initialState tr))
    /\ File.name entry = File.name file
    /\ File.path entry = File.path file
    /\ File.content entry = Some []
    /\ File.error entry = None
    /\ In entry (fst (select all tr)).
Proof.
  intros Hsplit Hbudget Hfetch Hurl Hne Hresp Hok Herr.
  apply Nat.ltb_lt in Hbudget.
  pose proof (fetchFileContent_ok file owner repo defaultBranch headers
                (snd (run pre initialState tr)) Hurl Hne Hresp Hok) as G.
  assert (E : step file (fst (run pre initialState tr))
                (snd (run pre initialState tr))
              = (push (File.set_content (Some []) file)
                   (fst (run pre initialState tr)),
                 snd (run pre initialState tr)
                 ++ [{| req_url := url; req_headers := headers |}])).
  { unfold iteration. rewrite Hbudget, Hfetch, bind_run, G. reflexivity. }
  exists (File.set_content (Some []) file).
  split; [exact E | ]. rewrite E. cbn [fst push fetchedContentCount].
  repeat (split; [reflexivity || exact Herr | ]).
  eapply recorded_entry_is_listed; [exact Hsplit | ]. rewrite E.
  cbn [fst push repoContents]. apply in_or_app. right. left. reflexivity.
Qed.

(** What the code does once the budget is used up after the files
    [pre].  No request is made for the remaining files [post]: each of
    them that passes the test of that branch, [keptAfterLimit] (a
    README, manifest or license name, or a path that, as listed, ends
    with one of the source extensions), contributes its minimal entry
    (same file, no content, the fetch-limit error) and the others
    contribute nothing, so that the final list is the sorted union of
    the entries recorded for [pre] and of these minimal entries, and
    holds nothing else; the final list is in ascending tier order.
    The test of this branch is not the classifier's, which looks for
    the extension in the lower-cased path. *)
Theorem files_over_budget_are_listed_or_dropped
    (all pre post : list File.t) (tr : Trace) :
  Forall fresh all ->
  filesOnly all = pre ++ post ->
  fetchedContentCount (fst (run pre initialState tr))
  = MAX_FILES_FOR_CONTENT_FETCH ->
  fst (select all tr)
  = sort_by getFilePriority
      (repoContents (fst (run pre initialState tr))
       ++ map minimalFile (filter keptAfterLimit post))
  /\ snd (select all tr) = snd (run pre initialState tr)
  /\ tier_sorted getFilePriority (fst (select all tr))
  /\ Forall (fun f =>
               keptAfterLimit f = true ->
               In (minimalFile f) (fst (select all tr))
               /\ File.name (minimalFile f) = File.name f
               /\ File.path (minimalFile f) = File.path f
               /\ File.content (minimalFile f) = None
               /\ File.error (minimalFile f) = Some limitError) post
  /\ (forall entry,
         In entry (fst (select all tr)) ->
         In entry (repoContents (fst (run pre initialState tr)))
         \/ exists f,
              In f post /\ keptAfterLimit f = true /\ entry = minimalFile f).
Proof.
  intros Hfresh Hsplit Hfull.
  assert (B : (fetchedContentCount (fst (run pre initialState tr))
               <? MAX_FILES_FOR_CONTENT_FETCH) = false).
  { rewrite Hfull. apply Nat.ltb_irrefl. }
  assert (E : select all tr
              = (sort_by getFilePriority
                   (repoContents (fst (run pre initialState tr))
                    ++ map minimalFile (filter keptAfterLimit post)),
                 snd (run pre initialState tr))).
  { rewrite selectContents_run, Hsplit, loop_app.
    rewrite loop_over_budget by exact B. reflexivity. }
  rewrite E. cbn [fst snd].
  split; [reflexivity | split; [reflexivity | split; [ | split]]].
  - apply sort_by_sorted.
  - apply Forall_forall. intros f Hin Hkept.
    split.
    + apply In_sort_by, in_or_app. right. apply in_map, filter_In. auto.
    + assert (Hf : In f (filesOnly all))
        by (rewrite Hsplit; apply in_or_app; right; exact Hin).
      apply In_filesOnly in Hf. destruct Hf as [Hf _].
      rewrite Forall_forall in Hfresh. destruct (Hfresh f Hf) as [_ He].
      unfold minimalFile. cbn. rewrite He. auto.
  - intros entry Hin. apply In_sort_by, in_app_or in Hin.
    destruct Hin as [Hin | Hin]; [left; exact Hin | right].
    apply in_map_iff in Hin. destruct Hin as (f & <- & Hf).
    apply filter_In in Hf. exists f. tauto.
Qed.

End SelectionClaims.

Lemma large_file_is_recorded_without_fetch_witness :
  exists entry message,
    In entry
      (fst (@selectContents Example.runtime Example.emptyRepository
              (lit "acme") (lit "widget") (lit "main") []
              [Example.file "dump.sql" "data/dump.sql" (Some 500000%Z)
                 (Some (lit "https://raw.example/data/dump.sql")) None] []))
    /\ File.content entry = None
    /\ File.error entry = Some message
    /\ includes message (lit "too large") = true.
Proof.
  destruct (@large_file_is_recorded_without_fetch
              Example.runtime Example.emptyRepository
              (lit "acme") (lit "widget") (lit "main") []
              [Example.file "dump.sql" "data/dump.sql" (Some 500000%Z)
                 (Some (lit "https://raw.example/data/dump.sql")) None]
              [] []
              (Example.file "dump.sql" "data/dump.sql" (Some 500000%Z)
                 (Some (lit "https://raw.example/data/dump.sql")) None)
              [] 500000%Z eq_refl
              ltac:(cbn; unfold MAX_FILES_FOR_CONTENT_FETCH; lia)
              eq_refl eq_refl eq_refl)
    as (entry & message & _ & Hin & _ & _ & Hc & He & _ & Hm).
  exists entry, message. auto.
Defined.

Lemma empty_content_does_not_consume_budget_witness :
  exists entry,
    In entry
      (fst (@selectContents Example.runtime Example.emptyRepository
              (lit "acme") (lit "widget") (lit "main") []
              [Example.file "e.txt" "e.txt" (Some 0%Z)
                 (Some (lit "https://raw.example/e.txt")) None] []))
    /\ File.content entry = Some []
    /\ File.error entry = None
    /\ fetchedContentCount
         (fst (@iteration Example.runtime Example.emptyRepository
                 (lit "acme") (lit "widget") (lit "main") []
                 (Example.file "e.txt" "e.txt" (Some 0%Z)
                    (Some (lit "https://raw.example/e.txt")) None)
                 initialState []))
       = 0.
Proof.
  destruct (@empty_content_does_not_consume_budget
              Example.runtime Example.emptyRepository
              (lit "acme") (lit "widget") (lit "main") []
              [Example.file "e.txt" "e.txt" (Some 0%Z)
                 (Some (lit "https://raw.example/e.txt")) None]
              [] []
              (Example.file "e.txt" "e.txt" (Some 0%Z)
                 (Some (lit "https://raw.example/e.txt")) None)
              [] (lit "https://raw.example/e.txt") 200%Z (lit "OK")
              eq_refl
              ltac:(cbn; unfold MAX_FILES_FOR_CONTENT_FETCH; lia)
              eq_refl eq_refl eq_refl eq_refl eq_refl eq_refl)
    as (entry & _ & Hcount & _ & _ & Hc & He & Hin).
  exists entry. auto.
Defined.

Lemma files_over_budget_are_listed_or_dropped_witness :
  let all :=
    Example.twelveFiles
    ++ [Example.sourceFile "m.ts"; Example.sourceFile "notes.txt"] in
  let output :=
    fst (@selectContents Example.runtime
           (Example.uniformRepository [] (lit "text"))
           (lit "acme") (lit "widget") (lit "main") [] all []) in
  In (minimalFile (Example.sourceFile "m.ts")) output
  /\ File.error (minimalFile (Example.sourceFile "m.ts")) = Some limitError
  /\ List.length output = 13
  /\ tier_sorted (getFilePriority (rt := Example.runtime)) output.
Proof.
  intros all output.
  destruct (@files_over_budget_are_listed_or_dropped
              Example.runtime (Example.uniformRepository [] (lit "text"))
              (lit "acme") (lit "widget") (lit "main") []
              all Example.twelveFiles
              [Example.sourceFile "m.ts"; Example.sourceFile "notes.txt"] []
              ltac:(repeat constructor) eq_refl eq_refl)
    as (Hout & _ & Hsorted & Hkept & _).
  inversion Hkept as [ | ? ? Hm _]; subst.
  destruct (Hm eq_refl) as (Hin & _ & _ & _ & Herr).
  split; [exact Hin | split; [exact Herr | split; [ | exact Hsorted]]].
  subst output. rewrite Hout. reflexivity.
Defined.

(** C6.  The code breaks the claim on a repository of twelve source
    files followed by [Z.TS].  The classifier recognises the
    extension of [Z.TS], which it looks for in the lower-cased path,
    and puts the file in tier 6, a source file.  The twelve files
    before it use up the budget; the branch taken then looks for the
    extension in the path as listed, finds none, and drops the file:
    the output has twelve entries and none for [Z.TS].  With the same
    file listed as [z.ts] the output has its minimal entry, without
    content and with the fetch-limit error. *)
Lemma upper_case_extension_is_dropped_over_budget :
  let inventory last :=
    map (fileOfTreeItem (rt := Example.runtime)
           (lit "acme") (lit "widget") (lit "main"))
      (Sample.thirteenBlobs last) in
  let output last :=
    Output.repoContents
      (fst (@fetchRepoInfoTool Example.runtime (Sample.thirteenSources last)
              (Example.input "https://github.com/acme/widget") [])) in
  (exists file,
      nth_error (inventory "Z.TS"%string) 12 = Some file
      /\ File.path file = lit "Z.TS"
      /\ isFile file = true
      /\ hasSourceExtension
           (toLowerCase (Runtime := Example.runtime) (File.path file)) = true
      /\ getFilePriority (rt := Example.runtime) file = 6%Z
      /\ keptAfterLimit file = false)
  /\ (exists contents,
         output "Z.TS"%string = Some contents
         /\ count_if carriesText contents = MAX_FILES_FOR_CONTENT_FETCH
         /\ List.length contents = 12
         /\ ~ In (lit "Z.TS") (map File.path contents))
  /\ (exists contents entry,
         output "z.ts"%string = Some contents
         /\ List.length contents = 13
         /\ In entry contents
         /\ File.path entry = lit "z.ts"
         /\ File.content entry = None
         /\ File.error entry = Some limitError).
Proof.
  intros inventory output. split; [ | split].
  - eexists. split; [vm_compute; reflexivity | ].
    repeat split; vm_compute; reflexivity.
  - eexists. split; [vm_compute; reflexivity | ].
    split; [vm_compute; reflexivity | ].
    split; [reflexivity | ].
    vm_compute. intros H.
    repeat (destruct H as [H | H]; [discriminate H | ]). exact H.
  - eexists. eexists. split; [vm_compute; reflexivity | ].
    split; [reflexivity | ].
    split; [do 12 right; left; reflexivity | ].
    split; [reflexivity | ]. split; reflexivity.
Qed.

(** ** The handler *)

Section Handler.

Context {rt : Runtime} {net : Network}.

(** The handler either returns an error and nothing else, or returns
    the selected contents (absent when the list is empty) and no
    error. *)
Lemma fetchRepoInfoTool_cases input tr :
  (exists message,
      fst (fetchRepoInfoTool input tr) = Output.failure message input)
  \/ (exists owner repo defaultBranch headers all tr',
         Output.error (fst (fetchRepoInfoTool input tr)) = None
         /\ Output.repoContents (fst (fetchRepoInfoTool input tr))
            = match fst (selectContents owner repo defaultBranch headers
                           all tr') with
              | [] => None
              | entry :: entries => Some (entry :: entries)
              end).
Proof.
  unfold fetchRepoInfoTool.
  destruct (parseRepoUrl (Input.repoUrl input)) as [message | [owner repo]].
  - left. exists message. reflexivity.
  - rewrite bind_run.
    destruct (fst (fetchRepoDetails owner repo _ tr)) as [message | details].
    + left. exists message. reflexivity.
    + rewrite bind_run.
      destruct (fst (fetchTree owner repo _ _ _)) as [message | all].
      * left. exists message. reflexivity.
      * right. rewrite !bind_run.
        cbn [fst ret Output.error Output.repoContents].
        exists owner, repo, (or_else (rd_default_branch details) (lit "master")),
          (requestHeaders (Input.githubToken input)), all,
          (snd (fetchTree owner repo
                  (or_else (rd_default_branch details) (lit "master"))
                  (requestHeaders (Input.githubToken input))
                  (snd (fetchRepoDetails owner repo
                          (requestHeaders (Input.githubToken input)) tr)))).
        destruct (fst (selectContents _ _ _ _ _ _)); split; reflexivity.
Qed.

Lemma fetchFileContent_trace_extends file owner repo defaultBranch headers tr :
  exists requests,
    snd (fetchFileContent file owner repo defaultBranch headers tr)
    = tr ++ requests.
Proof.
  destruct (truthy (resolveDownloadUrl file owner repo defaultBranch)) eqn:T.
  - destruct (fetchFileContent_requests file owner repo defaultBranch
                headers tr T) as (url & _ & E).
    eexists. exact E.
  - rewrite (fetchFileContent_no_url file owner repo defaultBranch headers
               tr T).
    exists []. symmetry. apply app_nil_r.
Qed.

Lemma iteration_trace_extends owner repo defaultBranch headers file st tr :
  exists requests,
    snd (iteration owner repo defaultBranch headers file st tr)
    = tr ++ requests.
Proof.
  unfold iteration.
  destruct (fetchedContentCount st <? MAX_FILES_FOR_CONTENT_FETCH).
  - destruct (isLarge (File.size file)
              && negb (isPriorityFile (File.name file))).
    + exists []. symmetry. apply app_nil_r.
    + rewrite bind_run.
      destruct (fetchFileContent_trace_extends file owner repo defaultBranch
                  headers tr) as (requests & E).
      exists requests. rewrite <- E.
      destruct (truthy _ && negb (truthy _)); reflexivity.
  - exists []. destruct (keptAfterLimit file); symmetry; apply app_nil_r.
Qed.

Lemma loop_trace_extends owner repo defaultBranch headers files :
  forall st tr,
    exists requests,
      snd (loop owner repo defaultBranch headers files st tr) = tr ++ requests.
Proof.
  induction files as [ | file files IH]; intros st tr.
  - exists []. symmetry. apply app_nil_r.
  - rewrite loop_cons.
    destruct (iteration_trace_extends owner repo defaultBranch headers
                file st tr) as (r1 & E1).
    destruct (IH (fst (iteration owner repo defaultBranch headers file st tr))
                (snd (iteration owner repo defaultBranch headers file st tr)))
      as (r2 & E2).
    exists (r1 ++ r2). rewrite E2, E1, app_assoc. reflexivity.
Qed.

Lemma fetchContributors_trace_extends owner repo headers tr :
  exists requests, snd (fetchContributors owner repo headers tr) = tr ++ requests.
Proof.
  unfold fetchContributors. rewrite bind_run, fetch_run. cbn [fst snd].
  eexists.
  destruct (contributorsResponse _ _) as [ | status ? [ | [ | ]]];
    try reflexivity.
  destruct (ok status); reflexivity.
Qed.

(** The listing step after a refused tree request: the shallow listing
    is requested next, and when it fails too the step ends in an
    error. *)
Lemma fetchTree_after_refusal owner repo defaultBranch headers tr
    status statusText body :
  treeResponse tr (treeRequest owner repo defaultBranch headers)
  = Responds status statusText body ->
  ok status = false ->
  snd (fetchTree owner repo defaultBranch headers tr)
  = tr ++ [treeRequest owner repo defaultBranch headers;
           contentsRequest owner repo defaultBranch headers]
  /\ (failed (contentsResponse
                (tr ++ [treeRequest owner repo defaultBranch headers])
                (contentsRequest owner repo defaultBranch headers)) ->
      exists message,
        fst (fetchTree owner repo defaultBranch headers tr) = inl message).
Proof.
  intros Htree Hok. unfold fetchTree.
  rewrite bind_run, fetch_run. cbn [fst snd].
  fold (treeRequest owner repo defaultBranch headers).
  rewrite Htree, Hok, bind_run, fetch_run. cbn [fst snd].
  fold (contentsRequest owner repo defaultBranch headers).
  rewrite <- app_assoc. cbn [app].
  destruct (contentsResponse _ _) as [message | status2 statusText2 body2].
  - split; [reflexivity | ]. intros _. eexists; reflexivity.
  - destruct (ok status2) eqn:Hok2.
    + destruct body2 as [message | items].
      * split; [reflexivity | ]. intros _. eexists; reflexivity.
      * split; [reflexivity | ].
        intros [F | (message & F)]; [congruence | discriminate F].
    + split; [reflexivity | ]. intros _. eexists; reflexivity.
Qed.

(** A tree request that throws, or whose body cannot be read, ends the
    listing step in an error at once: the shallow listing is not
    requested. *)
Lemma fetchTree_rejected owner repo defaultBranch headers tr message :
  treeResponse tr (treeRequest owner repo defaultBranch headers)
  = Rejects message ->
  fetchTree owner repo defaultBranch headers tr
  = (inl (treeException message),
     tr ++ [treeRequest owner repo defaultBranch headers]).
Proof.
  intros E. unfold fetchTree. rewrite bind_run, fetch_run. cbn [fst snd].
  fold (treeRequest owner repo defaultBranch headers). rewrite E. reflexivity.
Qed.

Lemma fetchTree_unreadable owner repo defaultBranch headers tr
    status statusText message :
  treeResponse tr (treeRequest owner repo defaultBranch headers)
  = Responds status statusText (inl message) ->
  ok status = true ->
  fetchTree owner repo defaultBranch headers tr
  = (inl (treeException message),
     tr ++ [treeRequest owner repo defaultBranch headers]).
Proof.
  intros E Hok. unfold fetchTree. rewrite bind_run, fetch_run. cbn [fst snd].
  fold (treeRequest owner repo defaultBranch headers). rewrite E, Hok.
  reflexivity.
Qed.

(** C9, amended.  When the recursive tree request is answered with a
    status that is not a success, the shallow top-level listing is
    requested next, before anything is returned.  When that second
    attempt fails as well (it throws, it is answered with a status
    that is not a success, or its body cannot be read), the handler
    returns at once: the result has [error] set and no
    [repoContents]. *)
Theorem fallback_follows_a_refused_tree_request
    (input : Input.t) (owner repo : jsstring) (repoDetails : RepoDetails)
    (tr tr1 : Trace) (status : Z) (statusText : jsstring)
    (body : jsstring + TreeData) :
  parseRepoUrl (Input.repoUrl input) = inr (owner, repo) ->
  fetchRepoDetails owner repo (requestHeaders (Input.githubToken input)) tr
  = (inr repoDetails, tr1) ->
  treeResponse tr1
    (treeRequest owner repo (defaultBranchOf repoDetails)
       (requestHeaders (Input.githubToken input)))
  = Responds status statusText body ->
  ok status = false ->
  (exists later,
      snd (fetchRepoInfoTool input tr)
      = tr1
        ++ treeRequest owner repo (defaultBranchOf repoDetails)
             (requestHeaders (Input.githubToken input))
        :: contentsRequest owner repo (defaultBranchOf repoDetails)
             (requestHeaders (Input.githubToken input))
        :: later)
  /\ (failed
        (contentsResponse
           (tr1 ++ [treeRequest owner repo (defaultBranchOf repoDetails)
                      (requestHeaders (Input.githubToken input))])
           (contentsRequest owner repo (defaultBranchOf repoDetails)
              (requestHeaders (Input.githubToken input)))) ->
      (exists message,
          Output.error (fst (fetchRepoInfoTool input tr)) = Some message)
      /\ Output.repoContents (fst (fetchRepoInfoTool input tr)) = None
      /\ snd (fetchRepoInfoTool input tr)
         = tr1
           ++ [treeRequest owner repo (defaultBranchOf repoDetails)
                 (requestHeaders (Input.githubToken input));
               contentsRequest owner repo (defaultBranchOf repoDetails)
                 (requestHeaders (Input.githubToken input))]).
Proof.
  intros Hparse Hdetails Htree Hok.
  destruct (fetchTree_after_refusal owner repo (defaultBranchOf repoDetails)
              (requestHeaders (Input.githubToken input)) tr1 Htree Hok)
    as (Htrace & Hfail).
  unfold fetchRepoInfoTool. rewrite Hparse, bind_run, Hdetails.
  cbn [fst snd]. fold (defaultBranchOf repoDetails). rewrite bind_run.
  destruct (fst (fetchTree owner repo (defaultBranchOf repoDetails)
                   (requestHeaders (Input.githubToken input)) tr1))
    as [message | all] eqn:Einv.
  - rewrite ret_run, Htrace. cbn [fst snd]. split.
    + exists []. reflexivity.
    + intros _. split; [exists message; reflexivity | split; reflexivity].
  - split.
    + rewrite !bind_run, ret_run. cbn [snd].
      destruct (fetchContributors_trace_extends owner repo
                  (requestHeaders (Input.githubToken input))
                  (snd (selectContents owner repo (defaultBranchOf repoDetails)
                          (requestHeaders (Input.githubToken input)) all
                          (snd (fetchTree owner repo
                                  (defaultBranchOf repoDetails)
                                  (requestHeaders (Input.githubToken input))
                                  tr1)))))
        as (r2 & E2).
      rewrite E2. unfold selectContents at 1. rewrite bind_run, ret_run.
      cbn [snd].
      destruct (loop_trace_extends owner repo (defaultBranchOf repoDetails)
                  (requestHeaders (Input.githubToken input)) (filesOnly all)
                  initialState
                  (snd (fetchTree owner repo (defaultBranchOf repoDetails)
                          (requestHeaders (Input.githubToken input)) tr1)))
        as (r1 & E1).
      rewrite E1, Htrace. exists (r1 ++ r2).
      rewrite <- !app_assoc. reflexivity.
    + intros F. destruct (Hfail F) as (message & E). discriminate E.
Qed.

(** What the budget counter does bound.  In every result of the
    handler, and in every result of the selection engine over any
    inventory, the number of entries that carry non-empty fetched
    content is at most [MAX_FILES_FOR_CONTENT_FETCH]; entries whose
    fetched content is the empty string are not counted (see the next
    lemma).  An iteration of the selection loop
    either leaves the budget counter as it was or adds one to it, and
    it adds one only while budget remains and only for a fetch that
    returned non-empty content and no error; a failed attempt leaves
    the counter as it was. *)
Theorem budget_bounds_nonempty_content :
  (forall input tr,
      match Output.repoContents (fst (fetchRepoInfoTool input tr)) with
      | Some contents =>
          count_if carriesText contents <= MAX_FILES_FOR_CONTENT_FETCH
      | None => True
      end)
  /\ (forall owner repo defaultBranch headers all tr,
         count_if carriesText
           (fst (selectContents owner repo defaultBranch headers all tr))
         <= MAX_FILES_FOR_CONTENT_FETCH)
  /\ (forall owner repo defaultBranch headers file st tr,
         let st' :=
           fst (iteration owner repo defaultBranch headers file st tr) in
         let fetched :=
           fst (fetchFileContent file owner repo defaultBranch headers tr) in
         fetchedContentCount st' = fetchedContentCount st
         \/ (fetchedContentCount st' = S (fetchedContentCount st)
             /\ fetchedContentCount st < MAX_FILES_FOR_CONTENT_FETCH
             /\ isLarge (File.size file)
                && negb (isPriorityFile (File.name file)) = false
             /\ truthy (Fetched.content fetched) = true
             /\ Fetched.error fetched = None)).
Proof.
  split; [ | split].
  - intros input tr.
    destruct (fetchRepoInfoTool_cases input tr)
      as [(message & ->)
         | (owner & repo & branch & headers & all & tr' & _ & ->)].
    + exact I.
    + pose proof (selectContents_within_budget owner repo branch headers
                    all tr') as B.
      destruct (fst (selectContents owner repo branch headers all tr'));
        [exact I | exact B].
  - intros. apply selectContents_within_budget.
  - intros. apply iteration_counts_successes.
Qed.

End Handler.

(** C1.  The code breaks the budget on a repository of thirteen empty
    files.  The guard of the increment, [content && !error], tests
    the fetched text for truthiness, and the empty string is falsy:
    every one of the thirteen downloads succeeds with the empty
    string, none of them counts against the budget, thirteen content
    requests are made, and the result lists thirteen entries that
    carry successfully fetched content and no error, one more than
    [MAX_FILES_FOR_CONTENT_FETCH]. *)
Lemma thirteen_empty_files_exceed_the_budget :
  let result :=
    @fetchRepoInfoTool Example.runtime Example.emptyRepository
      (Example.input "https://github.com/acme/widget") [] in
  exists contents,
    Output.repoContents (fst result) = Some contents
    /\ Output.error (fst result) = None
    /\ Forall (fun entry =>
                 File.content entry = Some [] /\ File.error entry = None)
         contents
    /\ count_if carriesContent contents = 13
    /\ ~ count_if carriesContent contents <= MAX_FILES_FOR_CONTENT_FETCH
    /\ count_if carriesText contents = 0
    /\ List.length
         (filter (fun rq =>
                    startsWith (req_url rq)
                      (lit "https://raw.githubusercontent.com/"))
            (snd result))
       = 13.
Proof.
  intros result. eexists. split; [vm_compute; reflexivity | ].
  split; [reflexivity | ].
  split; [repeat constructor | ].
  split; [reflexivity | ].
  split; [vm_compute; lia | ].
  split; vm_compute; reflexivity.
Qed.

(** C9, as stated, fails: when the recursive tree request throws, the
    handler returns an error although the shallow listing, which
    would have answered, is never requested. *)
Lemma no_fallback_when_the_tree_request_throws :
  let result :=
    @fetchRepoInfoTool Example.runtime Example.treeUnreachable
      (Example.input "https://github.com/acme/widget") [] in
  failed
    (@treeResponse Example.treeUnreachable
       [{| req_url := repoUrlOf (lit "acme") (lit "widget");
           req_headers := requestHeaders None |}]
       (treeRequest (lit "acme") (lit "widget") (lit "main")
          (requestHeaders None)))
  /\ map req_url (snd result)
     = [repoUrlOf (lit "acme") (lit "widget");
        treeUrl (lit "acme") (lit "widget") (lit "main")]
  /\ ~ In (contentsUrl (lit "acme") (lit "widget") (lit "main"))
         (map req_url (snd result))
  /\ Output.error (fst result)
     = Some (treeException (lit "socket hang up"))
  /\ Output.repoContents (fst result) = None.
Proof.
  intros result.
  split; [exact I | ].
  split; [reflexivity | ].
  split; [ | split; reflexivity].
  vm_compute. intros [H | [H | []]]; discriminate H.
Qed.

Lemma fallback_follows_a_refused_tree_request_witness :
  let result :=
    @fetchRepoInfoTool Example.runtime Example.listingsRefused
      (Example.input "https://github.com/acme/widget") [] in
  map req_url (snd result)
  = [repoUrlOf (lit "acme") (lit "widget");
     treeUrl (lit "acme") (lit "widget") (lit "main");
     contentsUrl (lit "acme") (lit "widget") (lit "main")]
  /\ (exists message, Output.error (fst result) = Some message)
  /\ Output.repoContents (fst result) = None.
Proof.
  intros result.
  destruct (@fallback_follows_a_refused_tree_request
              Example.runtime Example.listingsRefused
              (Example.input "https://github.com/acme/widget")
              (lit "acme") (lit "widget") Example.details []
              [{| req_url := repoUrlOf (lit "acme") (lit "widget");
                  req_headers := requestHeaders None |}]
              500%Z (lit "Internal Server Error")
              (inl (lit "body not read"))
              eq_refl eq_refl eq_refl eq_refl)
    as (_ & Hboth).
  destruct (Hboth (or_introl eq_refl)) as (Herror & Hcontents & Htrace).
  split; [ | split; [exact Herror | exact Hcontents]].
  subst result. rewrite Htrace. reflexivity.
Defined.

(** Every inventory the handler builds consists of fresh entries, so
    the freshness assumed of the inventory in the claims above holds
    in every run. *)
Lemma fetchTree_fresh {rt : Runtime} {net : Network}
    (owner repo defaultBranch : jsstring) (headers : Headers)
    (tr : Trace) (all : list File.t) :
  fst (fetchTree owner repo defaultBranch headers tr) = inr all ->
  Forall fresh all.
Proof.
  unfold fetchTree. rewrite bind_run, fetch_run. cbn [fst snd].
  destruct (treeResponse _ _) as [message | status statusText body];
    [discriminate | ].
  destruct (ok status).
  - destruct body as [message | treeData]; [discriminate | ].
    cbn. intros H. injection H as <-.
    apply Forall_map, Forall_forall. intros item _. split; reflexivity.
  - rewrite bind_run, fetch_run. cbn [fst snd].
    destruct (contentsResponse _ _) as [message | status2 statusText2 body2];
      [discriminate | ].
    destruct (ok status2); [ | discriminate].
    destruct body2 as [message | items]; [discriminate | ].
    cbn. intros H. injection H as <-.
    apply Forall_map, Forall_forall. intros item _. split; reflexivity.
Qed.

(* ================================================================== *)
(** * Further properties of the classifier *)

Lemma Lang_alts_str ic w ws s :
  Lang ic (RegExp.alts (RegExp.str w) (map RegExp.str ws)) s
  <-> exists v,
        In v (w :: ws)
        /\ map (RegExp.canonicalize ic) s = map (RegExp.canonicalize ic) v.
Proof.
  rewrite Lang_alts, Lang_str, Exists_exists. split.
  - intros [H | (r & Hr & L)].
    + exists w. split; [left; reflexivity | exact H].
    + apply in_map_iff in Hr. destruct Hr as (v & <- & Hv).
      apply Lang_str in L. exists v. split; [right; exact Hv | exact L].
  - intros (v & [<- | Hv] & E); [left; exact E | right].
    exists (RegExp.str v). split; [apply in_map, Hv | apply Lang_str, E].
Qed.

(** The language of [(b|...)(\.(e|...))?]. *)
Lemma Lang_optional_extension ic b bs e es s :
  Lang ic
    (RegExp.Seq (RegExp.alts (RegExp.str b) (map RegExp.str bs))
       (RegExp.Opt
          (RegExp.Seq (RegExp.str (lit "."))
             (RegExp.alts (RegExp.str e) (map RegExp.str es))))) s
  <-> exists base suffix,
        In base (b :: bs)
        /\ (suffix = [] \/ exists ext, In ext (e :: es)
                                       /\ suffix = lit "." +++ ext)
        /\ map (RegExp.canonicalize ic) s
           = map (RegExp.canonicalize ic) (base +++ suffix).
Proof.
  cbn [Lang RegExp.Opt]. split.
  - intros (s1 & s2 & -> & L1 & L2). apply Lang_alts_str in L1.
    destruct L1 as (base & Hb & E1).
    destruct L2 as [(s3 & s4 & -> & Ldot & Lext) | ->].
    + apply Lang_str in Ldot. apply Lang_alts_str in Lext.
      destruct Lext as (ext & He & E4).
      exists base, (lit "." +++ ext). split; [exact Hb | ].
      split; [right; exists ext; auto | ].
      rewrite !map_app, E1, Ldot, E4. reflexivity.
    + exists base, []. split; [exact Hb | ]. split; [left; reflexivity | ].
      rewrite !map_app, E1. reflexivity.
  - intros (base & suffix & Hb & Hs & E).
    rewrite map_app in E. apply map_eq_app in E.
    destruct E as (s1 & s2 & -> & E1 & E2).
    exists s1, s2. split; [reflexivity | ].
    split; [apply Lang_alts_str; exists base; auto | ].
    destruct Hs as [-> | (ext & He & ->)].
    + right. apply map_eq_nil in E2. exact E2.
    + left. rewrite map_app in E2. apply map_eq_app in E2.
      destruct E2 as (s3 & s4 & -> & E3 & E4).
      exists s3, s4. split; [reflexivity | ].
      split; [apply Lang_str; exact E3 | ].
      apply Lang_alts_str. exists ext. auto.
Qed.

(** The license pattern of the source is the pattern in words. *)
Lemma LICENSE_FILES_REGEX_spec name :
  RegExp.test LICENSE_FILES_REGEX name = true <-> license_name name.
Proof.
  rewrite test_anchored by reflexivity.
  change (Lang (RegExp.ignoreCase LICENSE_FILES_REGEX)
            (RegExp.source LICENSE_FILES_REGEX) name)
    with (Lang true
            (RegExp.Seq
               (RegExp.alts (RegExp.str (lit "LICENSE"))
                  (map RegExp.str [lit "COPYING"]))
               (RegExp.Opt
                  (RegExp.Seq (RegExp.str (lit "."))
                     (RegExp.alts (RegExp.str (lit "md"))
                        (map RegExp.str [lit "txt"; lit "rst"])))))
            name).
  rewrite Lang_optional_extension. unfold license_name, eq_ignoring_case.
  split.
  - intros (base & suffix & Hb & Hs & E). exists base, suffix.
    split; [exact Hb | ]. split; [ | exact E].
    destruct Hs as [-> | (ext & He & ->)]; [left; reflexivity | ].
    cbn in He. destruct He as [<- | [<- | [<- | []]]]; cbn; auto.
  - intros (base & suffix & Hb & Hs & E). exists base, suffix.
    split; [exact Hb | ]. split; [ | exact E].
    cbn in Hs. destruct Hs as [<- | [<- | [<- | [<- | []]]]];
      [left; reflexivity | right | right | right];
      eexists; (split; [ | reflexivity]); cbn; auto.
Qed.

Lemma license_name_is_not_readme_name name :
  license_name name -> ~ readme_name name.
Proof.
  unfold license_name, readme_name, eq_ignoring_case.
  intros (base & suffix & Hb & _ & E) (suffix' & _ & E').
  rewrite E in E'. cbn in Hb.
  destruct Hb as [<- | [<- | []]]; discriminate E'.
Qed.

(** The language of [^(d|...)\/], a pattern that is not anchored at
    its end. *)
Lemma test_directory_prefix d ds p :
  RegExp.test
    {| RegExp.source :=
         RegExp.Seq (RegExp.alts (RegExp.str d) (map RegExp.str ds))
           (RegExp.str (lit "/"));
       RegExp.anchoredEnd := false;
       RegExp.ignoreCase := true |} p = true
  <-> under_directory (d :: ds) p.
Proof.
  unfold RegExp.test, under_directory, eq_ignoring_case.
  cbn [RegExp.source RegExp.anchoredEnd RegExp.ignoreCase].
  rewrite m_spec. cbn [Lang]. split.
  - intros (s1 & s2 & -> & (a & b & -> & La & Lb) & _).
    apply Lang_alts_str in La. destruct La as (dir & Hd & Ea).
    change (Lang true (RegExp.str (lit "/")) b) in Lb.
    apply Lang_str in Lb.
    exists dir, (a ++ b), s2. split; [exact Hd | ].
    split; [reflexivity | ]. rewrite !map_app, Ea, Lb. reflexivity.
  - intros (dir & prefix & rest & Hd & -> & E).
    rewrite map_app in E. apply map_eq_app in E.
    destruct E as (a & b & -> & Ea & Eb).
    exists (a ++ b), rest. split; [reflexivity | ].
    split; [ | reflexivity].
    exists a, b. split; [reflexivity | ].
    split; [apply Lang_alts_str; exists dir; auto | ].
    change (Lang true (RegExp.str (lit "/")) b). apply Lang_str, Eb.
Qed.

Lemma COMMON_SOURCE_DIRS_REGEX_spec p :
  RegExp.test COMMON_SOURCE_DIRS_REGEX p = true
  <-> under_directory commonSourceDirs p.
Proof.
  exact (test_directory_prefix (lit "src")
           (map lit ["lib"; "app"; "source"; "sources"; "include"; "pkg";
                     "cmd"; "internal"; "core"; "main"; "server";
                     "client"]%string) p).
Qed.

Lemma TEST_DIRS_REGEX_spec p :
  RegExp.test TEST_DIRS_REGEX p = true <-> under_directory testDirs p.
Proof.
  exact (test_directory_prefix (lit "test")
           (map lit ["tests"; "spec"; "e2e"]%string) p).
Qed.

Lemma DOCS_DIRS_REGEX_spec p :
  RegExp.test DOCS_DIRS_REGEX p = true <-> under_directory docsDirs p.
Proof.
  exact (test_directory_prefix (lit "doc")
           (map lit ["docs"; "documentation"; "examples"]%string) p).
Qed.

Lemma not_true_iff_false_of (b : bool) (P : Prop) :
  (b = true <-> P) -> ~ P -> b = false.
Proof. intros H N. destruct b; [destruct N; apply H; reflexivity | reflexivity]. Qed.

(** X1.  A file named [LICENSE] or [COPYING], with an optional [.md],
    [.txt] or [.rst] suffix and in any letter case, is classified in
    tier 2 whatever its path. *)
Theorem license_name_is_tier_2 {rt : Runtime} (file : File.t) :
  license_name (File.name file) -> getFilePriority file = 2%Z.
Proof.
  intros H. unfold getFilePriority.
  rewrite (not_true_iff_false_of (README_FILES_REGEX_spec (File.name file))
             (license_name_is_not_readme_name H)).
  apply LICENSE_FILES_REGEX_spec in H. rewrite H. reflexivity.
Qed.

Lemma license_name_is_tier_2_witness :
  getFilePriority (rt := Example.runtime)
    (Example.file "Copying.TXT" "src/main/Copying.TXT" None None None) = 2%Z.
Proof.
  apply (@license_name_is_tier_2 Example.runtime
           (Example.file "Copying.TXT" "src/main/Copying.TXT" None None None)).
  exists (lit "COPYING"), (lit ".txt").
  split; [cbn; auto | split; [cbn; auto | reflexivity]].
Defined.

(** X2.  The classifier only hands out the tiers 1, 2, 3, 4, 5, 6, 7
    and 10.  The tiers up to 3 go to exactly the files that the
    selection loop treats as priority files (README, manifest or
    license names: the files it never skips for their size), and the
    tiers 4 to 7 only to paths that, in lower case, end with a source
    extension. *)
Theorem getFilePriority_tiers {rt : Runtime} (file : File.t) :
  In (getFilePriority file) tiers
  /\ ((getFilePriority file <= 3)%Z
      <-> isPriorityFile (File.name file) = true)
  /\ ((4 <= getFilePriority file <= 7)%Z ->
      hasSourceExtension (toLowerCase (File.path file)) = true).
Proof.
  unfold getFilePriority, isPriorityFile, tiers.
  destruct (RegExp.test README_FILES_REGEX (File.name file));
    [cbn; intuition lia | ].
  destruct (RegExp.test LICENSE_FILES_REGEX (File.name file));
    [rewrite orb_true_r; cbn; intuition lia | ].
  destruct (RegExp.test MANIFEST_FILES_REGEX (File.name file));
    [cbn; intuition lia | ].
  cbn [orb].
  destruct (hasSourceExtension (toLowerCase (File.path file)));
    [ | rewrite andb_false_r; cbn; intuition (lia || discriminate)].
  destruct (RegExp.test COMMON_SOURCE_DIRS_REGEX _);
    [cbn; intuition (lia || discriminate) | ].
  destruct (includes _ _ || includes _ _ || includes _ _ || includes _ _);
    [cbn; intuition (lia || discriminate) | ].
  destruct (RegExp.test TEST_DIRS_REGEX _), (RegExp.test DOCS_DIRS_REGEX _);
    cbn; intuition (lia || discriminate).
Qed.

(** X3.  The decision table of the classifier for a file whose name is
    not a README, manifest or license name, on the lower-cased path
    [p].  Without a source extension the tier is 10, even under a
    documentation directory.  With one: 4 under a conventional source
    directory; otherwise 5 when the path contains [main], [app],
    [index] or [config]; otherwise 7 under a documentation directory,
    10 under a test directory, and 6 elsewhere. *)
Theorem getFilePriority_table {rt : Runtime} (file : File.t) :
  isPriorityFile (File.name file) = false ->
  let p := toLowerCase (File.path file) in
  (hasSourceExtension p = false -> getFilePriority file = 10%Z)
  /\ (hasSourceExtension p = true ->
      (under_directory commonSourceDirs p -> getFilePriority file = 4%Z)
      /\ (~ under_directory commonSourceDirs p ->
          (hasEntryPointHint p = true -> getFilePriority file = 5%Z)
          /\ (hasEntryPointHint p = false ->
              (under_directory docsDirs p -> getFilePriority file = 7%Z)
              /\ (~ under_directory docsDirs p ->
                  (under_directory testDirs p -> getFilePriority file = 10%Z)
                  /\ (~ under_directory testDirs p ->
                      getFilePriority file = 6%Z))))).
Proof.
  intros Hprio p. unfold isPriorityFile in Hprio.
  apply orb_false_iff in Hprio. destruct Hprio as [Hprio Hl].
  apply orb_false_iff in Hprio. destruct Hprio as [Hr Hm].
  unfold getFilePriority. fold p. rewrite Hr, Hl, Hm.
  split.
  - intros ->. rewrite andb_false_r. reflexivity.
  - intros ->. split.
    + intros Hc. apply COMMON_SOURCE_DIRS_REGEX_spec in Hc. rewrite Hc.
      reflexivity.
    + intros Hc.
      rewrite (not_true_iff_false_of (COMMON_SOURCE_DIRS_REGEX_spec p) Hc).
      unfold hasEntryPointHint. split.
      * intros ->. reflexivity.
      * intros ->. split.
        -- intros Hd. apply DOCS_DIRS_REGEX_spec in Hd. rewrite Hd.
           rewrite andb_false_r. reflexivity.
        -- intros Hd.
           rewrite (not_true_iff_false_of (DOCS_DIRS_REGEX_spec p) Hd).
           split.
           ++ intros Ht. apply TEST_DIRS_REGEX_spec in Ht. rewrite Ht.
              reflexivity.
           ++ intros Ht.
              rewrite (not_true_iff_false_of (TEST_DIRS_REGEX_spec p) Ht).
              reflexivity.
Qed.

Lemma getFilePriority_table_witness :
  getFilePriority (rt := Example.runtime)
    (Example.file "Parser.Test.TS" "Tests/Parser.Test.TS" None None None)
  = 10%Z
  /\ getFilePriority (rt := Example.runtime)
       (Example.file "guide.md" "docs/guide.md" None None None) = 10%Z.
Proof.
  split.
  - destruct (@getFilePriority_table Example.runtime
                (Example.file "Parser.Test.TS" "Tests/Parser.Test.TS"
                   None None None) eq_refl) as (_ & H).
    destruct (H eq_refl) as (_ & H1).
    assert (Nc : ~ under_directory commonSourceDirs
                   (lit "tests/parser.test.ts")).
    { intros Hu. apply COMMON_SOURCE_DIRS_REGEX_spec in Hu.
      vm_compute in Hu. discriminate Hu. }
    assert (Nd : ~ under_directory docsDirs (lit "tests/parser.test.ts")).
    { intros Hu. apply DOCS_DIRS_REGEX_spec in Hu.
      vm_compute in Hu. discriminate Hu. }
    destruct (H1 Nc) as (_ & H2).
    destruct (H2 eq_refl) as (_ & H3).
    destruct (H3 Nd) as (H4 & _).
    apply H4. apply TEST_DIRS_REGEX_spec. reflexivity.
  - destruct (@getFilePriority_table Example.runtime
                (Example.file "guide.md" "docs/guide.md" None None None)
                eq_refl) as (H & _).
    exact (H eq_refl).
Defined.

(* ================================================================== *)
(** * Further properties of the selection engine *)

(** Sorting a list that is in ascending key order leaves it as it
    is. *)
Lemma sort_by_of_sorted {A} (key : A -> Z) (l : list A) :
  tier_sorted key l -> sort_by key l = l.
Proof.
  unfold tier_sorted. induction 1 as [ | x l _ IH Hx]; [reflexivity | ].
  cbn [sort_by]. rewrite IH.
  destruct l as [ | y l']; [reflexivity | ].
  cbn [insert_by]. inversion Hx as [ | ? ? Hy _]; subst.
  apply Z.leb_le in Hy. rewrite Hy. reflexivity.
Qed.

(** Ascending order is a matter of the keys alone. *)
Lemma tier_sorted_Forall2 {A} (key : A -> Z) (R : A -> A -> Prop)
    (l l' : list A) :
  (forall a b, R a b -> key b = key a) ->
  Forall2 R l l' -> tier_sorted key l -> tier_sorted key l'.
Proof.
  intros HR. unfold tier_sorted.
  induction 1 as [ | a b l l' Hab Hl IH]; intros Hs; [constructor | ].
  inversion Hs as [ | ? ? Hs' Ha]; subst.
  constructor; [apply IH, Hs' | ].
  clear IH Hs Hs'. induction Hl as [ | c d l l' Hcd _ IH'];
    [constructor | ].
  inversion Ha; subst. constructor; [ | apply IH'; assumption].
  rewrite (HR _ _ Hab), (HR _ _ Hcd). assumption.
Qed.

Section SelectionFurther.

Context {rt : Runtime} {net : Network}.

Variables (owner repo defaultBranch : jsstring) (headers : Headers).

Local Abbreviation step := (iteration owner repo defaultBranch headers).
Local Abbreviation run := (loop owner repo defaultBranch headers).
Local Abbreviation get file :=
  (fetchFileContent file owner repo defaultBranch headers).
Local Abbreviation select := (selectContents owner repo defaultBranch headers).
Local Abbreviation resolve file :=
  (resolveDownloadUrl file owner repo defaultBranch).

Lemma fetchFileContent_content_bound file tr text :
  Fetched.content (fst (get file tr)) = Some text ->
  List.length text <= MAX_ENTRY_CONTENT.
Proof.
  unfold fetchFileContent, MAX_ENTRY_CONTENT.
  remember (Z.to_nat MAX_FILE_CONTENT_LENGTH) as cap eqn:Ecap.
  destruct (resolve file) as [[ | c u] | ]; try discriminate.
  rewrite bind_run, fetch_run. cbn [fst snd].
  destruct (contentResponse _ _) as [message | status statusText body];
    [discriminate | ].
  destruct (ok status);
    [destruct body as [message | t] | destruct (status =? 404)%Z];
    try discriminate.
  destruct (Z.gtb_spec (Z.of_nat (List.length t)) MAX_FILE_CONTENT_LENGTH);
    cbn [fst ret Fetched.content]; intros Hc; injection Hc as <-.
  - unfold substring0. rewrite length_app.
    pose proof (firstn_le_length cap t). lia.
  - lia.
Qed.

(** The entry an iteration records for a fetch attempt, in full. *)
Lemma iteration_fetch_entry file st tr :
  (fetchedContentCount st <? MAX_FILES_FOR_CONTENT_FETCH) = true ->
  isLarge (File.size file) && negb (isPriorityFile (File.name file)) = false ->
  let r := fst (get file tr) in
  let entry :=
    if truthy (Fetched.error r)
    then File.set_error (Fetched.error r)
           (File.set_content (Fetched.content r) file)
    else File.set_content (Fetched.content r) file in
  step file st tr
  = (if truthy (Fetched.content r) && negb (truthy (Fetched.error r))
     then increment (push entry st) else push entry st,
     snd (get file tr)).
Proof.
  intros H L. unfold iteration. rewrite H, L, bind_run. cbn zeta.
  destruct (truthy (Fetched.content (fst (get file tr)))
            && negb (truthy (Fetched.error (fst (get file tr)))));
    reflexivity.
Qed.

Lemma or_else_truthy a b : nonempty b = true -> nonempty (or_else a b) = true.
Proof. destruct a as [[ | c s] | ]; auto. Qed.

(** What one iteration adds to the list. *)
Lemma iteration_listing file st tr :
  exists added,
    repoContents (fst (step file st tr)) = repoContents st ++ added
    /\ Forall (same_file file) added
    /\ List.length added <= 1
    /\ (keptAfterLimit file = true -> List.length added = 1)
    /\ (fetchedContentCount (fst (step file st tr))
        < MAX_FILES_FOR_CONTENT_FETCH -> List.length added = 1)
    /\ fetchedContentCount st <= fetchedContentCount (fst (step file st tr))
    /\ Forall (fun e => content_length e <= MAX_ENTRY_CONTENT) added
    /\ (fresh file -> Forall populated_or_annotated added).
Proof.
  destruct (fetchedContentCount st <? MAX_FILES_FOR_CONTENT_FETCH) eqn:B.
  - destruct (isLarge (File.size file)
              && negb (isPriorityFile (File.name file))) eqn:L.
    + apply andb_true_iff in L. destruct L as [L P].
      apply negb_true_iff in P.
      rewrite iteration_too_large by assumption.
      eexists. split; [reflexivity | ].
      repeat split; auto.
      * constructor; [repeat split | constructor].
      * constructor; [ | constructor]. unfold content_length. cbn. lia.
      * intros _. constructor; [ | constructor]. right.
        split; reflexivity.
    + rewrite (iteration_fetch_entry file st tr B L). cbn zeta.
      pose proof (fetchFileContent_shape file owner repo defaultBranch
                    headers tr) as S.
      pose proof (fetchFileContent_content_bound file tr) as Bd.
      cbn zeta in S.
      destruct (fst (get file tr)) as [content error].
      cbn [Fetched.content Fetched.error] in *.
      exists [if truthy error
              then File.set_error error (File.set_content content file)
              else File.set_content content file].
      split; [destruct (truthy content && negb (truthy error)); reflexivity | ].
      split; [constructor; [ | constructor];
              destruct (truthy error); repeat split | ].
      split; [cbn; lia | ]. split; [reflexivity | ]. split; [reflexivity | ].
      split; [destruct (truthy content && negb (truthy error)); cbn; lia | ].
      split.
      * constructor; [ | constructor]. unfold content_length.
        destruct (truthy error); cbn [File.content File.set_content
                                        File.set_error];
          (destruct content as [text | ]; [apply Bd; reflexivity | lia]).
      * intros [_ Fe]. constructor; [ | constructor].
        destruct S as [[-> T] | [-> (text & ->)]].
        -- rewrite T. right. split; [reflexivity | exact T].
        -- cbn [truthy]. left. split; [exists text; reflexivity | exact Fe].
  - rewrite iteration_over_budget by exact B. apply Nat.ltb_ge in B.
    destruct (keptAfterLimit file).
    + exists [minimalFile file]. split; [reflexivity | ].
      split; [constructor; [repeat split | constructor] | ].
      repeat split; auto.
      * constructor; [ | constructor]. unfold content_length. cbn. lia.
      * intros _. constructor; [ | constructor]. right.
        split; [reflexivity | ]. unfold minimalFile.
        cbn [File.error File.set_error truthy].
        apply or_else_truthy. reflexivity.
    + exists []. cbn [fst]. rewrite app_nil_r.
      repeat split; auto; try discriminate; cbn; lia.
Qed.

(** What the whole loop adds to the list. *)
Lemma loop_listing files :
  forall st tr,
  exists added,
    repoContents (fst (run files st tr)) = repoContents st ++ added
    /\ Forall (fun e => exists f, In f files /\ same_file f e) added
    /\ (forall f, In f files -> keptAfterLimit f = true ->
        exists e, In e added /\ same_file f e)
    /\ List.length added <= List.length files
    /\ (fetchedContentCount (fst (run files st tr))
        < MAX_FILES_FOR_CONTENT_FETCH ->
        List.length added = List.length files)
    /\ fetchedContentCount st <= fetchedContentCount (fst (run files st tr))
    /\ Forall (fun e => content_length e <= MAX_ENTRY_CONTENT) added
    /\ (Forall fresh files -> Forall populated_or_annotated added).
Proof.
  induction files as [ | file files IH]; intros st tr.
  - exists []. cbn. rewrite app_nil_r. repeat split; auto. intros f [].
  - rewrite loop_cons.
    destruct (iteration_listing file st tr)
      as (a1 & E1 & S1 & L1 & K1 & C1 & M1 & B1 & P1).
    destruct (IH (fst (step file st tr)) (snd (step file st tr)))
      as (a2 & E2 & S2 & K2 & L2 & C2 & M2 & B2 & P2).
    exists (a1 ++ a2). rewrite E2, E1, app_assoc.
    split; [reflexivity | ].
    split.
    { apply Forall_app. split.
      - eapply Forall_impl; [ | exact S1]. intros e He.
        exists file. split; [left; reflexivity | exact He].
      - eapply Forall_impl; [ | exact S2]. intros e (f & Hf & He).
        exists f. split; [right; exact Hf | exact He]. }
    split.
    { intros f [<- | Hf] Hk.
      - specialize (K1 Hk). destruct a1 as [ | e [ | ]]; try discriminate K1.
        exists e. split; [left; reflexivity | ].
        inversion S1; assumption.
      - destruct (K2 f Hf Hk) as (e & He & Hs).
        exists e. split; [apply in_or_app; right; exact He | exact Hs]. }
    split; [rewrite length_app; cbn; lia | ].
    split.
    { intros Hlt. rewrite length_app. cbn.
      rewrite (C2 Hlt), C1 by lia. reflexivity. }
    split; [lia | ].
    split; [apply Forall_app; auto | ].
    intros Hfresh. inversion Hfresh; subst. apply Forall_app. auto.
Qed.

(** The requests one iteration makes. *)
Lemma iteration_requests file st tr :
  exists requests,
    snd (step file st tr) = tr ++ requests
    /\ List.length requests <= 1
    /\ Forall (fun rq => req_headers rq = headers
                         /\ resolve file = Some (req_url rq)) requests.
Proof.
  destruct (fetchedContentCount st <? MAX_FILES_FOR_CONTENT_FETCH) eqn:B.
  - destruct (isLarge (File.size file)
              && negb (isPriorityFile (File.name file))) eqn:L.
    + apply andb_true_iff in L. destruct L as [L P].
      apply negb_true_iff in P.
      rewrite iteration_too_large by assumption.
      exists []. cbn. rewrite app_nil_r. auto.
    + rewrite (iteration_fetch_entry file st tr B L). cbn [snd].
      destruct (truthy (resolve file)) eqn:T.
      * destruct (fetchFileContent_requests file owner repo defaultBranch
                    headers tr T) as (url & Hurl & ->).
        eexists. split; [reflexivity | ]. split; [cbn; lia | ].
        constructor; [ | constructor]. cbn. auto.
      * rewrite (fetchFileContent_no_url file owner repo defaultBranch
                   headers tr T).
        exists []. cbn. rewrite app_nil_r. auto.
  - rewrite iteration_over_budget by exact B.
    exists []. cbn. rewrite app_nil_r. auto.
Qed.

Lemma loop_requests files :
  forall st tr,
  exists requests,
    snd (run files st tr) = tr ++ requests
    /\ List.length requests <= List.length files
    /\ Forall (fun rq => req_headers rq = headers
                         /\ exists f, In f files
                                      /\ resolve f = Some (req_url rq))
         requests.
Proof.
  induction files as [ | file files IH]; intros st tr.
  - exists []. cbn. rewrite app_nil_r. auto.
  - rewrite loop_cons.
    destruct (iteration_requests file st tr) as (r1 & E1 & L1 & F1).
    destruct (IH (fst (step file st tr)) (snd (step file st tr)))
      as (r2 & E2 & L2 & F2).
    exists (r1 ++ r2). rewrite E2, E1, app_assoc.
    split; [reflexivity | ].
    split; [rewrite length_app; cbn; lia | ].
    apply Forall_app. split.
    + eapply Forall_impl; [ | exact F1]. intros rq (Hh & Hr).
      split; [exact Hh | ]. exists file. split; [left; reflexivity | exact Hr].
    + eapply Forall_impl; [ | exact F2]. intros rq (Hh & f & Hf & Hr).
      split; [exact Hh | ]. exists f. split; [right; exact Hf | exact Hr].
Qed.

Lemma filesOnly_length all :
  List.length (filesOnly all) = List.length (filter isFile all).
Proof.
  unfold filesOnly. apply Permutation_length, sort_by_perm.
Qed.

Lemma selectContents_length all tr :
  List.length (fst (select all tr))
  = List.length (repoContents (fst (run (filesOnly all) initialState tr))).
Proof.
  rewrite selectContents_run. cbn [fst].
  apply Permutation_length, sort_by_perm.
Qed.

(** X4.  The selection engine lists and requests nothing but files of
    the inventory.  Every entry of its result stands for an inventory
    entry of type [file] with a non-empty path, all of whose fields
    but [content] and [error] it keeps; there are at most as many
    entries as the inventory has such files; at most that many
    requests are made, each with the given headers and each to the
    download URL resolved for one of these files. *)
Theorem selectContents_stays_within_the_inventory
    (all : list File.t) (tr : Trace) :
  Forall (fun e => exists f, In f all /\ isFile f = true /\ same_file f e)
    (fst (select all tr))
  /\ List.length (fst (select all tr)) <= List.length (filter isFile all)
  /\ exists requests,
       snd (select all tr) = tr ++ requests
       /\ List.length requests <= List.length (filter isFile all)
       /\ Forall (fun rq =>
                    req_headers rq = headers
                    /\ exists f, In f all /\ isFile f = true
                                 /\ resolve f = Some (req_url rq))
            requests.
Proof.
  destruct (loop_listing (filesOnly all) initialState tr)
    as (added & E & S & _ & L & _).
  cbn [repoContents initialState app] in E.
  destruct (loop_requests (filesOnly all) initialState tr)
    as (requests & Er & Lr & Fr).
  split; [ | split].
  - apply Forall_forall. intros e He.
    rewrite selectContents_run in He. cbn [fst] in He.
    apply In_sort_by in He. rewrite E in He.
    rewrite Forall_forall in S. destruct (S e He) as (f & Hf & Hs).
    apply In_filesOnly in Hf. exists f. tauto.
  - rewrite selectContents_length, E, <- filesOnly_length. exact L.
  - exists requests. rewrite selectContents_run. cbn [snd].
    split; [exact Er | ]. split; [rewrite <- filesOnly_length; exact Lr | ].
    eapply Forall_impl; [ | exact Fr]. intros rq (Hh & f & Hf & Hr).
    apply In_filesOnly in Hf. split; [exact Hh | ]. exists f. tauto.
Qed.

(** X5.  A file of the inventory that has a README, manifest or
    license name, or whose path ends with a source extension, is never
    left out: whatever the budget and the outcome of the downloads,
    the result has an entry for it. *)
Theorem relevant_files_are_always_listed
    (all : list File.t) (tr : Trace) (f : File.t) :
  In f all -> isFile f = true -> keptAfterLimit f = true ->
  exists e, In e (fst (select all tr)) /\ same_file f e.
Proof.
  intros Hin Hfile Hkept.
  destruct (loop_listing (filesOnly all) initialState tr)
    as (added & E & _ & K & _).
  cbn [repoContents initialState app] in E.
  assert (Hf : In f (filesOnly all)).
  { unfold filesOnly. apply In_sort_by, filter_In. auto. }
  destruct (K f Hf Hkept) as (e & He & Hs).
  exists e. split; [ | exact Hs].
  rewrite selectContents_run. cbn [fst]. apply In_sort_by.
  rewrite E. exact He.
Qed.

(** The classifier reads the name and the path of an entry and nothing
    else. *)
Lemma getFilePriority_same_file (f e : File.t) :
  same_file f e -> getFilePriority e = getFilePriority f.
Proof.
  intros (Hn & Hp & _). unfold getFilePriority. rewrite Hn, Hp. reflexivity.
Qed.

(** While budget remains at the end of the loop, every file got its
    own entry, in the order of the files. *)
Lemma loop_listing_within_budget files :
  forall st tr,
    fetchedContentCount (fst (run files st tr)) < MAX_FILES_FOR_CONTENT_FETCH ->
    exists added,
      repoContents (fst (run files st tr)) = repoContents st ++ added
      /\ Forall2 same_file files added.
Proof.
  induction files as [ | file files IH]; intros st tr Hlt.
  - exists []. cbn. rewrite app_nil_r. split; [reflexivity | constructor].
  - rewrite loop_cons in Hlt |- *.
    destruct (loop_listing files (fst (step file st tr))
                (snd (step file st tr)))
      as (_ & _ & _ & _ & _ & _ & M & _).
    destruct (iteration_listing file st tr)
      as (a1 & E1 & S1 & _ & _ & C1 & _).
    assert (L1 : List.length a1 = 1) by (apply C1; lia).
    destruct a1 as [ | e [ | ]]; try discriminate L1.
    inversion S1 as [ | ? ? He _]; subst.
    destruct (IH _ _ Hlt) as (a2 & E2 & F2).
    exists (e :: a2). rewrite E2, E1, <- app_assoc.
    split; [reflexivity | constructor; assumption].
Qed.

(** X6.  As long as fewer than [MAX_FILES_FOR_CONTENT_FETCH] entries
    of the result carry non-empty content, nothing was dropped and
    nothing was listed twice: the result has exactly one entry for
    every file of the inventory.  Position by position, the entries
    of the result stand for the files of the inventory taken in the
    order of the loop, [filesOnly] (the entries of type [file] with a
    non-empty path, a rearrangement of them by ascending tier): each
    entry keeps all the fields of its file but [content] and [error];
    so the result has as many entries as the inventory has files. *)
Theorem nothing_is_dropped_within_budget (all : list File.t) (tr : Trace) :
  count_if carriesText (fst (select all tr)) < MAX_FILES_FOR_CONTENT_FETCH ->
  Forall2 same_file (filesOnly all) (fst (select all tr))
  /\ Permutation (filesOnly all) (filter isFile all)
  /\ List.length (fst (select all tr)) = List.length (filter isFile all).
Proof.
  intros Hlt.
  destruct (loop_invariant owner repo defaultBranch headers
              (filesOnly all) tr initialState_invariant) as [Hc _].
  rewrite selectContents_run in Hlt. cbn [fst] in Hlt.
  rewrite (count_if_perm carriesText (sort_by_perm getFilePriority _)) in Hlt.
  rewrite Hc in Hlt.
  destruct (loop_listing_within_budget (filesOnly all) initialState tr Hlt)
    as (added & E & F).
  cbn [repoContents initialState app] in E.
  assert (P : Permutation (filesOnly all) (filter isFile all))
    by (unfold filesOnly; apply sort_by_perm).
  assert (R : fst (select all tr) = added).
  { rewrite selectContents_run. cbn [fst]. rewrite E.
    apply sort_by_of_sorted.
    eapply tier_sorted_Forall2;
      [exact getFilePriority_same_file | exact F | ].
    unfold filesOnly. apply sort_by_sorted. }
  rewrite R. split; [exact F | split; [exact P | ]].
  rewrite <- (Forall2_length F). apply Permutation_length, P.
Qed.

Lemma total_content_length_bound (l : list File.t) :
  Forall (fun e => content_length e <= MAX_ENTRY_CONTENT) l ->
  total_content_length l <= count_if carriesText l * MAX_ENTRY_CONTENT.
Proof.
  unfold total_content_length, count_if.
  induction 1 as [ | e l He _ IH]; [reflexivity | ].
  cbn [map list_sum fold_right filter].
  change (fold_right Nat.add 0 (map content_length l))
    with (list_sum (map content_length l)).
  unfold carriesText at 1. unfold content_length in He |- * at 1.
  destruct (File.content e) as [[ | c text] | ]; cbn [truthy nonempty length];
    cbn [List.length] in *; rewrite ?Nat.mul_succ_l; lia.
Qed.

(** X7.  The result is bounded in size: no entry carries more than the
    cap plus the truncation marker (20029 code units), and all the
    entries together carry at most
    [MAX_FILES_FOR_CONTENT_FETCH] times that. *)
Theorem selected_content_is_bounded (all : list File.t) (tr : Trace) :
  Forall (fun e => content_length e <= MAX_ENTRY_CONTENT)
    (fst (select all tr))
  /\ total_content_length (fst (select all tr))
     <= MAX_FILES_FOR_CONTENT_FETCH * MAX_ENTRY_CONTENT.
Proof.
  destruct (loop_listing (filesOnly all) initialState tr)
    as (added & E & _ & _ & _ & _ & _ & B & _).
  cbn [repoContents initialState app] in E.
  assert (F : Forall (fun e => content_length e <= MAX_ENTRY_CONTENT)
                (fst (select all tr))).
  { rewrite selectContents_run. cbn [fst].
    eapply Permutation_Forall; [symmetry; apply sort_by_perm | ].
    rewrite E. exact B. }
  split; [exact F | ].
  pose proof (total_content_length_bound F) as T.
  pose proof (selectContents_within_budget owner repo defaultBranch headers
                all tr) as W.
  eapply Nat.le_trans; [exact T | ].
  apply Nat.mul_le_mono_r. exact W.
Qed.

Lemma getFilePriority_is_1 (file : File.t) :
  getFilePriority file = 1%Z
  <-> RegExp.test README_FILES_REGEX (File.name file) = true.
Proof.
  unfold getFilePriority.
  destruct (RegExp.test README_FILES_REGEX (File.name file));
    [tauto | ].
  destruct (RegExp.test LICENSE_FILES_REGEX (File.name file));
    [split; discriminate | ].
  destruct (RegExp.test MANIFEST_FILES_REGEX (File.name file));
    [split; discriminate | ].
  destruct (hasSourceExtension (toLowerCase (File.path file)));
    [ | rewrite andb_false_r; split; discriminate].
  destruct (RegExp.test COMMON_SOURCE_DIRS_REGEX _); [split; discriminate | ].
  destruct (includes _ _ || includes _ _ || includes _ _ || includes _ _);
    [split; discriminate | ].
  destruct (RegExp.test TEST_DIRS_REGEX _), (RegExp.test DOCS_DIRS_REGEX _);
    split; discriminate.
Qed.

Lemma getFilePriority_ge_1 (file : File.t) : (1 <= getFilePriority file)%Z.
Proof.
  unfold getFilePriority.
  repeat match goal with
         | |- context [if ?b then _ else _] => destruct b
         end; cbn; lia.
Qed.

(** X8.  The result of the selection engine is always in ascending
    tier order.  In particular, when the inventory has a file with a
    README name, the first entry of the result is one with a README
    name (tier 1). *)
Theorem selected_contents_are_sorted_readme_first
    (all : list File.t) (tr : Trace) :
  tier_sorted getFilePriority (fst (select all tr))
  /\ forall f,
       In f all -> isFile f = true -> readme_name (File.name f) ->
       exists e rest,
         fst (select all tr) = e :: rest
         /\ getFilePriority e = 1%Z
         /\ readme_name (File.name e).
Proof.
  assert (S : tier_sorted getFilePriority (fst (select all tr))).
  { rewrite selectContents_run. apply sort_by_sorted. }
  split; [exact S | ].
  intros f Hin Hfile Hname. apply README_FILES_REGEX_spec in Hname.
  assert (Hkept : keptAfterLimit f = true).
  { unfold keptAfterLimit. rewrite Hname. reflexivity. }
  destruct (loop_listing (filesOnly all) initialState tr)
    as (added & E & _ & K & _).
  cbn [repoContents initialState app] in E.
  assert (Hf : In f (filesOnly all)).
  { unfold filesOnly. apply In_sort_by, filter_In. auto. }
  destruct (K f Hf Hkept) as (e' & He' & (Hn & _)).
  assert (Hout : In e' (fst (select all tr))).
  { rewrite selectContents_run. cbn [fst]. apply In_sort_by.
    rewrite E. exact He'. }
  assert (P' : getFilePriority e' = 1%Z).
  { apply getFilePriority_is_1. rewrite Hn. exact Hname. }
  destruct (fst (select all tr)) as [ | e rest]; [destruct Hout | ].
  exists e, rest. split; [reflexivity | ].
  assert (P : getFilePriority e = 1%Z).
  { pose proof (getFilePriority_ge_1 e) as G.
    destruct Hout as [<- | Hr]; [exact P' | ].
    unfold tier_sorted in S. inversion S as [ | ? ? _ Hall]; subst.
    rewrite Forall_forall in Hall. specialize (Hall e' Hr). lia. }
  split; [exact P | ].
  apply README_FILES_REGEX_spec, getFilePriority_is_1, P.
Qed.

End SelectionFurther.

Lemma relevant_files_are_always_listed_witness :
  exists e,
    In e (fst (@selectContents Example.runtime
                 (Example.uniformRepository [] (lit "text"))
                 (lit "acme") (lit "widget") (lit "main") []
                 (Example.twelveFiles
                  ++ [Example.sourceFile "notes.txt";
                      Example.sourceFile "m.ts"]) []))
    /\ same_file (Example.sourceFile "m.ts") e.
Proof.
  apply (@relevant_files_are_always_listed Example.runtime
           (Example.uniformRepository [] (lit "text"))
           (lit "acme") (lit "widget") (lit "main") []
           (Example.twelveFiles
            ++ [Example.sourceFile "notes.txt"; Example.sourceFile "m.ts"])
           [] (Example.sourceFile "m.ts")).
  - cbn. auto 20.
  - reflexivity.
  - reflexivity.
Defined.

Lemma nothing_is_dropped_within_budget_witness :
  let all :=
    Example.twelveFiles
    ++ [Example.sourceFile "notes.txt"; Example.sourceFile "m.ts"] in
  let output :=
    fst (@selectContents Example.runtime Example.emptyRepository
           (lit "acme") (lit "widget") (lit "main") [] all []) in
  Forall2 same_file (filesOnly (rt := Example.runtime) all) output
  /\ List.length output = 14.
Proof.
  intros all output.
  destruct (@nothing_is_dropped_within_budget Example.runtime
              Example.emptyRepository
              (lit "acme") (lit "widget") (lit "main") [] all [])
    as (F & _ & L).
  - vm_compute. lia.
  - split; [exact F | ]. subst output. rewrite L. reflexivity.
Defined.

Lemma selected_contents_are_sorted_readme_first_witness :
  exists e rest,
    fst (@selectContents Example.runtime Example.emptyRepository
           (lit "acme") (lit "widget") (lit "main") []
           [Example.sourceFile "a.ts"; Example.sourceFile "LICENSE";
            Example.file "Readme.md" "docs/Readme.md" None None None] [])
    = e :: rest
    /\ getFilePriority (rt := Example.runtime) e = 1%Z.
Proof.
  destruct (@selected_contents_are_sorted_readme_first Example.runtime
              Example.emptyRepository
              (lit "acme") (lit "widget") (lit "main") []
              [Example.sourceFile "a.ts"; Example.sourceFile "LICENSE";
               Example.file "Readme.md" "docs/Readme.md" None None None] [])
    as (_ & H).
  destruct (H (Example.file "Readme.md" "docs/Readme.md" None None None))
    as (e & rest & E & P & _).
  - cbn. auto.
  - reflexivity.
  - exists (lit ".md"). split; [cbn; auto | reflexivity].
  - exists e, rest. auto.
Defined.

(* ================================================================== *)
(** * Further properties of the handler *)

Lemma includes_app_right (a b sub : jsstring) :
  includes b sub = true -> includes (a ++ b) sub = true.
Proof.
  intros H. induction a as [ | c a IH]; [exact H | ].
  cbn [app includes]. rewrite IH. apply orb_true_r.
Qed.

Lemma eqb_eq (s t : jsstring) : JS.eqb s t = true <-> s = t.
Proof.
  revert t. induction s as [ | c s IH]; intros [ | d t]; cbn;
    try (split; (reflexivity || discriminate)).
  rewrite andb_true_iff, N.eqb_eq, IH. split.
  - intros [-> ->]. reflexivity.
  - intros H. injection H as -> ->. auto.
Qed.

Section HandlerFurther.

Context {rt : Runtime} {net : Network}.

Lemma parseRepoUrl_message repoUrl message :
  parseRepoUrl repoUrl = inl message -> nonempty message = true.
Proof.
  unfold parseRepoUrl.
  destruct (URL_pathname repoUrl) as [m | pathname].
  - intros H. injection H as <-. reflexivity.
  - destruct (_ <? 2); [ | discriminate].
    intros H. injection H as <-. reflexivity.
Qed.

Lemma fetchRepoDetails_trace owner repo headers tr :
  snd (fetchRepoDetails owner repo headers tr)
  = tr ++ [repoRequest owner repo headers].
Proof.
  unfold fetchRepoDetails. rewrite bind_run, fetch_run. cbn [fst snd].
  destruct (repoDetailsResponse _ _) as [m | status statusText body];
    [reflexivity | ].
  destruct (ok status); [destruct body | ]; reflexivity.
Qed.

Lemma fetchRepoDetails_message owner repo headers tr message :
  fst (fetchRepoDetails owner repo headers tr) = inl message ->
  nonempty message = true.
Proof.
  unfold fetchRepoDetails. rewrite bind_run, fetch_run. cbn [fst snd].
  destruct (repoDetailsResponse _ _) as [m | status statusText body].
  - intros H. injection H as <-. reflexivity.
  - destruct (ok status); [destruct body as [m | d] | ]; cbn [negb fst ret].
    + intros H. injection H as <-. reflexivity.
    + discriminate.
    + intros H. injection H as <-.
      destruct (status =? 404)%Z; [reflexivity | ].
      destruct ((status =? 401)%Z || (status =? 403)%Z); reflexivity.
Qed.

Lemma fetchTree_message owner repo defaultBranch headers tr message :
  fst (fetchTree owner repo defaultBranch headers tr) = inl message ->
  nonempty message = true.
Proof.
  unfold fetchTree. rewrite bind_run, fetch_run. cbn [fst snd].
  destruct (treeResponse _ _) as [m | status statusText body].
  - intros H. injection H as <-. reflexivity.
  - destruct (ok status).
    + destruct body as [m | d]; [ | discriminate].
      intros H. injection H as <-. reflexivity.
    + rewrite bind_run, fetch_run. cbn [fst snd].
      destruct (contentsResponse _ _) as [m | status2 statusText2 body2].
      * intros H. injection H as <-. reflexivity.
      * destruct (ok status2); [destruct body2 as [m | d] | ].
        -- intros H. injection H as <-. reflexivity.
        -- discriminate.
        -- intros H. injection H as <-. reflexivity.
Qed.

Lemma fetchTree_requests owner repo defaultBranch headers tr :
  exists later,
    snd (fetchTree owner repo defaultBranch headers tr)
    = tr ++ treeRequest owner repo defaultBranch headers :: later
    /\ Forall (fun rq => req_headers rq = headers) later.
Proof.
  unfold fetchTree. rewrite bind_run, fetch_run. cbn [fst snd].
  fold (treeRequest owner repo defaultBranch headers).
  destruct (treeResponse _ _) as [m | status statusText body].
  - exists []. auto.
  - destruct (ok status).
    + exists []. destruct body; auto.
    + rewrite bind_run, fetch_run. cbn [fst snd].
      fold (contentsRequest owner repo defaultBranch headers).
      exists [contentsRequest owner repo defaultBranch headers].
      rewrite <- app_assoc.
      split; [ | repeat constructor].
      destruct (contentsResponse _ _) as [m | status2 statusText2 body2];
        [reflexivity | ].
      destruct (ok status2); [destruct body2 | ]; reflexivity.
Qed.

Lemma fetchContributors_trace owner repo headers tr :
  snd (fetchContributors owner repo headers tr)
  = tr ++ [contributorsRequest owner repo headers].
Proof.
  unfold fetchContributors. rewrite bind_run, fetch_run. cbn [fst snd].
  destruct (contributorsResponse _ _) as [ | status ? [ | [ | ]]];
    try reflexivity.
  destruct (ok status); reflexivity.
Qed.

(** The handler, step by step. *)
Lemma fetchRepoInfoTool_run input tr :
  match parseRepoUrl (Input.repoUrl input) with
  | inl message => fetchRepoInfoTool input tr = (Output.failure message input, tr)
  | inr (owner, repo) =>
      let headers := requestHeaders (Input.githubToken input) in
      let tr1 := tr ++ [repoRequest owner repo headers] in
      match fst (fetchRepoDetails owner repo headers tr) with
      | inl message =>
          fetchRepoInfoTool input tr = (Output.failure message input, tr1)
      | inr repoDetails =>
          let branch := defaultBranchOf repoDetails in
          match fst (fetchTree owner repo branch headers tr1) with
          | inl message =>
              fetchRepoInfoTool input tr
              = (Output.failure message input,
                 snd (fetchTree owner repo branch headers tr1))
          | inr all =>
              let selected :=
                selectContents owner repo branch headers all
                  (snd (fetchTree owner repo branch headers tr1)) in
              fetchRepoInfoTool input tr
              = ({| Output.repoName := rd_name repoDetails;
                    Output.description := rd_description repoDetails;
                    Output.mainLanguage := rd_language repoDetails;
                    Output.repoContents :=
                      match fst selected with
                      | [] => None
                      | _ :: _ => Some (fst selected)
                      end;
                    Output.contributors :=
                      fst (fetchContributors owner repo headers (snd selected));
                    Output.error := None;
                    Output.toolInput := Some input |},
                 snd selected ++ [contributorsRequest owner repo headers])
          end
      end
  end.
Proof.
  unfold fetchRepoInfoTool.
  destruct (parseRepoUrl (Input.repoUrl input)) as [message | [owner repo]];
    [reflexivity | ].
  cbn zeta. rewrite bind_run, fetchRepoDetails_trace.
  destruct (fst (fetchRepoDetails owner repo _ tr)) as [message | details];
    [reflexivity | ].
  fold (defaultBranchOf details). rewrite bind_run.
  destruct (fst (fetchTree owner repo _ _ _)) as [message | all];
    [reflexivity | ].
  rewrite !bind_run, ret_run, fetchContributors_trace. reflexivity.
Qed.

(** X9.  A URL that cannot be parsed, or whose path has fewer than two
    non-empty segments, is refused before any request is made; any
    other URL leads to a first request for the repository's details.
    So the handler makes no request exactly when it refuses the
    URL. *)
Theorem no_request_exactly_for_a_refused_url (input : Input.t) (tr : Trace) :
  (forall message,
      parseRepoUrl (Input.repoUrl input) = inl message ->
      fetchRepoInfoTool input tr = (Output.failure message input, tr))
  /\ (forall owner repo,
         parseRepoUrl (Input.repoUrl input) = inr (owner, repo) ->
         exists later,
           snd (fetchRepoInfoTool input tr)
           = tr ++ repoRequest owner repo
                     (requestHeaders (Input.githubToken input)) :: later)
  /\ (snd (fetchRepoInfoTool input tr) = tr
      <-> exists message, parseRepoUrl (Input.repoUrl input) = inl message).
Proof.
  pose proof (fetchRepoInfoTool_run input tr) as R.
  assert (Hok : forall owner repo,
             parseRepoUrl (Input.repoUrl input) = inr (owner, repo) ->
             exists later,
               snd (fetchRepoInfoTool input tr)
               = tr ++ repoRequest owner repo
                         (requestHeaders (Input.githubToken input)) :: later).
  { intros owner repo E. rewrite E in R. cbn zeta in R.
    destruct (fst (fetchRepoDetails owner repo _ tr)) as [m | details].
    - rewrite R. exists []. reflexivity.
    - destruct (fetchTree_requests owner repo (defaultBranchOf details)
                  (requestHeaders (Input.githubToken input))
                  (tr ++ [repoRequest owner repo
                            (requestHeaders (Input.githubToken input))]))
        as (later & Et & _).
      destruct (fst (fetchTree owner repo _ _ _)) as [m | all].
      + rewrite R, Et. cbn [snd]. rewrite <- app_assoc.
        eexists. reflexivity.
      + rewrite R. cbn [snd]. rewrite selectContents_run. cbn [snd].
        destruct (loop_trace_extends owner repo (defaultBranchOf details)
                    (requestHeaders (Input.githubToken input))
                    (filesOnly all) initialState
                    (snd (fetchTree owner repo (defaultBranchOf details)
                            (requestHeaders (Input.githubToken input))
                            (tr ++ [repoRequest owner repo
                                      (requestHeaders
                                         (Input.githubToken input))]))))
          as (r1 & E1).
        rewrite E1, Et, <- !app_assoc. eexists. reflexivity. }
  split; [ | split; [exact Hok | ]].
  - intros message E. rewrite E in R. exact R.
  - split.
    + intros Hsame.
      destruct (parseRepoUrl (Input.repoUrl input)) as [m | [owner repo]].
      * exists m. reflexivity.
      * destruct (Hok owner repo eq_refl) as (later & E).
        rewrite E in Hsame. apply (f_equal (@List.length _)) in Hsame.
        rewrite length_app in Hsame. cbn in Hsame. lia.
    + intros (message & E). rewrite E in R. rewrite R. reflexivity.
Qed.

(** X10.  A failed request for the repository's details (it throws, it
    is answered with a status that is not a success, or the body
    cannot be read) ends the run after that one request: the result
    is an error and nothing else.  For a status that is not a success
    the message names the likely cause: a wrong URL or a private
    repository for 404, authentication for 401 and 403, rate limits
    otherwise. *)
Theorem repository_details_failure_is_fatal
    (input : Input.t) (owner repo : jsstring) (tr : Trace) :
  parseRepoUrl (Input.repoUrl input) = inr (owner, repo) ->
  failed (repoDetailsResponse tr
            (repoRequest owner repo
               (requestHeaders (Input.githubToken input)))) ->
  exists message,
    fetchRepoInfoTool input tr
    = (Output.failure message input,
       tr ++ [repoRequest owner repo
                (requestHeaders (Input.githubToken input))])
    /\ forall status statusText body,
         repoDetailsResponse tr
           (repoRequest owner repo
              (requestHeaders (Input.githubToken input)))
         = Responds status statusText body ->
         ok status = false ->
         (status = 404%Z ->
          includes message (lit "invalid URL or a private repository") = true)
         /\ (status = 401%Z \/ status = 403%Z ->
             includes message (lit "Authentication failed") = true)
         /\ (status <> 404%Z -> status <> 401%Z -> status <> 403%Z ->
             includes message (lit "API rate limits") = true).
Proof.
  intros Hparse Hfail.
  pose proof (fetchRepoInfoTool_run input tr) as R.
  rewrite Hparse in R. cbn zeta in R.
  unfold fetchRepoDetails in R. rewrite bind_run, fetch_run in R.
  cbn [fst snd] in R.
  fold (repoRequest owner repo (requestHeaders (Input.githubToken input)))
    in R.
  destruct (repoDetailsResponse tr _) as [m | status statusText body].
  - eexists. split; [exact R | ]. intros ? ? ? E. discriminate E.
  - destruct (ok status) eqn:Hok.
    + destruct Hfail as [F | (m & ->)]; [congruence | ].
      eexists. split; [exact R | ]. intros ? ? ? E Hno.
      injection E as <- _ _. congruence.
    + eexists. split; [exact R | ].
      intros status' statusText' body' E _. injection E as <- <- <-.
      split; [ | split].
      * intros ->. cbn [Z.eqb Pos.eqb]. rewrite !app_assoc.
        apply includes_app_right. vm_compute. reflexivity.
      * intros [-> | ->]; cbn [Z.eqb Pos.eqb orb]; rewrite !app_assoc;
          apply includes_app_right; vm_compute; reflexivity.
      * intros N1 N2 N3.
        destruct (Z.eqb_spec status 404); [contradiction | ].
        destruct (Z.eqb_spec status 401); [contradiction | ].
        destruct (Z.eqb_spec status 403); [contradiction | ].
        cbn [orb]. rewrite !app_assoc.
        apply includes_app_right. vm_compute. reflexivity.
Qed.

End HandlerFurther.

Lemma no_request_exactly_for_a_refused_url_witness :
  snd (@fetchRepoInfoTool Example.runtime Example.emptyRepository
         (Example.input "https://github.com/acme") [])
  = [].
Proof.
  destruct (@no_request_exactly_for_a_refused_url
              Example.runtime Example.emptyRepository
              (Example.input "https://github.com/acme") [])
    as (H & _).
  rewrite (H _ eq_refl). reflexivity.
Defined.

Lemma repository_details_failure_is_fatal_witness :
  exists message,
    @fetchRepoInfoTool Example.runtime
      (Example.network (Example.status 403 "Forbidden")
         (Example.okTree []) (Example.status 500 "unused")
         (fun _ => Example.okText []))
      (Example.input "https://github.com/acme/widget") []
    = (Output.failure message
         (Example.input "https://github.com/acme/widget"),
       [repoRequest (lit "acme") (lit "widget") (requestHeaders None)])
    /\ includes message (lit "Authentication failed") = true.
Proof.
  destruct (@repository_details_failure_is_fatal Example.runtime
              (Example.network (Example.status 403 "Forbidden")
                 (Example.okTree []) (Example.status 500 "unused")
                 (fun _ => Example.okText []))
              (Example.input "https://github.com/acme/widget")
              (lit "acme") (lit "widget") [] eq_refl (or_introl eq_refl))
    as (message & E & D).
  exists message. split; [exact E | ].
  destruct (D 403%Z (lit "Forbidden") (inl (lit "body not read"))
              eq_refl eq_refl) as (_ & H & _).
  apply H. right. reflexivity.
Defined.

Section HandlerResults.

Context {rt : Runtime} {net : Network}.

(** X11.  The shape of the handler's result.  It always echoes its
    input.  When [error] is set, the message is not empty and nothing
    else is: no name, description, language, contents or
    contributors.  When [repoContents] is present it is not empty,
    and [error] is not set. *)
Theorem handler_result_shape (input : Input.t) (tr : Trace) :
  Output.toolInput (fst (fetchRepoInfoTool input tr)) = Some input
  /\ (forall message,
         Output.error (fst (fetchRepoInfoTool input tr)) = Some message ->
         nonempty message = true
         /\ fst (fetchRepoInfoTool input tr) = Output.failure message input)
  /\ (forall contents,
         Output.repoContents (fst (fetchRepoInfoTool input tr))
         = Some contents ->
         contents <> []
         /\ Output.error (fst (fetchRepoInfoTool input tr)) = None).
Proof.
  pose proof (fetchRepoInfoTool_run input tr) as R.
  destruct (parseRepoUrl (Input.repoUrl input)) as [m | [owner repo]] eqn:P.
  { rewrite R. cbn. split; [reflexivity | ]. split.
    - intros message E. injection E as <-.
      split; [eapply parseRepoUrl_message; exact P | reflexivity].
    - discriminate. }
  cbn zeta in R.
  destruct (fst (fetchRepoDetails owner repo _ tr)) as [m | details] eqn:D.
  { rewrite R. cbn. split; [reflexivity | ]. split.
    - intros message E. injection E as <-.
      split; [eapply fetchRepoDetails_message; exact D | reflexivity].
    - discriminate. }
  destruct (fst (fetchTree owner repo _ _ _)) as [m | all] eqn:T.
  { rewrite R. cbn. split; [reflexivity | ]. split.
    - intros message E. injection E as <-.
      split; [eapply fetchTree_message; exact T | reflexivity].
    - discriminate. }
  rewrite R. cbn [fst Output.toolInput Output.error Output.repoContents].
  split; [reflexivity | ]. split; [discriminate | ].
  intros contents E.
  destruct (fst (selectContents _ _ _ _ _ _)); [discriminate | ].
  injection E as <-. split; [discriminate | reflexivity].
Qed.

Lemma fetchContributors_failed owner repo headers tr :
  failed (contributorsResponse tr (contributorsRequest owner repo headers)) ->
  fst (fetchContributors owner repo headers tr) = None.
Proof.
  unfold fetchContributors. rewrite bind_run, fetch_run. cbn [fst snd].
  fold (contributorsRequest owner repo headers).
  destruct (contributorsResponse _ _) as [m | status statusText body];
    [reflexivity | ].
  intros [F | (m & ->)]; [ | reflexivity].
  destruct body as [m | [data | ]]; try reflexivity.
  rewrite F. reflexivity.
Qed.

(** X12.  A failure to fetch the contributors is never fatal.  Once
    the URL is parsed and the details and the file listing are
    fetched, the result has no [error] and carries the repository's
    name, description and language, whatever the answer to the
    contributors request; when that request fails the result merely
    has no contributors. *)
Theorem contributors_failure_is_not_fatal
    (input : Input.t) (owner repo : jsstring) (details : RepoDetails)
    (all : list File.t) (tr : Trace) :
  parseRepoUrl (Input.repoUrl input) = inr (owner, repo) ->
  fst (fetchRepoDetails owner repo
         (requestHeaders (Input.githubToken input)) tr) = inr details ->
  fst (fetchTree owner repo (defaultBranchOf details)
         (requestHeaders (Input.githubToken input))
         (tr ++ [repoRequest owner repo
                   (requestHeaders (Input.githubToken input))]))
  = inr all ->
  Output.error (fst (fetchRepoInfoTool input tr)) = None
  /\ Output.repoName (fst (fetchRepoInfoTool input tr)) = rd_name details
  /\ Output.description (fst (fetchRepoInfoTool input tr))
     = rd_description details
  /\ Output.mainLanguage (fst (fetchRepoInfoTool input tr))
     = rd_language details
  /\ exists before,
       snd (fetchRepoInfoTool input tr)
       = before ++ [contributorsRequest owner repo
                      (requestHeaders (Input.githubToken input))]
       /\ (failed
             (contributorsResponse before
                (contributorsRequest owner repo
                   (requestHeaders (Input.githubToken input)))) ->
           Output.contributors (fst (fetchRepoInfoTool input tr)) = None).
Proof.
  intros P D T.
  pose proof (fetchRepoInfoTool_run input tr) as R.
  rewrite P in R. cbn zeta in R. rewrite D, T in R. rewrite R.
  cbn [fst snd Output.error Output.repoName Output.description
         Output.mainLanguage Output.contributors].
  repeat (split; [reflexivity | ]).
  eexists. split; [reflexivity | ].
  apply fetchContributors_failed.
Qed.

Lemma filter_map_Forall {A B} (f : A -> option B) (P : B -> Prop) l :
  (forall x y, In x l -> f x = Some y -> P y) ->
  Forall P (filter_map f l).
Proof.
  induction l as [ | x l IH]; intros H; cbn; [constructor | ].
  destruct (f x) as [y | ] eqn:E.
  - constructor; [apply (H x y); [left; reflexivity | exact E] | ].
    apply IH. intros x' y' Hin. apply H. right. exact Hin.
  - apply IH. intros x' y' Hin. apply H. right. exact Hin.
Qed.

Lemma Forall_firstn_of {A} (P : A -> Prop) n l :
  Forall P l -> Forall P (firstn n l).
Proof.
  intros H. revert n. induction H as [ | x l Hx _ IH]; intros [ | n]; cbn;
    constructor; auto.
Qed.

(** X13.  The list of contributors, when there is one, has at most
    [MAX_CONTRIBUTORS_TO_FETCH] members; each of them has a non-empty
    login, avatar URL and profile URL, and is taken, field by field,
    from a record of the response that is not of type [Bot]. *)
Theorem contributors_are_filtered_and_bounded
    (owner repo : jsstring) (headers : Headers) (tr : Trace)
    (contributorsList : list Contributor.t) :
  fst (fetchContributors owner repo headers tr) = Some contributorsList ->
  (Z.of_nat (List.length contributorsList) <= MAX_CONTRIBUTORS_TO_FETCH)%Z
  /\ Forall (fun c =>
               nonempty (Contributor.login c) = true
               /\ nonempty (Contributor.avatar_url c) = true
               /\ nonempty (Contributor.html_url c) = true)
       contributorsList
  /\ exists status statusText contributorsData,
       contributorsResponse tr (contributorsRequest owner repo headers)
       = Responds status statusText (inr (Some contributorsData))
       /\ ok status = true
       /\ Forall (fun c =>
                    exists contrib,
                      In contrib contributorsData
                      /\ co_type contrib <> Some (lit "Bot")
                      /\ co_login contrib = Some (Contributor.login c)
                      /\ co_avatar_url contrib
                         = Some (Contributor.avatar_url c)
                      /\ co_html_url contrib = Some (Contributor.html_url c)
                      /\ co_contributions contrib
                         = Contributor.contributions c)
            contributorsList.
Proof.
  unfold fetchContributors. rewrite bind_run, fetch_run. cbn [fst snd].
  fold (contributorsRequest owner repo headers).
  destruct (contributorsResponse _ _) as [m | status statusText body];
    [discriminate | ].
  destruct body as [m | [data | ]]; try discriminate.
  destruct (ok status) eqn:Hok; [ | discriminate].
  remember (Z.to_nat MAX_CONTRIBUTORS_TO_FETCH) as cap eqn:Ecap.
  cbn [fst ret]. intros H. injection H as <-.
  split; [ | split].
  - pose proof (firstn_le_length cap (filter_map contributorOfItem data)) as L.
    assert (Z.of_nat cap = MAX_CONTRIBUTORS_TO_FETCH) as C.
    { rewrite Ecap. apply Z2Nat.id. unfold MAX_CONTRIBUTORS_TO_FETCH. lia. }
    lia.
  - apply Forall_firstn_of, filter_map_Forall.
    intros x c _. unfold contributorOfItem.
    destruct (co_login x) as [[ | a lg] | ]; try discriminate.
    destruct (co_avatar_url x) as [[ | b av] | ]; try discriminate.
    destruct (co_html_url x) as [[ | d ht] | ]; try discriminate.
    destruct (match co_type x with Some ty => _ | None => _ end);
      [discriminate | ].
    intros E. injection E as <-. cbn. auto.
  - exists status, statusText, data.
    split; [reflexivity | split; [exact Hok | ]].
    apply Forall_firstn_of, filter_map_Forall.
    intros x c Hin. unfold contributorOfItem.
    destruct (co_login x) as [[ | a lg] | ] eqn:El; try discriminate.
    destruct (co_avatar_url x) as [[ | b av] | ] eqn:Ea; try discriminate.
    destruct (co_html_url x) as [[ | d ht] | ] eqn:Eh; try discriminate.
    destruct (co_type x) as [ty | ] eqn:Et.
    + destruct (JS.eqb ty (lit "Bot")) eqn:Eb; [discriminate | ].
      intros E. injection E as <-. exists x. cbn.
      repeat split; auto.
      intros Hbot. rewrite Et in Hbot. injection Hbot as ->.
      vm_compute in Eb. discriminate Eb.
    + intros E. injection E as <-. exists x. cbn.
      repeat split; auto. rewrite Et. discriminate.
Qed.

End HandlerResults.

Lemma contributors_failure_is_not_fatal_witness :
  let result :=
    fst (@fetchRepoInfoTool Example.runtime Example.emptyRepository
           (Example.input "https://github.com/acme/widget") []) in
  Output.error result = None
  /\ Output.repoName result = Some (lit "widget")
  /\ Output.contributors result = None.
Proof.
  intros result.
  destruct (@contributors_failure_is_not_fatal Example.runtime
              Example.emptyRepository
              (Example.input "https://github.com/acme/widget")
              (lit "acme") (lit "widget") Example.details
              (map (fileOfTreeItem (rt := Example.runtime)
                      (lit "acme") (lit "widget") (lit "main"))
                 Example.emptyFiles)
              [] eq_refl eq_refl eq_refl)
    as (He & Hn & _ & _ & before & Ht & Hc).
  split; [exact He | split; [exact Hn | ]].
  apply Hc. exact I.
Defined.

Lemma contributors_are_filtered_and_bounded_witness :
  exists contributorsList,
    fst (@fetchContributors Sample.withContributors
           (lit "acme") (lit "widget") [] []) = Some contributorsList
    /\ map Contributor.login contributorsList = [lit "ada"; lit "grace"]
    /\ (Z.of_nat (List.length contributorsList)
        <= MAX_CONTRIBUTORS_TO_FETCH)%Z.
Proof.
  destruct (fst (@fetchContributors Sample.withContributors
                   (lit "acme") (lit "widget") [] [])) as [l | ] eqn:E;
    [ | discriminate E].
  exists l. split; [reflexivity | ].
  destruct (@contributors_are_filtered_and_bounded Sample.withContributors
              (lit "acme") (lit "widget") [] [] l E) as (Hlen & _ & _).
  split; [ | exact Hlen].
  vm_compute in E. injection E as <-. reflexivity.
Defined.

Section HandlerRequests.

Context {rt : Runtime} {net : Network}.

(** X14.  Every request of a run carries the same headers, those built
    from the token of the input; among them the [Authorization] header
    is present exactly when the token is a non-empty string, with the
    value [token <the token>]. *)
Theorem every_request_carries_the_headers (input : Input.t) (tr : Trace) :
  (exists requests,
      snd (fetchRepoInfoTool input tr) = tr ++ requests
      /\ Forall (fun rq =>
                   req_headers rq = requestHeaders (Input.githubToken input))
           requests)
  /\ forall value,
       In (lit "Authorization", value)
         (requestHeaders (Input.githubToken input))
       <-> exists token,
             Input.githubToken input = Some token
             /\ nonempty token = true
             /\ value = lit "token " +++ token.
Proof.
  split.
  - pose proof (fetchRepoInfoTool_run input tr) as R.
    destruct (parseRepoUrl (Input.repoUrl input)) as [m | [owner repo]].
    { rewrite R. exists []. cbn. rewrite app_nil_r. auto. }
    cbn zeta in R.
    destruct (fst (fetchRepoDetails owner repo _ tr)) as [m | details].
    { rewrite R. eexists. split; [reflexivity | ]. repeat constructor. }
    destruct (fetchTree_requests owner repo (defaultBranchOf details)
                (requestHeaders (Input.githubToken input))
                (tr ++ [repoRequest owner repo
                          (requestHeaders (Input.githubToken input))]))
      as (later & Et & Ft).
    destruct (fst (fetchTree owner repo _ _ _)) as [m | all].
    { rewrite R, Et. cbn [snd]. rewrite <- app_assoc.
      eexists. split; [reflexivity | ].
      constructor; [reflexivity | ]. constructor; [reflexivity | exact Ft]. }
    rewrite R. cbn [snd]. rewrite selectContents_run. cbn [snd].
    destruct (loop_requests owner repo (defaultBranchOf details)
                (requestHeaders (Input.githubToken input))
                (filesOnly all) initialState
                (snd (fetchTree owner repo (defaultBranchOf details)
                        (requestHeaders (Input.githubToken input))
                        (tr ++ [repoRequest owner repo
                                  (requestHeaders
                                     (Input.githubToken input))]))))
      as (r1 & E1 & _ & F1).
    rewrite E1, Et, <- !app_assoc. eexists. split; [reflexivity | ].
    cbn [app]. constructor; [reflexivity | ]. constructor; [reflexivity | ].
    apply Forall_app. split; [exact Ft | ].
    apply Forall_app. split.
    + eapply Forall_impl; [ | exact F1]. intros rq [H _]. exact H.
    + repeat constructor.
  - intros value. unfold requestHeaders. split.
    + intros Hin. apply in_app_or in Hin.
      destruct Hin as [[H | [H | []]] | Hin]; try discriminate H.
      destruct (Input.githubToken input) as [[ | c tok] | ];
        try contradiction.
      destruct Hin as [H | []]. injection H as <-.
      exists (c :: tok). auto.
    + intros (token & -> & Hne & ->).
      destruct token as [ | c tok]; [discriminate Hne | ].
      apply in_or_app. right. left. reflexivity.
Qed.

(** X15.  Every entry of the [repoContents] the handler returns is
    either populated (content set, no error) or annotated (no content,
    a non-empty error), never both and never neither. *)
Theorem every_listed_entry_is_populated_or_annotated
    (input : Input.t) (tr : Trace) (contents : list File.t) :
  Output.repoContents (fst (fetchRepoInfoTool input tr)) = Some contents ->
  Forall populated_or_annotated contents.
Proof.
  pose proof (fetchRepoInfoTool_run input tr) as R.
  destruct (parseRepoUrl (Input.repoUrl input)) as [m | [owner repo]];
    [rewrite R; discriminate | ].
  cbn zeta in R.
  destruct (fst (fetchRepoDetails owner repo _ tr)) as [m | details];
    [rewrite R; discriminate | ].
  destruct (fst (fetchTree owner repo _ _ _)) as [m | all] eqn:T;
    [rewrite R; discriminate | ].
  rewrite R. cbn [fst Output.repoContents]. intros E.
  assert (C : contents
              = fst (selectContents owner repo (defaultBranchOf details)
                       (requestHeaders (Input.githubToken input)) all
                       (snd (fetchTree owner repo (defaultBranchOf details)
                               (requestHeaders (Input.githubToken input))
                               (tr ++ [repoRequest owner repo
                                         (requestHeaders
                                            (Input.githubToken input))]))))).
  { destruct (fst (selectContents _ _ _ _ _ _)); [discriminate | ].
    injection E as <-. reflexivity. }
  rewrite C, selectContents_run. cbn [fst].
  eapply Permutation_Forall; [symmetry; apply sort_by_perm | ].
  destruct (loop_listing owner repo (defaultBranchOf details)
              (requestHeaders (Input.githubToken input))
              (filesOnly all) initialState
              (snd (fetchTree owner repo (defaultBranchOf details)
                      (requestHeaders (Input.githubToken input))
                      (tr ++ [repoRequest owner repo
                                (requestHeaders
                                   (Input.githubToken input))]))))
    as (added & Ea & _ & _ & _ & _ & _ & _ & Hp).
  cbn [repoContents initialState app] in Ea. rewrite Ea. apply Hp.
  apply fetchTree_fresh in T. rewrite Forall_forall in T.
  apply Forall_forall. intros f Hf. apply In_filesOnly in Hf. apply T, Hf.
Qed.

(** X16.  Over the recursive listing the selection engine only ever
    requests blobs: every request it makes goes to the raw URL built
    from owner, repository, branch and the path of a tree item of type
    [blob] with a non-empty path.  Directories and other items are
    never requested. *)
Theorem recursive_listing_requests_only_blobs
    (owner repo defaultBranch : jsstring) (headers : Headers)
    (items : list TreeItem) (tr : Trace) :
  exists requests,
    snd (selectContents owner repo defaultBranch headers
           (map (fileOfTreeItem owner repo defaultBranch) items) tr)
    = tr ++ requests
    /\ Forall (fun rq =>
                 exists item,
                   In item items
                   /\ ti_type item = lit "blob"
                   /\ nonempty (ti_path item) = true
                   /\ req_url rq
                      = rawUrl owner repo defaultBranch (ti_path item))
         requests.
Proof.
  destruct (loop_requests owner repo defaultBranch headers
              (filesOnly (map (fileOfTreeItem owner repo defaultBranch) items))
              initialState tr) as (requests & E & _ & F).
  exists requests. rewrite selectContents_run. cbn [snd].
  split; [exact E | ].
  eapply Forall_impl; [ | exact F]. intros rq (_ & f & Hf & Hr).
  apply In_filesOnly in Hf. destruct Hf as [Hin Hfile].
  apply in_map_iff in Hin. destruct Hin as (item & <- & Hitem).
  exists item. split; [exact Hitem | ].
  unfold isFile in Hfile. apply andb_true_iff in Hfile.
  destruct Hfile as [Htype Hpath].
  unfold resolveDownloadUrl in Hr.
  cbn [fileOfTreeItem File.type File.path File.download_url File.sha]
    in Htype, Hpath, Hr.
  destruct (JS.eqb (ti_type item) (lit "blob")) eqn:B.
  - apply eqb_eq in B. split; [exact B | ]. split; [exact Hpath | ].
    assert (T : truthy (Some (rawUrl owner repo defaultBranch (ti_path item)))
                = true) by reflexivity.
    rewrite T in Hr. cbn [negb andb] in Hr. injection Hr as <-. reflexivity.
  - destruct (JS.eqb (ti_type item) (lit "tree"));
      vm_compute in Htype; discriminate Htype.
Qed.

End HandlerRequests.

Lemma every_listed_entry_is_populated_or_annotated_witness :
  exists contents,
    Output.repoContents
      (fst (@fetchRepoInfoTool Example.runtime Sample.withContributors
              (Example.input "https://github.com/acme/widget") []))
    = Some contents
    /\ Forall populated_or_annotated contents.
Proof.
  destruct (Output.repoContents
              (fst (@fetchRepoInfoTool Example.runtime Sample.withContributors
                      (Example.input "https://github.com/acme/widget") [])))
    as [contents | ] eqn:E; [ | discriminate E].
  exists contents. split; [reflexivity | ].
  exact (@every_listed_entry_is_populated_or_annotated Example.runtime
           Sample.withContributors
           (Example.input "https://github.com/acme/widget") [] contents E).
Defined.

(* ================================================================== *)
(** * Further properties of URL parsing *)

Lemma split_free sep s : free_of sep s -> split sep s = [s].
Proof.
  unfold free_of. induction s as [ | c s IH]; intros H; [reflexivity | ].
  cbn [split]. destruct (N.eqb_spec c sep) as [-> | _].
  - destruct H. left. reflexivity.
  - rewrite IH; [reflexivity | ]. intros Hin. apply H. right. exact Hin.
Qed.

Lemma split_app sep a b :
  free_of sep a -> split sep (a ++ sep :: b) = a :: split sep b.
Proof.
  unfold free_of. induction a as [ | c a IH]; intros H.
  - cbn [app split]. rewrite N.eqb_refl. reflexivity.
  - cbn [app split]. destruct (N.eqb_spec c sep) as [-> | _].
    + destruct H. left. reflexivity.
    + rewrite IH; [reflexivity | ]. intros Hin. apply H. right. exact Hin.
Qed.

Lemma startsWith_app p rest : startsWith (p ++ rest) p = true.
Proof.
  induction p as [ | c p IH]; [destruct rest; reflexivity | ].
  cbn. rewrite N.eqb_refl, IH. reflexivity.
Qed.

(** One trailing [.git] is what [replace] removes. *)
Lemma replace_dot_git_app repo : replace_dot_git (repo ++ lit ".git") = repo.
Proof.
  unfold replace_dot_git, endsWith.
  rewrite rev_app_distr, startsWith_app, length_app.
  change (List.length (lit ".git")) with 4.
  replace (List.length repo + 4 - 4) with (List.length repo) by lia.
  rewrite firstn_app, firstn_all, Nat.sub_diag. cbn. apply app_nil_r.
Qed.

(** X17.  Parsing reads the owner and the repository off the first two
    segments of the path: for a path [/owner/segment], optionally
    followed by a slash and anything else, where owner and segment are
    non-empty and hold no slash, it returns the owner and the segment
    without one trailing [.git].  So [/owner/repo.git], [/owner/repo]
    and [/owner/repo/tree/main] all give the same owner and
    repository. *)
Theorem parseRepoUrl_reads_owner_and_repo {rt : Runtime}
    (repoUrl owner segment tail : jsstring) :
  nonempty owner = true -> free_of (ch "/") owner ->
  nonempty segment = true -> free_of (ch "/") segment ->
  tail = [] \/ (exists more, tail = ch "/" :: more) ->
  URL_pathname repoUrl
  = inr (lit "/" +++ owner +++ lit "/" +++ segment +++ tail) ->
  parseRepoUrl repoUrl = inr (owner, replace_dot_git segment)
  /\ forall repo, segment = repo +++ lit ".git" ->
                  parseRepoUrl repoUrl = inr (owner, repo).
Proof.
  intros Ho Fo Hs Fs Ht E.
  assert (P : parseRepoUrl repoUrl = inr (owner, replace_dot_git segment)).
  { unfold parseRepoUrl. rewrite E.
    change (lit "/" +++ owner +++ lit "/" +++ segment +++ tail)
      with ([] ++ ch "/" :: (owner ++ ch "/" :: (segment ++ tail))).
    rewrite (split_app (sep := ch "/") (a := [])) by (intros []).
    rewrite (split_app (sep := ch "/")) by exact Fo.
    assert (S : exists rest,
               split (ch "/") (segment ++ tail) = segment :: rest).
    { destruct Ht as [-> | (more & ->)].
      - rewrite app_nil_r, split_free by exact Fs. eexists. reflexivity.
      - rewrite split_app by exact Fs. eexists. reflexivity. }
    destruct S as (rest & ->).
    cbn [filter nonempty]. rewrite Ho, Hs. reflexivity. }
  split; [exact P | ].
  intros repo ->. rewrite P, replace_dot_git_app. reflexivity.
Qed.

Lemma parseRepoUrl_reads_owner_and_repo_witness :
  parseRepoUrl (rt := Example.runtime)
    (lit "https://github.com/acme/widget.git/tree/main?tab=readme")
  = inr (lit "acme", lit "widget").
Proof.
  destruct (@parseRepoUrl_reads_owner_and_repo Example.runtime
              (lit "https://github.com/acme/widget.git/tree/main?tab=readme")
              (lit "acme") (lit "widget.git") (lit "/tree/main")
              eq_refl
              ltac:(unfold free_of; cbn; intuition discriminate)
              eq_refl
              ltac:(unfold free_of; cbn; intuition discriminate)
              (or_intror (ex_intro _ (lit "tree/main") eq_refl))
              eq_refl) as (_ & H).
  exact (H (lit "widget") eq_refl).
Defined.

(* ================================================================== *)
(** * Properties of the generation flow *)

Lemma bindF_run {A B} (c : Flow A) (f : A -> Flow B) (log : list Call) :
  bindF c f log = f (fst (c log)) (snd (c log)).
Proof. unfold bindF. destruct (c log); reflexivity. Qed.

Lemma includes_prefix (p rest : jsstring) : includes (p ++ rest) p = true.
Proof.
  destruct p as [ | c p].
  - destruct rest; reflexivity.
  - cbn [app includes startsWith].
    rewrite N.eqb_refl, startsWith_app. reflexivity.
Qed.

Lemma handler_error_is_nonempty {rt : Runtime} {net : Network}
    (input : Input.t) (tr : Trace) (message : jsstring) :
  Output.error (fst (fetchRepoInfoTool input tr)) = Some message ->
  nonempty message = true
  /\ fst (fetchRepoInfoTool input tr) = Output.failure message input.
Proof.
  pose proof (fetchRepoInfoTool_run input tr) as R.
  destruct (parseRepoUrl (Input.repoUrl input)) as [m | [owner repo]] eqn:P.
  { rewrite R. cbn. intros E. injection E as <-.
    split; [eapply parseRepoUrl_message; exact P | reflexivity]. }
  cbn zeta in R.
  destruct (fst (fetchRepoDetails owner repo _ tr)) as [m | details] eqn:D.
  { rewrite R. cbn. intros E. injection E as <-.
    split; [eapply fetchRepoDetails_message; exact D | reflexivity]. }
  destruct (fst (fetchTree owner repo _ _ _)) as [m | all] eqn:T.
  { rewrite R. cbn. intros E. injection E as <-.
    split; [eapply fetchTree_message; exact T | reflexivity]. }
  rewrite R. cbn. discriminate.
Qed.

Section FlowProperties.

Context {rt : Runtime} {sv : Services}.

(** X18.  When the tool reports an error, the flow returns at once
    with a single pseudo-README of language [Error], named [ERROR.md],
    whose text quotes the error; the tool's result is passed on as
    debug information, neither the model nor the translator is called,
    and the page recognises the result as an error. *)
Theorem tool_error_ends_the_flow
    (input : GenerateReadmeInput.t) (log : list Call)
    (repoInfo : Output.t) (message : jsstring) :
  toolResult log (toolInputOf input) = inr repoInfo ->
  Output.error repoInfo = Some message ->
  nonempty message = true ->
  generateReadmeFlow input log
  = (Resolved
       {| GenerateReadmeOutput.readmes :=
            [{| ReadmeObject.language := lit "Error";
                ReadmeObject.fileName := lit "ERROR.md";
                ReadmeObject.content := errorContent message |}];
          GenerateReadmeOutput.debugInfo := repoInfo |},
     log ++ [ToolCall (toolInputOf input)])
  /\ includes (errorContent message) message = true
  /\ isErrorResult
       {| GenerateReadmeOutput.readmes :=
            [{| ReadmeObject.language := lit "Error";
                ReadmeObject.fileName := lit "ERROR.md";
                ReadmeObject.content := errorContent message |}];
          GenerateReadmeOutput.debugInfo := repoInfo |} = true.
Proof.
  intros Htool Herr Hne. split; [ | split; [ | reflexivity]].
  - unfold generateReadmeFlow. fold (toolInputOf input).
    rewrite bindF_run. unfold call. cbn [fst snd].
    rewrite Htool, Herr. cbn [truthy]. rewrite Hne.
    destruct message as [ | c message]; [discriminate Hne | reflexivity].
  - unfold errorContent.
    change (lit "## Unable to Analyze Repository" +++ 10%N :: 10%N
            :: lit "I was unable to fetch repository details. Error: "
            +++ message +++ lit "." +++ 10%N :: 10%N
            :: lit "Please check the URL and that the repository is public (or that a valid token is provided for a private repo).")
      with ((lit "## Unable to Analyze Repository" +++ 10%N :: 10%N
             :: lit "I was unable to fetch repository details. Error: ")
            ++ (message
                ++ lit "." +++ 10%N :: 10%N
                :: lit "Please check the URL and that the repository is public (or that a valid token is provided for a private repo).")).
    apply includes_app_right, includes_prefix.
Qed.

(** X19.  An empty answer of the model makes the flow throw, after
    the tool and the model were called once each and before any
    translation.  The message says that no files could be retrieved
    exactly when the tool returned no contents. *)
Theorem empty_model_output_rejects
    (input : GenerateReadmeInput.t) (log : list Call)
    (repoInfo : Output.t) (output : option jsstring) :
  toolResult log (toolInputOf input) = inr repoInfo ->
  truthy (Output.error repoInfo) = false ->
  promptResult (log ++ [ToolCall (toolInputOf input)])
    (promptInputOf input repoInfo) = inr output ->
  truthy output = false ->
  generateReadmeFlow input log
  = (Rejected (generationFailure repoInfo),
     log ++ [ToolCall (toolInputOf input);
             PromptCall (promptInputOf input repoInfo)])
  /\ (includes (generationFailure repoInfo) noFilesNotice = true
      <-> Output.repoContents repoInfo = None
          \/ Output.repoContents repoInfo = Some []).
Proof.
  intros Htool Herr Hprompt Hout. split.
  - unfold generateReadmeFlow.
    fold (toolInputOf input). rewrite bindF_run. unfold call.
    cbn [fst snd]. rewrite Htool, Herr.
    fold (promptInputOf input repoInfo). rewrite bindF_run.
    unfold call. cbn [fst snd]. rewrite Hprompt, <- app_assoc.
    destruct output as [[ | c text] | ]; [ | discriminate Hout | ];
      reflexivity.
  - unfold generationFailure.
    destruct (Output.repoContents repoInfo) as [[ | e contents] | ].
    + split; [auto | intros _; vm_compute; reflexivity].
    + split; [ | intros [H | H]; discriminate H].
      intros H. vm_compute in H. discriminate H.
    + split; [auto | intros _; vm_compute; reflexivity].
Qed.

Lemma translateAll_spec originalReadmeContent langs :
  forall log,
    snd (translateAll originalReadmeContent langs log)
    = log ++ map (TranslateCall originalReadmeContent) langs
    /\ subsequence
         (map ReadmeObject.language
            (fst (translateAll originalReadmeContent langs log)))
         langs
    /\ Forall (fun readme =>
                 ReadmeObject.fileName readme
                 = lit "README." +++ langCode (ReadmeObject.language readme)
                   +++ lit ".md"
                 /\ exists translated,
                      nonempty translated = true
                      /\ ReadmeObject.content readme = translated +++ footer)
         (fst (translateAll originalReadmeContent langs log)).
Proof.
  induction langs as [ | lang langs IH]; intros log.
  - cbn. rewrite app_nil_r. repeat constructor.
  - cbn [translateAll map]. rewrite !bindF_run.
    unfold translateOne. rewrite !bindF_run.
    unfold call. cbn [fst snd].
    destruct (translateResult log originalReadmeContent lang)
      as [m | [[ | c translated] | ]]; cbn [fst snd retF];
      destruct (IH (log ++ [TranslateCall originalReadmeContent lang]))
        as (El & Sl & Fl);
      rewrite El, <- app_assoc;
      (split; [reflexivity | ]); cbn [map];
      try (split; [apply sub_skip; exact Sl | exact Fl]).
    split; [apply sub_keep; exact Sl | ].
    constructor; [ | exact Fl]. cbn.
    split; [reflexivity | ]. exists (c :: translated). auto.
Qed.

Lemma subsequence_length {A} (small large : list A) :
  subsequence small large -> List.length small <= List.length large.
Proof. induction 1; cbn; lia. Qed.

Lemma subsequence_In {A} (small large : list A) x :
  subsequence small large -> In x small -> In x large.
Proof.
  induction 1 as [ | y small large _ IH | y small large _ IH]; cbn;
    intuition auto.
Qed.

(** X20.  When the model answers with a non-empty text, the flow
    returns the English [README.md] first, its content the model's
    text followed by the footer, and after it the translations.  The
    translator is called once for each target language, in order,
    with the model's text (without the footer).  The translations
    keep the order of the target languages, possibly with gaps; each
    is named [README.<code>.md] after its language and ends with the
    footer.  The page never takes such a result for an error. *)
Theorem generated_readmes
    (input : GenerateReadmeInput.t) (log : list Call)
    (repoInfo : Output.t) (originalReadmeContent : jsstring) :
  toolResult log (toolInputOf input) = inr repoInfo ->
  truthy (Output.error repoInfo) = false ->
  promptResult (log ++ [ToolCall (toolInputOf input)])
    (promptInputOf input repoInfo) = inr (Some originalReadmeContent) ->
  nonempty originalReadmeContent = true ->
  exists translatedResults,
    generateReadmeFlow input log
    = (Resolved
         {| GenerateReadmeOutput.readmes :=
              {| ReadmeObject.language := lit "English";
                 ReadmeObject.fileName := lit "README.md";
                 ReadmeObject.content := originalReadmeContent +++ footer |}
              :: translatedResults;
            GenerateReadmeOutput.debugInfo := repoInfo |},
       log ++ ToolCall (toolInputOf input)
           :: PromptCall (promptInputOf input repoInfo)
           :: map (TranslateCall originalReadmeContent) (languagesOf input))
    /\ subsequence (map ReadmeObject.language translatedResults)
         (languagesOf input)
    /\ Forall (fun readme =>
                 ReadmeObject.fileName readme
                 = lit "README." +++ langCode (ReadmeObject.language readme)
                   +++ lit ".md"
                 /\ exists translated,
                      nonempty translated = true
                      /\ ReadmeObject.content readme = translated +++ footer)
         translatedResults
    /\ isErrorResult
         {| GenerateReadmeOutput.readmes :=
              {| ReadmeObject.language := lit "English";
                 ReadmeObject.fileName := lit "README.md";
                 ReadmeObject.content := originalReadmeContent +++ footer |}
              :: translatedResults;
            GenerateReadmeOutput.debugInfo := repoInfo |} = false.
Proof.
  intros Htool Herr Hprompt Hne.
  destruct originalReadmeContent as [ | c text]; [discriminate Hne | ].
  unfold generateReadmeFlow.
  fold (toolInputOf input). rewrite bindF_run. unfold call.
  cbn [fst snd]. rewrite Htool, Herr.
  fold (promptInputOf input repoInfo). rewrite bindF_run.
  unfold call. cbn [fst snd]. rewrite Hprompt, <- app_assoc.
  cbn [app]. rewrite bindF_run. unfold languagesOf.
  destruct (GenerateReadmeInput.targetLanguages input)
    as [[ | lang langs] | ].
  - exists []. cbn [retF fst snd map app]. repeat split; constructor.
  - destruct (translateAll_spec (c :: text) (lang :: langs)
                (log ++ [ToolCall (toolInputOf input);
                         PromptCall (promptInputOf input repoInfo)]))
      as (El & Sl & Fl).
    exists (fst (translateAll (c :: text) (lang :: langs)
                   (log ++ [ToolCall (toolInputOf input);
                            PromptCall (promptInputOf input repoInfo)]))).
    rewrite El, <- app_assoc. cbn [app retF].
    split; [reflexivity | ]. split; [exact Sl | ]. split; [exact Fl | ].
    unfold isErrorResult. cbn [GenerateReadmeOutput.readmes].
    destruct (fst (translateAll _ _ _)) as [ | r rs]; reflexivity.
  - exists []. cbn [retF fst snd map app]. repeat split; constructor.
Qed.


End FlowProperties.

(** X22.  A failure of the handler always reaches the user as an
    error: whenever the tool service hands the handler's result to the
    flow and that result has [error] set, the flow returns the single
    [ERROR.md] quoting that error, with the handler's result (an error
    and nothing else) as debug information, and calls neither the
    model nor the translator. *)
Theorem handler_failure_becomes_an_error_readme
    {rt : Runtime} {net : Network} {sv : Services}
    (input : GenerateReadmeInput.t) (log : list Call) (tr : Trace)
    (message : jsstring) :
  toolResult log (toolInputOf input)
  = inr (fst (fetchRepoInfoTool (toolInputOf input) tr)) ->
  Output.error (fst (fetchRepoInfoTool (toolInputOf input) tr))
  = Some message ->
  generateReadmeFlow input log
  = (Resolved
       {| GenerateReadmeOutput.readmes :=
            [{| ReadmeObject.language := lit "Error";
                ReadmeObject.fileName := lit "ERROR.md";
                ReadmeObject.content := errorContent message |}];
          GenerateReadmeOutput.debugInfo :=
            Output.failure message (toolInputOf input) |},
     log ++ [ToolCall (toolInputOf input)]).
Proof.
  intros Htool Herr.
  destruct (handler_error_is_nonempty (toolInputOf input) tr Herr)
    as (Hne & Hout).
  unfold generateReadmeFlow. fold (toolInputOf input).
  rewrite bindF_run. unfold call. cbn [fst snd].
  rewrite Htool, Herr, Hout. cbn [truthy]. rewrite Hne.
  destruct message as [ | c message]; [discriminate Hne | reflexivity].
Qed.

Lemma tool_error_ends_the_flow_witness :
  fst (@generateReadmeFlow Example.runtime
         (Studio.services
            (inr (Output.failure (lit "Invalid repository URL: Invalid URL")
                    (Example.input "nowhere")))
            (inl (lit "the model is not reached")))
         (Studio.request ["Spanish"]%string) [])
  = Resolved
      {| GenerateReadmeOutput.readmes :=
           [{| ReadmeObject.language := lit "Error";
               ReadmeObject.fileName := lit "ERROR.md";
               ReadmeObject.content :=
                 errorContent (lit "Invalid repository URL: Invalid URL") |}];
         GenerateReadmeOutput.debugInfo :=
           Output.failure (lit "Invalid repository URL: Invalid URL")
             (Example.input "nowhere") |}.
Proof.
  destruct (@tool_error_ends_the_flow Example.runtime
              (Studio.services
                 (inr (Output.failure
                         (lit "Invalid repository URL: Invalid URL")
                         (Example.input "nowhere")))
                 (inl (lit "the model is not reached")))
              (Studio.request ["Spanish"]%string) []
              (Output.failure (lit "Invalid repository URL: Invalid URL")
                 (Example.input "nowhere"))
              (lit "Invalid repository URL: Invalid URL")
              eq_refl eq_refl eq_refl) as (E & _).
  rewrite E. reflexivity.
Defined.

Lemma empty_model_output_rejects_witness :
  exists message,
    fst (@generateReadmeFlow Example.runtime
           (Studio.services (inr Studio.repoInfo) (inr (Some [])))
           (Studio.request ["Spanish"]%string) [])
    = Rejected message
    /\ includes message noFilesNotice = true.
Proof.
  destruct (@empty_model_output_rejects Example.runtime
              (Studio.services (inr Studio.repoInfo) (inr (Some [])))
              (Studio.request ["Spanish"]%string) [] Studio.repoInfo (Some [])
              eq_refl eq_refl eq_refl eq_refl) as (E & N).
  exists (generationFailure Studio.repoInfo). rewrite E.
  split; [reflexivity | ]. apply N. left. reflexivity.
Defined.

Lemma generated_readmes_witness :
  exists output,
    fst (@generateReadmeFlow Example.runtime
           (Studio.services (inr Studio.repoInfo)
              (inr (Some (lit "# Widget"))))
           (Studio.request ["Spanish"; "Klingon"; "Welsh"]%string) [])
    = Resolved output
    /\ map ReadmeObject.fileName (GenerateReadmeOutput.readmes output)
       = [lit "README.md"; lit "README.es.md"; lit "README.we.md"].
Proof.
  destruct (@generated_readmes Example.runtime
              (Studio.services (inr Studio.repoInfo)
                 (inr (Some (lit "# Widget"))))
              (Studio.request ["Spanish"; "Klingon"; "Welsh"]%string) []
              Studio.repoInfo (lit "# Widget")
              eq_refl eq_refl eq_refl eq_refl)
    as (translated & E & _).
  eexists. split; [rewrite E; reflexivity | ].
  apply (f_equal fst) in E. cbn [fst] in E.
  vm_compute in E. injection E as <-. reflexivity.
Defined.

Lemma handler_failure_becomes_an_error_readme_witness :
  exists content,
    fst (@generateReadmeFlow Example.runtime
           (Studio.services
              (inr (fst (@fetchRepoInfoTool Example.runtime
                           Example.treeUnreachable
                           (Example.input "https://github.com/acme/widget")
                           [])))
              (inl (lit "the model is not reached")))
           (Studio.request []) [])
    = Resolved
        {| GenerateReadmeOutput.readmes :=
             [{| ReadmeObject.language := lit "Error";
                 ReadmeObject.fileName := lit "ERROR.md";
                 ReadmeObject.content := content |}];
           GenerateReadmeOutput.debugInfo :=
             Output.failure (treeException (lit "socket hang up"))
               (Example.input "https://github.com/acme/widget") |}.
Proof.
  eexists.
  rewrite (@handler_failure_becomes_an_error_readme Example.runtime
             Example.treeUnreachable
             (Studio.services
                (inr (fst (@fetchRepoInfoTool Example.runtime
                             Example.treeUnreachable
                             (Example.input "https://github.com/acme/widget")
                             [])))
                (inl (lit "the model is not reached")))
             (Studio.request []) [] []
             (treeException (lit "socket hang up")) eq_refl eq_refl).
  reflexivity.
Defined.

(* ================================================================== *)
(** * A further property of the content fetcher *)

(** X23.  For an entry whose download URL resolves, the fetcher makes
    one request, and it returns content exactly when that request
    succeeds (a success status and a readable body).  Otherwise it
    returns an error and no content; for a status that is not a
    success the error quotes the URL, and for an exception it quotes
    the exception's message. *)
Theorem content_exactly_when_the_download_succeeds
    {rt : Runtime} {net : Network}
    (file : File.t) (owner repo defaultBranch : jsstring)
    (headers : Headers) (tr : Trace) (url : jsstring) :
  resolveDownloadUrl file owner repo defaultBranch = Some url ->
  nonempty url = true ->
  let response :=
    contentResponse tr {| req_url := url; req_headers := headers |} in
  let result :=
    fst (fetchFileContent file owner repo defaultBranch headers tr) in
  (Fetched.content result = None <-> failed response)
  /\ (failed response ->
      exists message,
        Fetched.error result = Some message
        /\ (forall status statusText body,
               response = Responds status statusText body ->
               ok status = false -> includes message url = true)
        /\ (forall thrown,
               response = Rejects thrown -> includes message thrown = true)).
Proof.
  intros Hurl Hne response result. subst response result.
  unfold fetchFileContent. rewrite Hurl.
  destruct url as [ | c u]; [discriminate Hne | ].
  rewrite bind_run, fetch_run. cbn [fst snd].
  destruct (contentResponse tr _) as [thrown | status statusText body].
  - cbn [fst ret Fetched.content Fetched.error failed].
    split; [tauto | ]. intros _. eexists. split; [reflexivity | ].
    split; [intros ? ? ? E; discriminate E | ].
    intros thrown' E. injection E as <-.
    apply includes_app_right.
    rewrite <- (app_nil_r thrown) at 1. apply includes_prefix.
  - destruct (ok status) eqn:Hok.
    + destruct body as [message | text].
      * cbn [fst ret Fetched.content Fetched.error failed].
        split; [split; [intros _; right; eexists; reflexivity | reflexivity] | ].
        intros _. eexists. split; [reflexivity | ].
        split; [ | intros ? E; discriminate E].
        intros ? ? ? E Hno. injection E as <- _ _. congruence.
      * destruct (_ >? _)%Z;
          cbn [fst ret Fetched.content Fetched.error failed];
          (split; [split; [discriminate | ] | ]);
          intros [F | (m & F)]; congruence || discriminate F.
    + destruct (status =? 404)%Z;
        cbn [fst ret Fetched.content Fetched.error failed];
        (split; [split; [intros _; left; exact Hok | reflexivity] | ]);
        intros _; eexists; (split; [reflexivity | ]);
        (split; [ | intros ? E; discriminate E]);
        intros ? ? ? _ _; apply includes_app_right;
        apply (includes_prefix (c :: u)).
Qed.

Lemma content_exactly_when_the_download_succeeds_witness :
  let net :=
    Example.network Example.okDetails (Example.okTree [])
      (Example.status 500 "unused") (fun _ => Example.status 404 "Not Found") in
  let result :=
    fst (@fetchFileContent Example.runtime net
           (Example.sourceFile "a.ts") (lit "acme") (lit "widget")
           (lit "main") [] []) in
  Fetched.content result = None
  /\ exists message,
       Fetched.error result = Some message
       /\ includes message (lit "https://raw.example/a.ts") = true.
Proof.
  intros net result.
  destruct (@content_exactly_when_the_download_succeeds Example.runtime net
              (Example.sourceFile "a.ts") (lit "acme") (lit "widget")
              (lit "main") [] [] (lit "https://raw.example/a.ts")
              eq_refl eq_refl) as (Hiff & Hfail).
  split; [apply Hiff; left; reflexivity | ].
  destruct (Hfail (or_introl eq_refl)) as (message & He & Hu & _).
  exists message. split; [exact He | ].
  exact (Hu 404%Z (lit "Not Found") (inl (lit "body not read"))
           eq_refl eq_refl).
Defined.

(* ================================================================== *)
(** * A further property of the recursive listing *)

Lemma split_snoc sep s base :
  free_of sep base ->
  exists first init, split sep (s ++ sep :: base) = (first :: init) ++ [base].
Proof.
  intros F. induction s as [ | c s (first & init & IH)].
  - cbn [app split]. rewrite N.eqb_refl, split_free by exact F.
    exists [], []. reflexivity.
  - cbn [app split]. rewrite IH. destruct (N.eqb c sep).
    + exists [], (first :: init). reflexivity.
    + exists (c :: first), init. reflexivity.
Qed.

Lemma pop_snoc (parts : list jsstring) last : pop (parts ++ [last]) = Some last.
Proof. unfold pop. rewrite rev_app_distr. reflexivity. Qed.

(** X24.  An entry built from an item of the recursive listing is
    named after the last segment of the item's path: the part after
    the last slash, or the whole path when it has no slash.  So a
    README in any directory is classified by its base name, in
    tier 1. *)
Theorem tree_entry_is_named_after_its_last_segment {rt : Runtime}
    (owner repo defaultBranch : jsstring) (item : TreeItem)
    (dir base : jsstring) :
  nonempty base = true -> free_of (ch "/") base ->
  ti_path item = base \/ ti_path item = dir +++ ch "/" :: base ->
  File.name (fileOfTreeItem owner repo defaultBranch item) = base
  /\ (readme_name base ->
      getFilePriority (fileOfTreeItem owner repo defaultBranch item) = 1%Z).
Proof.
  intros Hne Hfree Hpath.
  assert (N : File.name (fileOfTreeItem owner repo defaultBranch item) = base).
  { cbn [fileOfTreeItem File.name].
    destruct Hpath as [-> | ->].
    - rewrite split_free by exact Hfree. cbn.
      destruct base; [discriminate Hne | reflexivity].
    - destruct (split_snoc dir Hfree) as (first & init & ->).
      rewrite pop_snoc. destruct base; [discriminate Hne | reflexivity]. }
  split; [exact N | ].
  intros Hr. apply README_FILES_REGEX_spec in Hr.
  apply getFilePriority_is_1. rewrite N. exact Hr.
Qed.

Lemma tree_entry_is_named_after_its_last_segment_witness :
  File.name
    (fileOfTreeItem (rt := Example.runtime) (lit "acme") (lit "widget")
       (lit "main") (Example.blob "packages/core/README.md" 10))
  = lit "README.md".
Proof.
  destruct (@tree_entry_is_named_after_its_last_segment Example.runtime
              (lit "acme") (lit "widget") (lit "main")
              (Example.blob "packages/core/README.md" 10)
              (lit "packages/core") (lit "README.md")
              eq_refl
              ltac:(unfold free_of; cbn; intuition discriminate)
              (or_intror eq_refl)) as (H & _).
  exact H.
Defined.
